(** * pcapng_to_har: the PCAPng -> HAR conversion driver

    A shallow embedding of [src/pcapng_to_har.py]: the command line entry
    point [cli] and the pipeline driver [pcapng_to_har].  The driver is
    orchestration code: it resolves the output path, checks the overwrite
    policy, asks tshark for the traffic, persists the unenriched HAR, runs
    the two optional enrichment passes over the shared HAR document and
    re-serializes it.

    The embedding threads an explicit world (file system, log records and
    the trace of collaborator calls) through a small state-and-exception
    monad; unlike a state transformer over [sum], the world survives a
    raised exception, which is what the claims about partially written
    output need. *)

From Stdlib Require Import String Ascii List Bool Arith ZArith Lia.
From stdpp Require Import base option gmap strings pretty.
Import ListNotations.
Local Open Scope string_scope.

(** ** pathlib: pure POSIX paths (CPython 3.10 - 3.13) *)

Module Pathlib.

(** A parsed path: the root (empty, one slash, or exactly two slashes) and
    the components that follow it. *)
Record Path := mkPath { root : string; parts : list string }.

(** [s.split("/")] *)
Fixpoint split_slash (s : string) : list string :=
  match s with
  | EmptyString => [EmptyString]
  | String c s' =>
      if Ascii.eqb c "/" then EmptyString :: split_slash s'
      else match split_slash s' with
           | [] => [String c EmptyString]
           | p :: ps => String c p :: ps
           end
  end.

Fixpoint leading_slashes (s : string) : nat :=
  match s with
  | String c s' => if Ascii.eqb c "/" then S (leading_slashes s') else 0
  | EmptyString => 0
  end.

(** posix [splitroot]: exactly two leading slashes are kept, any other
    positive number collapses to one. *)
Definition parse_root (s : string) : string :=
  match leading_slashes s with
  | 0 => ""
  | 2 => "//"
  | _ => "/"
  end.

Definition keep_part (x : string) : bool :=
  negb (String.eqb x "") && negb (String.eqb x ".").

(** [Path(s)] *)
Definition of_string (s : string) : Path :=
  mkPath (parse_root s) (filter (fun x => keep_part x = true) (split_slash s)).

Fixpoint join_slash (l : list string) : string :=
  match l with
  | [] => ""
  | [x] => x
  | x :: rest => x ++ "/" ++ join_slash rest
  end.

(** [str(p)] *)
Definition str (p : Path) : string :=
  match root p, parts p with
  | EmptyString, [] => "."
  | r, ps => r ++ join_slash ps
  end.

(** [p.name] *)
Definition name (p : Path) : string := List.last (parts p) "".

(** [s.rfind(".")] *)
Fixpoint rfind_dot (s : string) : option nat :=
  match s with
  | EmptyString => None
  | String c s' =>
      match rfind_dot s' with
      | Some i => Some (S i)
      | None => if Ascii.eqb c "." then Some 0 else None
      end
  end.

(** [p.suffix]: the last dot of the name and what follows it, unless that
    dot is the first or the last character of the name. *)
Definition name_suffix (nm : string) : string :=
  match rfind_dot nm with
  | Some i =>
      if ((0 <? i) && (i <? String.length nm - 1))%nat
      then substring i (String.length nm - i)%nat nm
      else ""
  | None => ""
  end.

Definition suffix (p : Path) : string := name_suffix (name p).

Fixpoint contains_slash (s : string) : bool :=
  match s with
  | EmptyString => false
  | String c s' => Ascii.eqb c "/" || contains_slash s'
  end.

Definition starts_with_dot (s : string) : bool :=
  match s with
  | String c _ => Ascii.eqb c "."
  | EmptyString => false
  end.

Definition replace_last (ps : list string) (nm : string) : list string :=
  removelast ps ++ [nm].

(** [p.with_suffix(suf)]; [None] stands for the [ValueError] pathlib
    raises on an invalid suffix or on a path with an empty name. *)
Definition with_suffix (p : Path) (suf : string) : option Path :=
  if contains_slash suf then None
  else if (negb (String.eqb suf "") && negb (starts_with_dot suf))
          || String.eqb suf "." then None
  else
    let nm := name p in
    if String.eqb nm "" then None
    else
      let old := suffix p in
      let nm' :=
        if String.eqb old "" then nm ++ suf
        else substring 0 (String.length nm - String.length old)%nat nm ++ suf in
      Some (mkPath (root p) (replace_last (parts p) nm')).

(** [p == q] *)
Definition eqb (p q : Path) : bool :=
  String.eqb (root p) (root q)
  && bool_decide (parts p = parts q).

(** [s.endswith(t)] *)
Definition ends_with (s t : string) : bool :=
  (String.length t <=? String.length s)%nat
  && String.eqb (substring (String.length s - String.length t)%nat (String.length t) s) t.

End Pathlib.

Export Pathlib(Path).

(** ** Python values, keyword arguments and exceptions *)

(** The values the driver receives from the command line and forwards as
    keyword arguments. *)
Inductive Tshark := mkTshark (executable : option string).

Inductive pyval :=
| PNone
| PBool (b : bool)
| PStr (s : string)
| PTshark (t : Tshark).

(** [**kwargs]: an ordered mapping from keyword to value. *)
Definition kwargs := list (string * pyval).

Fixpoint kw_get (k : string) (kws : kwargs) : option pyval :=
  match kws with
  | [] => None
  | (k', v) :: rest => if String.eqb k k' then Some v else kw_get k rest
  end.

Definition kw_mem (k : string) (kws : kwargs) : bool :=
  match kw_get k kws with Some _ => true | None => false end.

Inductive exn_class :=
| AssertionError
| FileExistsError
| IsADirectoryError
| ValueError
| TypeError
| RuntimeError
| OtherException (cls : string)
| KeyboardInterrupt
| SystemExit.

(** [isinstance(e, Exception)]: what an [except Exception] clause catches.
    [KeyboardInterrupt] and [SystemExit] derive from [BaseException] only. *)
Definition is_Exception (c : exn_class) : bool :=
  match c with
  | KeyboardInterrupt | SystemExit => false
  | _ => true
  end.

(** An exception object: its class and its argument; [ExnFrom] is an
    exception raised [from] another one, which becomes its [__cause__]. *)
Inductive exn :=
| Exn (cls : exn_class) (arg : string)
| ExnFrom (cls : exn_class) (arg : string) (cause : exn).

Definition exn_cls (e : exn) : exn_class :=
  match e with Exn c _ | ExnFrom c _ _ => c end.
Definition exn_arg (e : exn) : string :=
  match e with Exn _ a | ExnFrom _ a _ => a end.
Definition exn_cause (e : exn) : option exn :=
  match e with Exn _ _ => None | ExnFrom _ _ c => Some c end.

Inductive outcome (A : Type) :=
| Return (a : A)
| Raise (e : exn).
Arguments Return {A} a.
Arguments Raise {A} e.

(** ** The HAR document *)

(** Modelled from the spec: the HAR dictionary is built by
    [NetworkTrafficDump.to_har], which is not part of the source at hand.
    The records below follow the data model (section 3) and the output
    schema (section 6) of the specification: an entry carries its transport
    metadata, the request and the response with their bodies, and the
    vendor extension area that the enrichment passes write. *)
Record Endpoint := mkEndpoint { address : string; port : N }.

Record Frame := mkFrame { symbol : string; location : option string }.

Record Content := mkContent {
  size : N;
  mimeType : string;
  text : string;
  encoding : option string
}.

Record Request := mkRequest {
  method : string;
  url : string;
  req_httpVersion : string;
  req_headers : list (string * string);
  queryString : list (string * string);
  postData : option Content
}.

Record Response := mkResponse {
  status : N;
  statusText : string;
  resp_headers : list (string * string);
  content : Content
}.

(** Modelled from the spec: the mutable extension area of an entry, with
    what the stack trace pass attaches (the call stack, and the
    socket/session identifier that section 4.5 reads back) and the
    decryption provenance markers. *)
Record Extension := mkExtension {
  call_stack : option (list Frame);
  session : option string;
  request_decrypted : bool;
  response_decrypted : bool
}.

(** Modelled from the spec: [HarEntry], section 3. *)
Record HarEntry := mkHarEntry {
  startedDateTime : Z;
  time : Z;
  remote : Endpoint;
  request : Request;
  response : option Response;
  incomplete : bool;
  extension : Extension
}.

(** Modelled from the spec: [HarDocument], section 3. *)
Record HarDocument := mkHarDocument {
  version : string;
  creator : string * string;
  entries : list HarEntry
}.

(** The body contents of an entry: request body and response body. *)
Definition entry_contents (e : HarEntry) : option Content * option Content :=
  (postData (request e), option_map content (response e)).

Definition document_contents (d : HarDocument) : list (option Content * option Content) :=
  map entry_contents (entries d).

(** Modelled from the spec: [SocketOperationRecord], section 3; the feed
    is parsed by the class [Stacktrace], which is not part of the source at
    hand. *)
Record SocketOperationRecord := mkSocketOp {
  pid : N;
  tid : N;
  fd : N;
  so_local : Endpoint;
  so_remote : Endpoint;
  so_timestamp : Z;
  frames : list Frame
}.

Inductive Direction := OfRequest | OfResponse.

(** Modelled from the spec: [CryptoOperationRecord], section 3; the feed
    is parsed by the class [ContentDecryption], which is not part of the
    source at hand. *)
Record CryptoOperationRecord := mkCryptoOp {
  handle : string;
  direction : Direction;
  ciphertext : string;
  plaintext : string
}.

(** ** The world: files, log records, collaborator calls *)

Inductive node :=
| RegularFile (data : string)
| Directory.

Inductive level := INFO | WARNING | ERROR.

(** [logger.isEnabledFor(l)] for a logger whose effective level is
    [threshold].  The driver logs at INFO and at ERROR only; a threshold
    below INFO keeps what INFO keeps, and thresholds above ERROR (and
    [logging.disable]) are left out. *)
Definition enabled (threshold l : level) : bool :=
  match l with
  | ERROR => true
  | WARNING => match threshold with ERROR => false | _ => true end
  | INFO => match threshold with INFO => true | _ => false end
  end.

(** The records of a sequence of logging calls that the threshold keeps. *)
Definition kept (threshold : level) (records : list (level * string))
    : list (level * string) :=
  List.filter (fun r => enabled threshold (fst r)) records.

Inductive event :=
| EvExists (p : string)
| EvTshark (executable : option string)
| EvLoadTraffic (p : string)
| EvSaveHar (p : string) (overwrite : bool) (kws : kwargs)
| EvIsFile (p : string)
| EvStacktrace (p : string)
| EvStacktraceEnrich
| EvContentDecryption (p : string)
| EvContentDecryptionEnrich
| EvOpenW (p : string)
| EvJsonDump (d : HarDocument) (kws : kwargs).

(** The file system is a flat name space keyed by [str(path)]; [trace]
    records the calls in the order they are made, oldest first. *)
Record World := mkWorld {
  fs : gmap string node;
  log : list (level * string);
  trace : list event
}.

Definition set_fs (f : gmap string node) (w : World) : World :=
  mkWorld f (log w) (trace w).
Definition add_log (l : level) (msg : string) (w : World) : World :=
  mkWorld (fs w) (log w ++ [(l, msg)]) (trace w).
Definition add_event (e : event) (w : World) : World :=
  mkWorld (fs w) (log w) (trace w ++ [e]).

(** A logging call under a threshold: the record is added if its level is
    enabled. *)
Definition add_record (threshold l : level) (msg : string) (w : World) : World :=
  if enabled threshold l then add_log l msg w else w.
Arguments add_record : simpl never.

(** ** The state-and-exception monad *)

Definition M (A : Type) : Type := World -> World * outcome A.

Definition ret {A} (a : A) : M A := fun w => (w, Return a).
Definition raise {A} (e : exn) : M A := fun w => (w, Raise e).
Definition bind {A B} (c : M A) (k : A -> M B) : M B :=
  fun w =>
    match c w with
    | (w', Return a) => k a w'
    | (w', Raise e) => (w', Raise e)
    end.

(** [try: c except Exception as e: h e] *)
Definition try_except_Exception {A} (c : M A) (h : exn -> M A) : M A :=
  fun w =>
    match c w with
    | (w', Raise e) => if is_Exception (exn_cls e) then h e w' else (w', Raise e)
    | r => r
    end.

Declare Scope py_scope.
Delimit Scope py_scope with py.
Notation "x <- c ;; k" := (bind c (fun x => k))
  (at level 100, c at next level, right associativity) : py_scope.
Notation "c ;; k" := (bind c (fun _ => k))
  (at level 100, right associativity) : py_scope.
Local Open Scope py_scope.

Definition emit (e : event) : M unit := fun w => (add_event e w, Return tt).
Definition lift_outcome {A} (o : outcome A) : M A := fun w => (w, o).
Definition read_fs {A} (f : gmap string node -> A) : M A :=
  fun w => (w, Return (f (fs w))).

(** [p.exists()] and [p.is_file()] *)
Definition fs_exists (f : gmap string node) (p : Path) : bool :=
  match f !! Pathlib.str p with Some _ => true | None => false end.

Definition fs_is_file (f : gmap string node) (p : Path) : bool :=
  match f !! Pathlib.str p with Some (RegularFile _) => true | _ => false end.

Definition path_exists (p : Path) : M bool :=
  emit (EvExists (Pathlib.str p)) ;; read_fs (fun f => fs_exists f p).

Definition path_is_file (p : Path) : M bool :=
  emit (EvIsFile (Pathlib.str p)) ;; read_fs (fun f => fs_is_file f p).

(** [p.open("w")]: the file is created or truncated at once; a directory
    cannot be opened for writing. *)
Definition path_open_w (p : Path) : M unit :=
  emit (EvOpenW (Pathlib.str p)) ;;
  fun w =>
    match fs w !! Pathlib.str p with
    | Some Directory => (w, Raise (Exn IsADirectoryError (Pathlib.str p)))
    | _ => (set_fs (<[Pathlib.str p := RegularFile ""]> (fs w)) w, Return tt)
    end.

(** [f.write(chunk)] on the file opened at [p]. *)
Definition file_append (p : Path) (chunk : string) : M unit :=
  fun w =>
    match fs w !! Pathlib.str p with
    | Some (RegularFile old) =>
        (set_fs (<[Pathlib.str p := RegularFile (old ++ chunk)]> (fs w)) w, Return tt)
    | _ => (w, Return tt)
    end.

(** ** Collaborators

    The classes the driver imports from the rest of the package
    ([Tshark], [NetworkTrafficDump], [Stacktrace], [ContentDecryption]) are
    taken as an interface.  Every call may raise.  Loading, parsing and the
    constructors of the two enrichment classes read the file system; of the
    collaborators only [save_har] writes it.  The interface also carries
    the state of the [logging] module as the process has set it up, which
    the driver reads and never changes. *)

Record Collaborators := mkCollaborators {
  Packets : Type;
  Traffic : Type;
  (** [Tshark(path)], [Tshark()] *)
  Tshark_init : option string -> outcome Tshark;
  (** [tshark.load_traffic(input_file)] *)
  load_traffic : Tshark -> Path -> gmap string node -> outcome Packets;
  (** [NetworkTrafficDump(packets)] *)
  NetworkTrafficDump : Packets -> outcome Traffic;
  (** [traffic.parse_traffic()] *)
  parse_traffic : Traffic -> outcome Traffic;
  (** [traffic.save_har(output_file, overwrite=..., **kws)] *)
  save_har : Traffic -> Path -> bool -> kwargs -> gmap string node ->
             gmap string node * outcome unit;
  (** [traffic.to_har()] *)
  to_har : Traffic -> outcome HarDocument;
  (** [Stacktrace(har_data, file)] loads the socket-operation feed. *)
  Stacktrace_init : HarDocument -> Path -> gmap string node ->
                    outcome (list SocketOperationRecord);
  (** [se.enrich()] *)
  Stacktrace_enrich : list SocketOperationRecord -> HarDocument -> outcome HarDocument;
  (** [ContentDecryption(har_data, file)] loads the cryptography feed. *)
  ContentDecryption_init : HarDocument -> Path -> gmap string node ->
                           outcome (list CryptoOperationRecord);
  (** [de.enrich()] *)
  ContentDecryption_enrich : list CryptoOperationRecord -> HarDocument -> outcome HarDocument;
  (** The encoder behind [json.dump]: the text it produces before it
      finishes or fails. *)
  json_encode : HarDocument -> kwargs -> string * option exn;
  (** [logging.getLogger("pcapng_to_har").getEffectiveLevel()]: WARNING
      in a process that never configured logging, as [cli] leaves it. *)
  logging_level : level
}.

(** ** json.dump *)

(** The keyword parameters [json.dump] declares itself. *)
Definition json_dump_params : list string :=
  ["skipkeys"; "ensure_ascii"; "check_circular"; "allow_nan"; "cls";
   "indent"; "separators"; "default"; "sort_keys"].

Definition json_known (k : string) : bool :=
  existsb (String.eqb k) json_dump_params.

Definition cls_is_None (kws : kwargs) : bool :=
  match kw_get "cls" kws with
  | None | Some PNone => true
  | Some _ => false
  end.

(** The first keyword of a call, in call order, that a test picks out: the
    one a [TypeError] of the call names. *)
Definition first_keyword (test : string -> bool) (kws : kwargs) : string :=
  match List.find (fun kv => test (fst kv)) kws with
  | Some (k, _) => k
  | None => ""
  end.

(** The two ways [json.dump] turns its keywords down: a keyword that names
    one of its positional parameters, and a keyword that neither [json.dump]
    nor [JSONEncoder] declares. *)
Definition dump_multiple_values (kws : kwargs) : exn :=
  Exn TypeError
    ("dump() got multiple values for argument '"
     ++ first_keyword (fun k => String.eqb k "obj" || String.eqb k "fp") kws ++ "'").

Definition encoder_unexpected_keyword (kws : kwargs) : exn :=
  Exn TypeError
    ("JSONEncoder.__init__() got an unexpected keyword argument '"
     ++ first_keyword (fun k => negb (json_known k)) kws ++ "'").

(** ** The driver *)

Section Driver.

Variable C : Collaborators.

(** [logger.info(msg)], [logger.error(msg)] on the logger of line 85: the
    record is made only if its level is enabled. *)
Definition logger (l : level) (msg : string) : M unit :=
  fun w => (add_record (logging_level C) l msg w, Return tt).

(** [json.dump(obj, fp, **kws)] with [fp] the file opened at [p].  Keywords
    that [json.dump] does not declare go to the encoder class; the default
    [JSONEncoder] rejects them with a [TypeError] before anything is
    written. *)
Definition json_dump (d : HarDocument) (p : Path) (kws : kwargs) : M unit :=
  emit (EvJsonDump d kws) ;;
  if kw_mem "obj" kws || kw_mem "fp" kws
  then raise (dump_multiple_values kws)
  else if forallb (fun kv => json_known (fst kv)) kws || negb (cls_is_None kws) then
    let '(chunks, failure) := json_encode C d kws in
    file_append p chunks ;;
    match failure with
    | Some e => raise e
    | None => ret tt
    end
  else raise (encoder_unexpected_keyword kws).

(** [Path(x) if x else None] *)
Definition optional_path (x : option string) : option Path :=
  match x with
  | Some s => if String.eqb s "" then None else Some (Pathlib.of_string s)
  | None => None
  end.

(** The stack trace stage, lines 110-118: returns the flag [enriched] and
    the document. *)
Definition stacktrace_stage (socket_operations_file : option string)
    (enriched : bool) (har_data : HarDocument) : M (bool * HarDocument) :=
  let socket_operations_file := optional_path socket_operations_file in
  is_file <- match socket_operations_file with
             | Some p => path_is_file p
             | None => ret false
             end ;;
  match socket_operations_file, is_file with
  | Some p, true =>
      let enriched := true in
      emit (EvStacktrace (Pathlib.str p)) ;;
      se <- read_fs (Stacktrace_init C har_data p) ;;
      se <- lift_outcome se ;;
      emit EvStacktraceEnrich ;;
      har_data <- lift_outcome (Stacktrace_enrich C se har_data) ;;
      logger INFO ("The HAR has been enriched with stacktrace data from " ++ Pathlib.str p) ;;
      ret (enriched, har_data)
  | _, _ =>
      logger ERROR "Invalid stacktrace data input file, skip enrichment" ;;
      ret (enriched, har_data)
  end.

(** The content decryption stage, lines 120-128. *)
Definition decryption_stage (cryptography_operations_file : option string)
    (enriched : bool) (har_data : HarDocument) : M (bool * HarDocument) :=
  let cryptography_operations_file := optional_path cryptography_operations_file in
  is_file <- match cryptography_operations_file with
             | Some p => path_is_file p
             | None => ret false
             end ;;
  match cryptography_operations_file, is_file with
  | Some p, true =>
      let enriched := true in
      emit (EvContentDecryption (Pathlib.str p)) ;;
      de <- read_fs (ContentDecryption_init C har_data p) ;;
      de <- lift_outcome de ;;
      emit EvContentDecryptionEnrich ;;
      har_data <- lift_outcome (ContentDecryption_enrich C de har_data) ;;
      logger INFO ("The HAR has been enriched with decrypted content from " ++ Pathlib.str p) ;;
      ret (enriched, har_data)
  | _, _ =>
      logger ERROR "Invalid decryption data input file, skip enrichment" ;;
      ret (enriched, har_data)
  end.

(** Lines 86-90: the output path. *)
Definition resolve_output (input_file : Path) (output_file : option string) : M Path :=
  match output_file with
  | None =>
      match Pathlib.with_suffix input_file ".har" with
      | Some p => ret p
      | None => raise (Exn ValueError (Pathlib.str input_file ++ " has an empty name"))
      end
  | Some o => ret (Pathlib.of_string o)
  end.

(** Lines 100-101: the traffic loaded from the capture and parsed, as a
    function of the file system it is read from. *)
Definition load_and_parse (tshark : Tshark) (input_file : Path)
    (f : gmap string node) : outcome (Traffic C) :=
  match load_traffic C tshark input_file f with
  | Return packets =>
      match NetworkTrafficDump C packets with
      | Return traffic => parse_traffic C traffic
      | Raise e => Raise e
      end
  | Raise e => Raise e
  end.

(** Line 104: [traffic.save_har(output_file, overwrite=overwrite, **kws)] *)
Definition call_save_har (traffic : Traffic C) (output_file : Path)
    (overwrite : bool) (json_dump_kws : kwargs) : M unit :=
  emit (EvSaveHar (Pathlib.str output_file) overwrite json_dump_kws) ;;
  fun w =>
    let '(f, r) := save_har C traffic output_file overwrite json_dump_kws (fs w) in
    (set_fs f w, r).

(** Lines 92-104: the checks on the output path, then load, parse and
    save.  Returns the output path and the parsed traffic. *)
Definition checked_conversion (input_file output_file : Path)
    (tshark : option Tshark) (overwrite : bool) (json_dump_kws : kwargs)
    : M (Path * Traffic C) :=
  if Pathlib.eqb output_file input_file
  then raise (Exn AssertionError (Pathlib.str input_file))
  else
    there <- path_exists output_file ;;
    if there && negb overwrite
    then raise (Exn FileExistsError (Pathlib.str output_file))
    else
      tshark <- match tshark with
                | None => emit (EvTshark None) ;; lift_outcome (Tshark_init C None)
                | Some t => ret t
                end ;;
      emit (EvLoadTraffic (Pathlib.str input_file)) ;;
      traffic <- read_fs (load_and_parse tshark input_file) ;;
      traffic <- lift_outcome traffic ;;
      call_save_har traffic output_file overwrite json_dump_kws ;;
      ret (output_file, traffic).

(** Lines 86-104: everything up to and including the first save. *)
Definition base_conversion (input_file : string) (output_file : option string)
    (tshark : option Tshark) (overwrite : bool) (json_dump_kws : kwargs)
    : M (Path * Traffic C) :=
  let input_file := Pathlib.of_string input_file in
  output_file <- resolve_output input_file output_file ;;
  checked_conversion input_file output_file tshark overwrite json_dump_kws.

(** Lines 131-133: the second serialization, into the output file itself. *)
Definition save_enriched (enriched : bool) (har_data : HarDocument)
    (output_file : Path) (json_dump_kws : kwargs) : M unit :=
  if enriched then
    path_open_w output_file ;;
    json_dump har_data output_file json_dump_kws
  else ret tt.

(** Lines 106-135: enrichment and the second serialization. *)
Definition enrich_and_save (traffic : Traffic C) (output_file : Path)
    (socket_operations_file cryptography_operations_file : option string)
    (json_dump_kws : kwargs) : M unit :=
  har_data <- lift_outcome (to_har C traffic) ;;
  let enriched := false in
  r <- stacktrace_stage socket_operations_file enriched har_data ;;
  r <- decryption_stage cryptography_operations_file (fst r) (snd r) ;;
  save_enriched (fst r) (snd r) output_file json_dump_kws ;;
  logger INFO ("The HAR has been saved in " ++ Pathlib.str output_file).

(** [pcapng_to_har], lines 74-135; the parameters after [output_file] are
    keyword-only and [json_dump_kws] collects the undeclared keywords. *)
Definition pcapng_to_har (input_file : string) (output_file : option string)
    (tshark : option Tshark)
    (socket_operations_file cryptography_operations_file : option string)
    (overwrite : bool) (json_dump_kws : kwargs) : M unit :=
  r <- base_conversion input_file output_file tshark overwrite json_dump_kws ;;
  enrich_and_save (snd r) (fst r)
    socket_operations_file cryptography_operations_file json_dump_kws.

(** *** Calling the driver with keyword arguments *)

(** The parameters of [pcapng_to_har] that a keyword can bind; any other
    keyword is collected by [**json_dump_kws]. *)
Definition positional_params : list string := ["input_file"; "output_file"].
Definition keyword_only_params : list string :=
  ["tshark"; "socket_operations_file"; "cryptography_operations_file"; "overwrite"].

Definition is_param (k : string) : bool :=
  existsb (String.eqb k) (positional_params ++ keyword_only_params)%list.

(** The keywords of a call form a mapping: a keyword given twice is turned
    down where the call is made. *)
Fixpoint duplicate_keyword (kws : kwargs) (seen : list string) : option string :=
  match kws with
  | [] => None
  | (k, _) :: rest =>
      if existsb (String.eqb k) seen then Some k
      else duplicate_keyword rest (k :: seen)
  end.

(** The positional arguments fill the positional parameters from the left;
    the arguments left over are counted. *)
Fixpoint bind_positional (names : list string) (vals : list pyval) : kwargs * nat :=
  match vals, names with
  | [], _ => ([], 0)
  | _ :: _, [] => ([], length vals)
  | v :: vals', n :: names' =>
      let '(b, excess) := bind_positional names' vals' in ((n, v) :: b, excess)
  end.

(** Sorts the keywords of a call into bound parameters and the extra ones,
    keeping the order of the call. *)
Fixpoint bind_keywords (kws named extra : kwargs) : outcome (kwargs * kwargs) :=
  match kws with
  | [] => Return (named, extra)
  | (k, v) :: rest =>
      if is_param k then
        if kw_mem k named
        then Raise (Exn TypeError
                      ("pcapng_to_har() got multiple values for argument '" ++ k ++ "'"))
        else bind_keywords rest (named ++ [(k, v)])%list extra
      else bind_keywords rest named (extra ++ [(k, v)])%list
  end.

Definition keyword_only_given (named : kwargs) : nat :=
  length (List.filter (fun kv => existsb (String.eqb (fst kv)) keyword_only_params) named).

Definition too_many_positional (given : nat) (named : kwargs) : exn :=
  let k := keyword_only_given named in
  Exn TypeError
    ("pcapng_to_har() takes from 1 to 2 positional arguments but "
     ++ pretty given
     ++ (if (0 <? k)%nat
         then " positional arguments (and " ++ pretty k ++ " keyword-only argument"
              ++ (if (k =? 1)%nat then "" else "s") ++ ")"
         else "")
     ++ " were given").

(** How a call binds its arguments: the bound parameters and
    [json_dump_kws].  The errors come in the order of the interpreter: a
    keyword that names a parameter already filled, then too many positional
    arguments, then the missing [input_file]. *)
Definition bind_arguments (positional : list pyval) (keywords : kwargs)
    : outcome (kwargs * kwargs) :=
  match duplicate_keyword keywords [] with
  | Some k =>
      Raise (Exn TypeError
               ("pcapng_to_har() got multiple values for keyword argument '" ++ k ++ "'"))
  | None =>
      let '(pos, excess) := bind_positional positional_params positional in
      match bind_keywords keywords pos [] with
      | Raise e => Raise e
      | Return (named, json_dump_kws) =>
          if (0 <? excess)%nat
          then Raise (too_many_positional (length positional) named)
          else if kw_mem "input_file" named then Return (named, json_dump_kws)
          else Raise (Exn TypeError
                        "pcapng_to_har() missing 1 required positional argument: 'input_file'")
      end
  end.

Definition with_default (k : string) (named : kwargs) (d : pyval) : pyval :=
  match kw_get k named with Some v => v | None => d end.

(** Python does not check the annotations of the signature: a value of
    another type goes as far as the first line that cannot use it.  Of the
    values at hand, an instance of [Tshark] is taken to be true and not to
    be a path, as an object is that defines neither [__bool__] nor
    [__fspath__]. *)

(** [bool(v)] *)
Definition truthy (v : pyval) : bool :=
  match v with
  | PNone => false
  | PBool b => b
  | PStr s => negb (String.eqb s "")
  | PTshark _ => true
  end.

Definition type_name (v : pyval) : string :=
  match v with
  | PNone => "NoneType"
  | PBool _ => "bool"
  | PStr _ => "str"
  | PTshark _ => "Tshark"
  end.

(** [Path(v)] *)
Definition Path_arg (v : pyval) : outcome string :=
  match v with
  | PStr s => Return s
  | _ => Raise (Exn TypeError
                  ("expected str, bytes or os.PathLike object, not " ++ type_name v))
  end.

(** Lines 87-90: [None], or [Path(output_file)]. *)
Definition output_arg (v : pyval) : outcome (option string) :=
  match v with
  | PNone => Return None
  | _ => match Path_arg v with
         | Return s => Return (Some s)
         | Raise e => Raise e
         end
  end.

(** Lines 96-100: [None] stands for the default instance; any other value
    must have the method [load_traffic]. *)
Definition tshark_arg (v : pyval) : outcome (option Tshark) :=
  match v with
  | PNone => Return None
  | PTshark t => Return (Some t)
  | _ => Raise (Exn (OtherException "AttributeError")
                  ("'" ++ type_name v ++ "' object has no attribute 'load_traffic'"))
  end.

(** Lines 110 and 121: [Path(x) if x else None]. *)
Definition feed_arg (v : pyval) : outcome (option string) :=
  match v with
  | PStr s => Return (Some s)
  | _ => if truthy v then
           match Path_arg v with
           | Return s => Return (Some s)
           | Raise e => Raise e
           end
         else Return None
  end.

(** Lines 92-94 on their own: the checks on the output path. *)
Definition output_checks (input_file output_file : Path) (overwrite : bool) : M unit :=
  if Pathlib.eqb output_file input_file
  then raise (Exn AssertionError (Pathlib.str input_file))
  else
    there <- path_exists output_file ;;
    if there && negb overwrite
    then raise (Exn FileExistsError (Pathlib.str output_file))
    else ret tt.

(** A call of [pcapng_to_har] with positional and keyword arguments.  With
    every value of the type its annotation names, this is the driver.  A
    value that is not a path stops the call where [Path] is applied to it:
    at once for the input and the output, after the first save for the
    socket-operation feed, after the stack trace stage for the cryptography
    feed; a value that is no instance of [Tshark] stops it where
    [load_traffic] is looked up, after the checks on the output path.  Of
    [overwrite] the driver uses the truth value, and that is what
    [save_har] is handed here. *)
Definition call_pcapng_to_har (positional : list pyval) (keywords : kwargs) : M unit :=
  b <- lift_outcome (bind_arguments positional keywords) ;;
  let '(named, json_dump_kws) := b in
  input_file <- lift_outcome (Path_arg (with_default "input_file" named PNone)) ;;
  output_file <- lift_outcome (output_arg (with_default "output_file" named PNone)) ;;
  let overwrite := truthy (with_default "overwrite" named (PBool false)) in
  match tshark_arg (with_default "tshark" named PNone) with
  | Raise e =>
      output_path <- resolve_output (Pathlib.of_string input_file) output_file ;;
      output_checks (Pathlib.of_string input_file) output_path overwrite ;;
      raise e
  | Return tshark =>
      match feed_arg (with_default "socket_operations_file" named PNone) with
      | Raise e =>
          r <- base_conversion input_file output_file tshark overwrite json_dump_kws ;;
          lift_outcome (to_har C (snd r)) ;;
          raise e
      | Return socket_operations_file =>
          match feed_arg (with_default "cryptography_operations_file" named PNone) with
          | Raise e =>
              r <- base_conversion input_file output_file tshark overwrite json_dump_kws ;;
              har_data <- lift_outcome (to_har C (snd r)) ;;
              stacktrace_stage socket_operations_file false har_data ;;
              raise e
          | Return cryptography_operations_file =>
              pcapng_to_har input_file output_file tshark
                socket_operations_file cryptography_operations_file
                overwrite json_dump_kws
          end
      end
  end.

(** *** The command line entry point *)

(** The namespace [parser.parse_args()] returns. *)
Record Namespace := mkNamespace {
  ns_i : string;
  ns_o : option string;
  ns_force : bool;
  ns_tshark : string;
  ns_socket_operations_file : option string;
  ns_cryptography_operations_file : option string
}.

Definition of_opt_str (x : option string) : pyval :=
  match x with Some s => PStr s | None => PNone end.

(** The call of lines 62-69, with its keywords as written. *)
Definition cli_call (args : Namespace) : M unit :=
  emit (EvTshark (Some (ns_tshark args))) ;;
  t <- lift_outcome (Tshark_init C (Some (ns_tshark args))) ;;
  call_pcapng_to_har
    [PStr (ns_i args); of_opt_str (ns_o args)]
    [("tshark", PTshark t);
     ("overwrite", PBool (ns_force args));
     ("socket_operations_file", of_opt_str (ns_socket_operations_file args));
     ("cryptographic_operations_file", of_opt_str (ns_cryptography_operations_file args))].

(** [cli()], lines 60-71, after the arguments are parsed. *)
Definition cli (args : Namespace) : M unit :=
  try_except_Exception (cli_call args)
    (fun e => raise (ExnFrom RuntimeError (ns_i args) e)).

End Driver.

(** ** Observations on a run *)

(** The feed file of an enrichment pass, when there is one to read: the
    argument is given, not empty, and names a regular file. *)
Definition feed_file (f : gmap string node) (x : option string) : option Path :=
  match x with
  | Some s =>
      if String.eqb s "" then None
      else if fs_is_file f (Pathlib.of_string s) then Some (Pathlib.of_string s)
      else None
  | None => None
  end.

(** Calls that write the output. *)
Definition is_write_event (ev : event) : bool :=
  match ev with
  | EvSaveHar _ _ _ | EvOpenW _ | EvJsonDump _ _ => true
  | _ => false
  end.

Definition is_save_har_event (ev : event) : bool :=
  match ev with
  | EvSaveHar _ _ _ => true
  | _ => false
  end.

(** Calls into the two enrichment classes. *)
Definition is_stacktrace_event (ev : event) : bool :=
  match ev with
  | EvStacktrace _ | EvStacktraceEnrich => true
  | _ => false
  end.

Definition is_decryption_event (ev : event) : bool :=
  match ev with
  | EvContentDecryption _ | EvContentDecryptionEnrich => true
  | _ => false
  end.

Definition is_enrichment_event (ev : event) : bool :=
  is_stacktrace_event ev || is_decryption_event ev.

(** The events of each stage. *)
Definition stacktrace_stage_event (ev : event) : bool :=
  match ev with
  | EvIsFile _ => true
  | _ => is_stacktrace_event ev
  end.

Definition decryption_stage_event (ev : event) : bool :=
  match ev with
  | EvIsFile _ => true
  | _ => is_decryption_event ev
  end.

(** The keywords with which a serialization call was made. *)
Definition serialization_kws (ev : event) : option kwargs :=
  match ev with
  | EvSaveHar _ _ kws | EvJsonDump _ kws => Some kws
  | _ => None
  end.

(** The tshark instance the driver works with: the one it is given, or the
    default one. *)
Definition tshark_used (C : Collaborators) (tshark : option Tshark) (t : Tshark) : Prop :=
  tshark = Some t \/ (tshark = None /\ Tshark_init C None = Return t).

(** The keyword under which [cli] passes the cryptography feed, with its
    value. *)
Definition stray_keyword (args : Namespace) : kwargs :=
  [("cryptographic_operations_file", of_opt_str (ns_cryptography_operations_file args))].

(** The output path the driver settles on, if any. *)
Definition output_path (input_file : string) (output_file : option string) : option Path :=
  match output_file with
  | None => Pathlib.with_suffix (Pathlib.of_string input_file) ".har"
  | Some o => Some (Pathlib.of_string o)
  end.

(** The message of line 135. *)
Definition saved_message (out : Path) : string :=
  "The HAR has been saved in " ++ Pathlib.str out.

(** How the stack trace stage can end, started in world [w] with flag [en]
    and document [d]: it skipped (flag and document pass through, one ERROR
    record is logged), or the pass ran and returned, or the pass raised. *)
Definition stacktrace_stage_post (C : Collaborators) (sf : option string)
    (en : bool) (d : HarDocument) (w w2 : World) (new : list event)
    (o : outcome (bool * HarDocument)) : Prop :=
  match o with
  | Return r =>
      (feed_file (fs w) sf = None /\ r = (en, d)
       /\ Forall (fun ev => is_stacktrace_event ev = false) new
       /\ log w2 = (log w ++ [(ERROR, "Invalid stacktrace data input file, skip enrichment")])%list)
      \/ (exists p feed,
            feed_file (fs w) sf = Some p /\ fst r = true
            /\ Stacktrace_init C d p (fs w) = Return feed
            /\ Stacktrace_enrich C feed d = Return (snd r)
            /\ In EvStacktraceEnrich new)
  | Raise e => exists p, feed_file (fs w) sf = Some p
  end.

Definition decryption_stage_post (C : Collaborators) (cf : option string)
    (en : bool) (d : HarDocument) (w w2 : World) (new : list event)
    (o : outcome (bool * HarDocument)) : Prop :=
  match o with
  | Return r =>
      (feed_file (fs w) cf = None /\ r = (en, d)
       /\ Forall (fun ev => is_decryption_event ev = false) new
       /\ log w2 = (log w ++ [(ERROR, "Invalid decryption data input file, skip enrichment")])%list)
      \/ (exists p feed,
            feed_file (fs w) cf = Some p /\ fst r = true
            /\ ContentDecryption_init C d p (fs w) = Return feed
            /\ ContentDecryption_enrich C feed d = Return (snd r)
            /\ In EvContentDecryptionEnrich new)
  | Raise e => exists p, feed_file (fs w) cf = Some p
  end.

(** The document handed to the second serialization, in terms of the
    unenriched one: each pass either was skipped or returned its result. *)
Definition dumped_document (C : Collaborators) (traffic : Traffic C)
    (sf cf : option string) (f : gmap string node) (d : HarDocument) : Prop :=
  exists har d1,
    to_har C traffic = Return har
    /\ ((feed_file f sf = None /\ d1 = har)
        \/ (exists p feed, feed_file f sf = Some p
                           /\ Stacktrace_init C har p f = Return feed
                           /\ Stacktrace_enrich C feed har = Return d1))
    /\ ((feed_file f cf = None /\ d = d1)
        \/ (exists p feed, feed_file f cf = Some p
                           /\ ContentDecryption_init C d1 p f = Return feed
                           /\ ContentDecryption_enrich C feed d1 = Return d)).

(** What [json.dump] writes and how it ends, as a function of its
    arguments. *)
Definition dump_outcome (C : Collaborators) (d : HarDocument) (kws : kwargs)
    : string * option exn :=
  if kw_mem "obj" kws || kw_mem "fp" kws
  then ("", Some (dump_multiple_values kws))
  else if forallb (fun kv => json_known (fst kv)) kws || negb (cls_is_None kws)
  then json_encode C d kws
  else ("", Some (encoder_unexpected_keyword kws)).

Definition outcome_of_failure (failure : option exn) : outcome unit :=
  match failure with
  | Some e => Raise e
  | None => Return tt
  end.

(** ** The enrichment passes

    The classes [Stacktrace] and [ContentDecryption]
    ([pcapng_utils.har.pirogue_enrichment]) are not part of the source at
    hand; the two passes below follow sections 4.4 and 4.5 of the
    specification.  The width of the time window, the identifier of the
    socket or session of a socket operation, the content hash, the MIME
    type given to recovered plaintext, and which of the two sources of a
    handle is tried first are left open by the specification and are
    parameters here. *)

Module Enrichment.
Section Passes.

Variable window : Z.
Variable session_of : SocketOperationRecord -> string.
Variable content_hash : string -> string.
Variable plaintext_mimeType : string -> string.
Variable prefer_session : bool.

Definition endpoint_key (e : Endpoint) : string * N := (address e, port e).

(** The lookup index of socket operations, keyed by remote endpoint;
    records of one endpoint stay in feed order. *)
Definition socket_index (feed : list SocketOperationRecord)
    : gmap (string * N) (list SocketOperationRecord) :=
  fold_left
    (fun m r =>
       let k := endpoint_key (so_remote r) in
       <[k := (default [] (m !! k) ++ [r])%list]> m)
    feed ∅.

(** A record is a candidate when it precedes the start of the entry by no
    more than the window. *)
Definition in_window (start : Z) (r : SocketOperationRecord) : bool :=
  ((so_timestamp r <=? start) && (start - so_timestamp r <=? window))%Z.

(** [better r best]: [r] is closer to the start than [best], or equally
    close with a smaller process id. *)
Definition better (r best : SocketOperationRecord) : bool :=
  (so_timestamp best <? so_timestamp r)%Z
  || ((so_timestamp best =? so_timestamp r)%Z && (pid r <? pid best)%N).

Fixpoint select (cands : list SocketOperationRecord) (best : option SocketOperationRecord)
    : option SocketOperationRecord :=
  match cands with
  | [] => best
  | r :: rest =>
      match best with
      | None => select rest (Some r)
      | Some b => select rest (Some (if better r b then r else b))
      end
  end.

Definition responsible (idx : gmap (string * N) (list SocketOperationRecord))
    (e : HarEntry) : option SocketOperationRecord :=
  let cands := default [] (idx !! endpoint_key (remote e)) in
  select (filter (fun r => in_window (startedDateTime e) r = true) cands) None.

(** Modelled from the spec: what the stack trace pass attaches to a
    matched entry, sections 4.4 and 4.5: the call stack of the socket
    operation and the identifier of its socket. *)
Definition attach (r : SocketOperationRecord) (x : Extension) : Extension :=
  mkExtension (Some (frames r)) (Some (session_of r))
    (request_decrypted x) (response_decrypted x).

(** Modelled from the spec: [Stacktrace.enrich] on one entry, which is not
    part of the source at hand.  Section 4.4: the entry is joined with the
    socket operation on its remote endpoint that most closely precedes its
    start within the window; a matched entry gets the call stack in its
    extension area, together with the socket/session identifier that
    section 4.5 speaks of; an unmatched entry is left as it is. *)
Definition stacktrace_entry (idx : gmap (string * N) (list SocketOperationRecord))
    (e : HarEntry) : HarEntry :=
  match responsible idx e with
  | Some r =>
      mkHarEntry (startedDateTime e) (time e) (remote e) (request e) (response e)
        (incomplete e) (attach r (extension e))
  | None => e
  end.

(** Modelled from the spec: [Stacktrace.enrich], which is not part of the
    source at hand.  Section 4.4: every entry is enriched against the index
    built from the feed; the order of the entries is kept. *)
Definition stacktrace_enrich (feed : list SocketOperationRecord) (d : HarDocument)
    : HarDocument :=
  mkHarDocument (version d) (creator d) (map (stacktrace_entry (socket_index feed)) (entries d)).

(** The lookup index of cryptographic operations, keyed by handle and
    direction; a later record of the feed replaces an earlier one. *)
Definition is_request (d : Direction) : bool :=
  match d with OfRequest => true | OfResponse => false end.

Definition crypto_index (feed : list CryptoOperationRecord)
    : gmap (string * bool) CryptoOperationRecord :=
  fold_left (fun m r => <[(handle r, is_request (direction r)) := r]> m) feed ∅.

(** Modelled from the spec: the handles of a stored body, section 4.5,
    "from data already present on the entry": the socket/session
    identifier that a prior stack trace enrichment attached, when there is
    one, and the content hash of the stored ciphertext, in the order of
    preference. *)
Definition handles (x : Extension) (c : Content) : list string :=
  match session x with
  | Some h =>
      if prefer_session then [h; content_hash (text c)] else [content_hash (text c); h]
  | None => [content_hash (text c)]
  end.

(** Modelled from the spec: the lookup of section 4.5, by handle and
    direction; the record is that of the first handle that has one. *)
Fixpoint first_record (idx : gmap (string * bool) CryptoOperationRecord)
    (request_side : bool) (hs : list string) : option CryptoOperationRecord :=
  match hs with
  | [] => None
  | h :: rest =>
      match idx !! (h, request_side) with
      | Some r => Some r
      | None => first_record idx request_side rest
      end
  end.

(** The recovered plaintext takes the place of the stored body. *)
Definition decrypted_content (r : CryptoOperationRecord) : Content :=
  mkContent (N.of_nat (String.length (plaintext r)))
            (plaintext_mimeType (plaintext r)) (plaintext r) None.

Definition lookup_crypto (idx : gmap (string * bool) CryptoOperationRecord)
    (d : Direction) (x : Extension) (c : Content) : option CryptoOperationRecord :=
  first_record idx (is_request d) (handles x c).

Definition decrypt_request (idx : gmap (string * bool) CryptoOperationRecord)
    (x : Extension) (q : Request) : Request * bool :=
  match postData q with
  | Some c =>
      match lookup_crypto idx OfRequest x c with
      | Some r =>
          (mkRequest (method q) (url q) (req_httpVersion q) (req_headers q)
             (queryString q) (Some (decrypted_content r)), true)
      | None => (q, false)
      end
  | None => (q, false)
  end.

Definition decrypt_response (idx : gmap (string * bool) CryptoOperationRecord)
    (x : Extension) (p : Response) : Response * bool :=
  match lookup_crypto idx OfResponse x (content p) with
  | Some r =>
      (mkResponse (status p) (statusText p) (resp_headers p) (decrypted_content r), true)
  | None => (p, false)
  end.

(** Modelled from the spec: [ContentDecryption.enrich] on one entry, which
    is not part of the source at hand.  Section 4.5: request and response
    are handled independently; a body for which a handle has a record for
    its direction is replaced by the plaintext and marked as decrypted in
    the extension area; without a match the body is left as projected. *)
Definition decryption_entry (idx : gmap (string * bool) CryptoOperationRecord)
    (e : HarEntry) : HarEntry :=
  let '(q, dq) := decrypt_request idx (extension e) (request e) in
  let '(p, dp) :=
    match response e with
    | Some p => let '(p', b) := decrypt_response idx (extension e) p in (Some p', b)
    | None => (None, false)
    end in
  mkHarEntry (startedDateTime e) (time e) (remote e) q p (incomplete e)
    (mkExtension (call_stack (extension e)) (session (extension e))
       (request_decrypted (extension e) || dq)
       (response_decrypted (extension e) || dp)).

(** Modelled from the spec: [ContentDecryption.enrich], which is not part
    of the source at hand.  Section 4.5: every entry is enriched against
    the index built from the feed. *)
Definition decryption_enrich (feed : list CryptoOperationRecord) (d : HarDocument)
    : HarDocument :=
  mkHarDocument (version d) (creator d) (map (decryption_entry (crypto_index feed)) (entries d)).

(** No identifier in this extension area is the handle of a record. *)
Definition session_unused (idx : gmap (string * bool) CryptoOperationRecord)
    (x : Extension) : Prop :=
  forall h request_side, session x = Some h -> idx !! (h, request_side) = None.

End Passes.
End Enrichment.

(** ** A concrete set of collaborators

    Small executable stand-ins for the collaborators, used to run the driver
    on concrete inputs: the capture file "parses" to a fixed document, the
    feeds are fixed lists, and the enrichment passes are the ones of
    [Enrichment]. *)

Module Fixture.

Definition render_entry (e : HarEntry) : string :=
  url (request e) ++ " "
  ++ match response e with
     | Some r => text (content r)
     | None => "-"
     end
  ++ match call_stack (extension e) with
     | Some _ => " +stack"
     | None => ""
     end
  ++ ";".

Definition render (d : HarDocument) : string :=
  fold_right (fun e acc => render_entry e ++ acc) "" (entries d).

(** The identifier of the socket of a socket operation. *)
Definition session_of (r : SocketOperationRecord) : string :=
  "socket-" ++ pretty (pid r) ++ "-" ++ pretty (fd r).

Definition stacktrace_pass : list SocketOperationRecord -> HarDocument -> HarDocument :=
  Enrichment.stacktrace_enrich 10 session_of.

Definition decryption_pass (prefer_session : bool)
    : list CryptoOperationRecord -> HarDocument -> HarDocument :=
  Enrichment.decryption_enrich (fun s => s) (fun _ => "text/plain") prefer_session.

Record Scenario := mkScenario {
  document : HarDocument;
  socket_feed : list SocketOperationRecord;
  crypto_feed : list CryptoOperationRecord;
  (** what tshark raises, if it fails *)
  tshark_failure : option exn;
  encoder : HarDocument -> kwargs -> string * option exn;
  (** the effective level of the logger *)
  verbosity : level
}.

Definition collaborators (sc : Scenario) : Collaborators :=
  {| Packets := string;
     Traffic := HarDocument;
     Tshark_init := fun x => Return (mkTshark x);
     load_traffic := fun _ p f =>
       match tshark_failure sc with
       | Some e => Raise e
       | None =>
           match f !! Pathlib.str p with
           | Some (RegularFile data) => Return data
           | _ => Raise (Exn (OtherException "CalledProcessError") (Pathlib.str p))
           end
       end;
     NetworkTrafficDump := fun _ => Return (document sc);
     parse_traffic := fun t => Return t;
     save_har := fun t p ow _ f =>
       if fs_exists f p && negb ow
       then (f, Raise (Exn FileExistsError (Pathlib.str p)))
       else (<[Pathlib.str p := RegularFile (render t)]> f, Return tt);
     to_har := fun t => Return t;
     Stacktrace_init := fun _ _ _ => Return (socket_feed sc);
     Stacktrace_enrich := fun feed d => Return (stacktrace_pass feed d);
     ContentDecryption_init := fun _ _ _ => Return (crypto_feed sc);
     ContentDecryption_enrich := fun feed d => Return (decryption_pass true feed d);
     json_encode := encoder sc;
     logging_level := verbosity sc |}.

Definition complete_encoder (d : HarDocument) (_ : kwargs) : string * option exn :=
  (render d, None).

(** An encoder that gives up after the first four characters. *)
Definition failing_encoder (d : HarDocument) (_ : kwargs) : string * option exn :=
  (substring 0 4 (render d),
   Some (Exn TypeError "Object of type bytes is not JSON serializable")).

Definition server : Endpoint := mkEndpoint "10.0.0.1" 443.

Definition entry0 : HarEntry :=
  mkHarEntry 100 7 server
    (mkRequest "GET" "http://h/a" "HTTP/1.1" [("Host", "h")] [] None)
    (Some (mkResponse 200 "OK" [] (mkContent 4 "application/octet-stream" "c2Vj" (Some "base64"))))
    false
    (mkExtension None None false false).

Definition document0 : HarDocument := mkHarDocument "1.2" ("pcapng-utils", "1.0") [entry0].

Definition socket_op0 : SocketOperationRecord :=
  mkSocketOp 41 1 9 (mkEndpoint "192.168.0.2" 50000) server 99 [mkFrame "connect" None].

Definition crypto_op0 : CryptoOperationRecord :=
  mkCryptoOp "c2Vj" OfResponse "c2Vj" "secret".

(** A record for the same body, keyed by the socket of [socket_op0]. *)
Definition crypto_op_socket : CryptoOperationRecord :=
  mkCryptoOp "socket-41-9" OfResponse "c2Vj" "secret".

Definition scenario0 : Scenario :=
  mkScenario document0 [socket_op0] [crypto_op0] None complete_encoder WARNING.

(** The same, in a process that has set the logger to INFO. *)
Definition scenario_verbose : Scenario :=
  mkScenario document0 [socket_op0] [crypto_op0] None complete_encoder INFO.

(** The socket-operation feed exists but holds no record. *)
Definition scenario_empty_feed : Scenario :=
  mkScenario document0 [] [] None complete_encoder WARNING.

Definition scenario_failing_dump : Scenario :=
  mkScenario document0 [socket_op0] [crypto_op0] None failing_encoder WARNING.

Definition scenario_interrupted : Scenario :=
  mkScenario document0 [] [] (Some (Exn KeyboardInterrupt "")) complete_encoder WARNING.

Definition scenario_decode_error : Scenario :=
  mkScenario document0 [] []
    (Some (Exn (OtherException "CalledProcessError") "tshark")) complete_encoder WARNING.

Definition files0 : gmap string node :=
  {[ "capture.pcapng" := RegularFile "pcapng";
     "socket_trace.json" := RegularFile "[]";
     "aes_info.json" := RegularFile "[]" ]}.

Definition world0 : World := mkWorld files0 [] [].

(** A world in which the default output path is taken. *)
Definition world_conflict : World :=
  mkWorld (<["capture.har" := RegularFile "old"]> files0) [] [].

Definition args0 : Namespace :=
  mkNamespace "capture.pcapng" None false "/usr/bin/tshark"
    (Some "socket_trace.json") (Some "aes_info.json").

End Fixture.

(** ** argparse: optional arguments *)

(** The part of [argparse] (CPython 3.11) that [cli] relies on: optional
    arguments with the actions [store], [store_true] and the built-in
    [help], option strings that may be abbreviated ([allow_abbrev] is left
    at its default), and the marker [--].  The command line is taken as
    [argparse] classifies it: a list of occurrences, each an argument string
    that [argparse] does not take as the value of the one before it, with
    the argument string that follows it as its value, if there is one.  A
    value written onto its option ([-oPATH], [--tshark=PATH]) and flags
    written together ([-fo]) are not represented.  A parser error prints
    the usage and exits with status 2, the help action exits with status 0;
    both are a [SystemExit]. *)

Module Argparse.

Inductive Action := Store | StoreTrue | Help.

Record Argument := mkArgument {
  option_strings : list string;
  action : Action;
  metavar : option string;
  required : bool;
  default : pyval;
  help : string
}.

(** [s.lstrip("-")] *)
Fixpoint lstrip_dash (s : string) : string :=
  match s with
  | String c s' => if Ascii.eqb c "-" then lstrip_dash s' else s
  | EmptyString => s
  end.

(** [s.replace("-", "_")] *)
Fixpoint dash_to_underscore (s : string) : string :=
  match s with
  | String c s' => String (if Ascii.eqb c "-" then "_"%char else c) (dash_to_underscore s')
  | EmptyString => EmptyString
  end.

(** A long option string has a second prefix character. *)
Definition is_long (s : string) : bool :=
  match s with
  | String _ (String c _) => Ascii.eqb c "-"
  | _ => false
  end.

(** The attribute an argument is stored under: derived from its first long
    option string, or from its first option string when it has no long
    one. *)
Definition dest (a : Argument) : string :=
  let chosen :=
    match filter (fun o => is_long o = true) (option_strings a) with
    | o :: _ => o
    | [] => List.hd "" (option_strings a)
    end in
  dash_to_underscore (lstrip_dash chosen).

(** [add_argument] fills in the default of a [store_true] argument. *)
Definition store_true (option_strings : list string) (help : string) : Argument :=
  mkArgument option_strings StoreTrue None false (PBool false) help.

(** The argument every parser starts with. *)
Definition help_argument : Argument :=
  mkArgument ["-h"; "--help"] Help None false PNone "show this help message and exit".

(** [setattr(namespace, k, v)] *)
Fixpoint kw_set (k : string) (v : pyval) (ns : kwargs) : kwargs :=
  match ns with
  | [] => [(k, v)]
  | (k', v') :: rest =>
      if String.eqb k k' then (k, v) :: rest else (k', v') :: kw_set k v rest
  end.

(** The namespace before the command line is read: every argument but the
    help has its default. *)
Fixpoint defaults (parser : list Argument) (ns : kwargs) : kwargs :=
  match parser with
  | [] => ns
  | a :: rest =>
      match action a with
      | Help => defaults rest ns
      | _ => defaults rest (if kw_mem (dest a) ns then ns else ns ++ [(dest a, default a)])%list
      end
  end.

(** The argument that has [opt] among its option strings, as written. *)
Definition find_option (parser : list Argument) (opt : string) : option Argument :=
  List.find (fun a => existsb (String.eqb opt) (option_strings a)) parser.

(** An argument string that can stand for an option: it starts with the
    prefix character and has a second character. *)
Definition is_option_like (s : string) : bool :=
  match s with
  | String c (String _ _) => Ascii.eqb c "-"
  | _ => false
  end.

(** [_get_option_tuples]: one entry for every option string of the parser
    that starts with [opt]. *)
Definition option_tuples (parser : list Argument) (opt : string) : list Argument :=
  flat_map
    (fun a => map (fun _ => a) (List.filter (String.prefix opt) (option_strings a)))
    parser.

Inductive Parsed :=
| Known (a : Argument)
| Ambiguous
| Unrecognized.

(** [_parse_optional]: an option string of the parser stands for its
    argument; any other option-like string stands for the one option string
    it abbreviates, is ambiguous when it abbreviates several, and is
    unrecognized when it abbreviates none. *)
Definition parse_optional (parser : list Argument) (opt : string) : Parsed :=
  match find_option parser opt with
  | Some a => Known a
  | None =>
      if is_option_like opt then
        match option_tuples parser opt with
        | [] => Unrecognized
        | [a] => Known a
        | _ => Ambiguous
        end
      else Unrecognized
  end.

(** The occurrences in front of the marker [--]. *)
Fixpoint before_marker (argv : list (string * option string))
    : list (string * option string) :=
  match argv with
  | [] => []
  | occ :: rest => if String.eqb (fst occ) "--" then [] else occ :: before_marker rest
  end.

(** An ambiguous abbreviation is an error as soon as the command line is
    classified, before any action is taken. *)
Definition ambiguous (parser : list Argument) (argv : list (string * option string)) : bool :=
  existsb (fun occ => match parse_optional parser (fst occ) with
                      | Ambiguous => true
                      | _ => false
                      end)
    (before_marker argv).

Definition exit (status : string) : exn := Exn SystemExit status.

(** The state of a parse: the namespace, the destinations seen, and whether
    anything was left unrecognized. *)
Record State := mkState {
  namespace : kwargs;
  seen : list string;
  extras : bool
}.

(** Consumes the occurrences from left to right.  An unrecognized
    argument string, or a value after a flag, is set aside and reported at
    the end; an option that lacks its value is an error on the spot; the
    help exits on the spot.  The marker [--] ends the options: it and
    whatever follows it are set aside, for a parser without positional
    arguments. *)
Fixpoint consume (parser : list Argument) (argv : list (string * option string))
    (st : State) : outcome State :=
  match argv with
  | [] => Return st
  | (opt, val) :: rest =>
      if String.eqb opt "--" then Return (mkState (namespace st) (seen st) true)
      else
        match parse_optional parser opt with
        | Unrecognized => consume parser rest (mkState (namespace st) (seen st) true)
        | Ambiguous => Raise (exit "2")
        | Known a =>
            match action a, val with
            | Help, _ => Raise (exit "0")
            | Store, None => Raise (exit "2")
            | Store, Some v =>
                consume parser rest
                  (mkState (kw_set (dest a) (PStr v) (namespace st))
                     (dest a :: seen st) (extras st))
            | StoreTrue, v =>
                consume parser rest
                  (mkState (kw_set (dest a) (PBool true) (namespace st))
                     (dest a :: seen st)
                     (extras st || match v with Some _ => true | None => false end))
            end
        end
  end.

Definition missing_required (parser : list Argument) (seen : list string) : bool :=
  existsb (fun a => required a && negb (existsb (String.eqb (dest a)) seen)) parser.

(** [parser.parse_args()] *)
Definition parse_args (parser : list Argument) (argv : list (string * option string))
    : outcome kwargs :=
  if ambiguous parser argv then Raise (exit "2")
  else
    match consume parser argv (mkState (defaults parser []) [] false) with
    | Return st =>
        if missing_required parser (seen st) then Raise (exit "2")
        else if extras st then Raise (exit "2")
        else Return (namespace st)
    | Raise e => Raise e
    end.

End Argparse.

(** ** The command line of [cli] *)

(** Lines 14-17: the default location of tshark, for the platforms that
    have one. *)
Definition DEFAULT_TSHARK_PATH (system : string) : option string :=
  ({[ "Linux" := "/usr/bin/tshark";
      "Darwin" := "/Applications/Wireshark.app/Contents/MacOS/tshark" ]}
   : gmap string string) !! system.

(** Lines 22-58: the parser, given the default location and whether it
    passed the test of line 27. *)
Definition build_parser (default_path : option string) (usable : bool)
    : list Argparse.Argument :=
  [ Argparse.help_argument;
    Argparse.mkArgument ["-i"] Argparse.Store (Some "PATH") true PNone
      "Path to input .pcapng";
    Argparse.mkArgument ["-o"] Argparse.Store (Some "PATH") false PNone
      "Path to output .har";
    Argparse.store_true ["-f"; "--force"] "Whether to overwrite output if it exists";
    match default_path, usable with
    | Some d, true =>
        Argparse.mkArgument ["--tshark"] Argparse.Store None false (PStr d)
          ("Path to tshark executable (default: " ++ d ++ ")")
    | _, _ =>
        Argparse.mkArgument ["--tshark"] Argparse.Store None true PNone
          "Path to tshark executable"
    end;
    Argparse.mkArgument ["-sf"; "--socket-operations-file"] Argparse.Store (Some "PATH")
      false PNone
      "Path to the socket operations data file generated by Pirogue (e.g. socket_trace.json)";
    Argparse.mkArgument ["-cf"; "--cryptography-operations-file"] Argparse.Store (Some "PATH")
      false PNone
      "Path to the cryptography data file generated by Pirogue (e.g. aes_info.json)" ].

(** Line 27: [DEFAULT_TSHARK_PATH and Path(DEFAULT_TSHARK_PATH).exists()] *)
Definition default_usable (default_path : option string) : M bool :=
  match default_path with
  | Some d => if String.eqb d "" then ret false else path_exists (Pathlib.of_string d)
  | None => ret false
  end.

(** The attributes [cli] reads from the parsed namespace, lines 63-68 and
    71.  An attribute that is missing is an [AttributeError].  The values
    are the ones the parser of [cli] stores: a string or [None], and a
    boolean for the flag; a namespace with anything else is not one that
    [parse_args] returns. *)
Definition namespace_of (ns : kwargs) : outcome Namespace :=
  match kw_get "i" ns, kw_get "o" ns, kw_get "force" ns, kw_get "tshark" ns,
        kw_get "socket_operations_file" ns, kw_get "cryptography_operations_file" ns with
  | Some (PStr i), Some o, Some (PBool force), Some (PStr tshark), Some sf, Some cf =>
      match o, sf, cf with
      | (PNone | PStr _), (PNone | PStr _), (PNone | PStr _) =>
          Return (mkNamespace i
                    (match o with PStr x => Some x | _ => None end)
                    force tshark
                    (match sf with PStr x => Some x | _ => None end)
                    (match cf with PStr x => Some x | _ => None end))
      | _, _, _ => Raise (Exn TypeError "expected str, bytes or os.PathLike object")
      end
  | _, _, _, _, _, _ => Raise (Exn (OtherException "AttributeError") "Namespace")
  end.

(** [cli()], lines 20-71, on the platform [system] and the command line
    [argv]: build the parser, parse, convert. *)
Definition cli_main (C : Collaborators) (system : string)
    (argv : list (string * option string)) : M unit :=
  usable <- default_usable (DEFAULT_TSHARK_PATH system) ;;
  let parser := build_parser (DEFAULT_TSHARK_PATH system) usable in
  ns <- lift_outcome (Argparse.parse_args parser argv) ;;
  args <- lift_outcome (namespace_of ns) ;;
  cli C args.

(** *** Observations on a command line *)

(** The command line has an occurrence of one of these option strings. *)
Definition mentions (opts : list string) (argv : list (string * option string)) : bool :=
  existsb (fun occ => existsb (String.eqb (fst occ)) opts) argv.

(** [opt] is the option string [full] or an abbreviation of it. *)
Definition abbreviates (opt full : string) : bool :=
  Argparse.is_option_like opt && String.prefix opt full.

(** The command line has an occurrence of one of these option strings,
    written in full or abbreviated. *)
Definition gives (opts : list string) (argv : list (string * option string)) : bool :=
  existsb (fun occ => existsb (abbreviates (fst occ)) opts) argv.

Definition str_or_None (v : pyval) : bool :=
  match v with
  | PNone | PStr _ => true
  | _ => false
  end.

(** What holds of the namespace while the command line of [cli] is read:
    the six attributes are there, the flag is a boolean and the others are
    strings or [None]; the input and the tshark path are strings once they
    have been seen, and the tshark path is one from the start when it has a
    default. *)
Definition typed_state (has_default : bool) (st : Argparse.State) : Prop :=
  let ns := Argparse.namespace st in
  (exists v, kw_get "i" ns = Some v /\ str_or_None v = true
             /\ (In "i" (Argparse.seen st) -> v <> PNone))
  /\ (exists v, kw_get "o" ns = Some v /\ str_or_None v = true)
  /\ (exists b, kw_get "force" ns = Some (PBool b))
  /\ (exists v, kw_get "tshark" ns = Some v /\ str_or_None v = true
                /\ (In "tshark" (Argparse.seen st) \/ has_default = true -> v <> PNone))
  /\ (exists v, kw_get "socket_operations_file" ns = Some v /\ str_or_None v = true)
  /\ (exists v, kw_get "cryptography_operations_file" ns = Some v /\ str_or_None v = true).

(** *** Observations on paths *)

(** A path as [Path(...)] makes them: one of the three roots, and
    components that are neither empty, nor a dot, nor contain a slash. *)
Definition well_formed (p : Path) : Prop :=
  (Pathlib.root p = "" \/ Pathlib.root p = "/" \/ Pathlib.root p = "//")
  /\ Forall (fun x => Pathlib.contains_slash x = false /\ Pathlib.keep_part x = true)
       (Pathlib.parts p).

(** * Properties *)

(** ** The enrichment passes, in either order *)

Section PassesCommute.

Variable window : Z.
Variable session_of : SocketOperationRecord -> string.
Variable content_hash : string -> string.
Variable plaintext_mimeType : string -> string.
Variable prefer_session : bool.

(** The decryption pass leaves alone what the stack trace pass reads. *)
Lemma responsible_decryption_entry sidx cidx e :
  Enrichment.responsible window sidx
    (Enrichment.decryption_entry content_hash plaintext_mimeType prefer_session cidx e)
  = Enrichment.responsible window sidx e.
Proof.
  unfold Enrichment.responsible, Enrichment.decryption_entry.
  destruct (Enrichment.decrypt_request _ _ _ _ _ (request e)) as [q dq].
  destruct (response e) as [p|]; [destruct (Enrichment.decrypt_response _ _ _ _ _ p)|];
    reflexivity.
Qed.

(** Where no identifier is the handle of a record, the handle that counts
    is the content hash. *)
Lemma lookup_crypto_unused cidx dir x c :
  Enrichment.session_unused cidx x ->
  Enrichment.lookup_crypto content_hash prefer_session cidx dir x c
  = cidx !! (content_hash (text c), Enrichment.is_request dir).
Proof.
  unfold Enrichment.session_unused, Enrichment.lookup_crypto, Enrichment.handles.
  intros H. destruct (session x) as [h|]; simpl.
  - specialize (H h (Enrichment.is_request dir) eq_refl).
    destruct prefer_session; simpl; rewrite H;
      destruct (cidx !! (content_hash (text c), Enrichment.is_request dir)); reflexivity.
  - destruct (cidx !! (content_hash (text c), Enrichment.is_request dir)); reflexivity.
Qed.

Lemma decrypt_request_unused cidx x x' q :
  Enrichment.session_unused cidx x -> Enrichment.session_unused cidx x' ->
  Enrichment.decrypt_request content_hash plaintext_mimeType prefer_session cidx x q
  = Enrichment.decrypt_request content_hash plaintext_mimeType prefer_session cidx x' q.
Proof.
  intros H H'. unfold Enrichment.decrypt_request.
  destruct (postData q) as [c|]; [|reflexivity].
  rewrite !lookup_crypto_unused by assumption. reflexivity.
Qed.

Lemma decrypt_response_unused cidx x x' p :
  Enrichment.session_unused cidx x -> Enrichment.session_unused cidx x' ->
  Enrichment.decrypt_response content_hash plaintext_mimeType prefer_session cidx x p
  = Enrichment.decrypt_response content_hash plaintext_mimeType prefer_session cidx x' p.
Proof.
  intros H H'. unfold Enrichment.decrypt_response.
  rewrite !lookup_crypto_unused by assumption. reflexivity.
Qed.

Lemma entry_passes_commute sidx cidx e :
  Enrichment.session_unused cidx (extension e) ->
  Enrichment.session_unused cidx
    (extension (Enrichment.stacktrace_entry window session_of sidx e)) ->
  Enrichment.stacktrace_entry window session_of sidx
    (Enrichment.decryption_entry content_hash plaintext_mimeType prefer_session cidx e)
  = Enrichment.decryption_entry content_hash plaintext_mimeType prefer_session cidx
      (Enrichment.stacktrace_entry window session_of sidx e).
Proof.
  intros H H'.
  unfold Enrichment.stacktrace_entry at 1.
  rewrite responsible_decryption_entry.
  unfold Enrichment.stacktrace_entry in *.
  destruct (Enrichment.responsible window sidx e) as [r|]; [|reflexivity].
  unfold Enrichment.decryption_entry; cbn [request response extension startedDateTime
    time remote incomplete].
  rewrite (decrypt_request_unused cidx (Enrichment.attach session_of r (extension e))
             (extension e) (request e) H' H).
  destruct (Enrichment.decrypt_request _ _ _ _ _ (request e)) as [q dq].
  destruct (response e) as [p|].
  - rewrite (decrypt_response_unused cidx (Enrichment.attach session_of r (extension e))
               (extension e) p H' H).
    destruct (Enrichment.decrypt_response _ _ _ _ _ p). reflexivity.
  - reflexivity.
Qed.

(** The two passes commute on a document none of whose entries carries,
    before or after the stack trace pass, an identifier that is the handle
    of a record of the cryptography feed. *)
Lemma passes_commute_unused sfeed cfeed d :
  (forall e, In e (entries d) ->
     Enrichment.session_unused (Enrichment.crypto_index cfeed) (extension e)
     /\ Enrichment.session_unused (Enrichment.crypto_index cfeed)
          (extension (Enrichment.stacktrace_entry window session_of
                        (Enrichment.socket_index sfeed) e))) ->
  Enrichment.stacktrace_enrich window session_of sfeed
    (Enrichment.decryption_enrich content_hash plaintext_mimeType prefer_session cfeed d)
  = Enrichment.decryption_enrich content_hash plaintext_mimeType prefer_session cfeed
      (Enrichment.stacktrace_enrich window session_of sfeed d).
Proof.
  intros H.
  unfold Enrichment.stacktrace_enrich, Enrichment.decryption_enrich; simpl.
  f_equal. rewrite !map_map.
  apply map_ext_in; intros e He. destruct (H e He). apply entry_passes_commute; assumption.
Qed.

(** The stack trace pass writes the extension area only: the bodies of
    the entries are the ones it was given. *)
Lemma stacktrace_entry_contents sidx e :
  entry_contents (Enrichment.stacktrace_entry window session_of sidx e) = entry_contents e.
Proof.
  unfold Enrichment.stacktrace_entry.
  destruct (Enrichment.responsible window sidx e); reflexivity.
Qed.

Lemma stacktrace_enrich_contents sfeed d :
  document_contents (Enrichment.stacktrace_enrich window session_of sfeed d)
  = document_contents d.
Proof.
  unfold document_contents, Enrichment.stacktrace_enrich; simpl.
  rewrite map_map. apply map_ext; intros e. apply stacktrace_entry_contents.
Qed.

(** With no socket operation at all, no entry is matched. *)
Lemma stacktrace_enrich_empty_feed d :
  Enrichment.stacktrace_enrich window session_of [] d = d.
Proof.
  unfold Enrichment.stacktrace_enrich.
  assert (H : forall l,
    map (Enrichment.stacktrace_entry window session_of (Enrichment.socket_index [])) l = l).
  { induction l as [|e l IH]; simpl; [reflexivity|]. rewrite IH. reflexivity. }
  rewrite H. destruct d; reflexivity.
Qed.

End PassesCommute.

(** ** Facts about paths *)

Section PathFacts.

Lemma Path_eqb_eq (p q : Path) : Pathlib.eqb p q = true <-> p = q.
Proof.
  unfold Pathlib.eqb.
  rewrite andb_true_iff, String.eqb_eq, bool_decide_eq_true.
  destruct p, q; simpl; split.
  - intros [-> ->]; reflexivity.
  - intros H; inversion H; auto.
Qed.

Lemma Path_eqb_neq (p q : Path) : Pathlib.eqb p q = false <-> p <> q.
Proof.
  rewrite <- Path_eqb_eq. destruct (Pathlib.eqb p q); split; congruence.
Qed.

Lemma string_length_app (a b : string) :
  String.length (a ++ b) = String.length a + String.length b.
Proof. induction a as [|c a IH]; simpl; [reflexivity | now rewrite IH]. Qed.

Lemma string_app_inv_head (a b c : string) : a ++ b = a ++ c -> b = c.
Proof. induction a as [|x a IH]; simpl; intros H; [assumption | inversion H; auto]. Qed.

Lemma substring_length (s : string) (i n : nat) :
  i + n <= String.length s -> String.length (substring i n s) = n.
Proof.
  revert i n. induction s as [|c s IH]; intros [|i] [|n]; simpl; intros H;
    try reflexivity; try lia.
  - rewrite (IH 0 n); [reflexivity | simpl; lia].
  - apply (IH i 0); lia.
  - apply (IH i (S n)); lia.
Qed.

Lemma substring_all (s : string) : substring 0 (String.length s) s = s.
Proof. induction s as [|c s IH]; simpl; [reflexivity | now rewrite IH]. Qed.

Lemma substring_split (s : string) (i : nat) :
  i <= String.length s ->
  substring 0 i s ++ substring i (String.length s - i) s = s.
Proof.
  revert i. induction s as [|c s IH]; intros [|i]; simpl; intros H.
  - reflexivity.
  - lia.
  - change (String c (substring 0 (String.length s) s) = String c s).
    f_equal. apply substring_all.
  - change (String c (substring 0 i s ++ substring i (String.length s - i) s)
            = String c s).
    f_equal. apply IH. lia.
Qed.

Lemma rfind_dot_lt (s : string) (i : nat) :
  Pathlib.rfind_dot s = Some i -> i < String.length s.
Proof.
  revert i. induction s as [|c s IH]; simpl; intros i H; [discriminate|].
  destruct (Pathlib.rfind_dot s) as [j|].
  - inversion H; subst. specialize (IH j eq_refl). lia.
  - destruct (Ascii.eqb c "."); inversion H; lia.
Qed.

(** A name with a suffix is its stem followed by that suffix. *)
Lemma name_suffix_split (nm : string) :
  Pathlib.name_suffix nm <> "" ->
  substring 0 (String.length nm - String.length (Pathlib.name_suffix nm)) nm
    ++ Pathlib.name_suffix nm = nm
  /\ 0 < String.length nm - String.length (Pathlib.name_suffix nm).
Proof.
  unfold Pathlib.name_suffix.
  destruct (Pathlib.rfind_dot nm) as [i|] eqn:Hi; [|congruence].
  destruct ((0 <? i)%nat && (i <? String.length nm - 1)%nat) eqn:Hc; [|congruence].
  intros _. apply andb_true_iff in Hc as [H0 H1].
  apply Nat.ltb_lt in H0, H1.
  rewrite substring_length by lia.
  replace (String.length nm - (String.length nm - i)) with i by lia.
  split; [apply substring_split; lia | lia].
Qed.

Lemma replace_last_name (p : Path) :
  Pathlib.name p <> "" ->
  Pathlib.replace_last (Pathlib.parts p) (Pathlib.name p) = Pathlib.parts p.
Proof.
  unfold Pathlib.name, Pathlib.replace_last. intros H.
  destruct (Pathlib.parts p) as [|x l] eqn:E; [simpl in H; congruence|].
  symmetry. apply app_removelast_last. discriminate.
Qed.

Lemma name_replace_last (ps : list string) (nm : string) :
  List.last (Pathlib.replace_last ps nm) "" = nm.
Proof. unfold Pathlib.replace_last. apply last_last. Qed.

(** Replacing the suffix [.har] by [.har] gives the path back. *)
Lemma with_suffix_har_fixpoint (p : Path) :
  Pathlib.suffix p = ".har" -> Pathlib.with_suffix p ".har" = Some p.
Proof.
  intros Hs. unfold Pathlib.with_suffix. simpl.
  assert (Hne : Pathlib.suffix p <> "") by (rewrite Hs; discriminate).
  destruct (name_suffix_split (Pathlib.name p) Hne) as [Hsp Hpos].
  destruct (String.eqb_spec (Pathlib.name p) "") as [E|E].
  { unfold Pathlib.suffix in Hne. rewrite E in Hne. exfalso; apply Hne; reflexivity. }
  fold (Pathlib.suffix p) in Hsp. rewrite Hs in *. simpl.
  simpl in Hsp. rewrite Hsp.
  rewrite replace_last_name by assumption.
  destruct p; reflexivity.
Qed.

(** Conversely, [with_suffix] returns the path it was given only when the
    suffix already is [.har]. *)
Lemma with_suffix_har_same (p : Path) :
  Pathlib.with_suffix p ".har" = Some p -> Pathlib.suffix p = ".har".
Proof.
  unfold Pathlib.with_suffix. simpl.
  destruct (String.eqb_spec (Pathlib.name p) "") as [E|E]; [discriminate|].
  intros H. injection H as H1.
  assert (Hn : Pathlib.name p =
               (if (Pathlib.suffix p =? "")%string then Pathlib.name p ++ ".har"
                else substring 0 (String.length (Pathlib.name p)
                                  - String.length (Pathlib.suffix p)) (Pathlib.name p)
                     ++ ".har")).
  { unfold Pathlib.name at 1. rewrite <- H1 at 1. simpl.
    rewrite name_replace_last. reflexivity. }
  destruct (String.eqb_spec (Pathlib.suffix p) "") as [E0|E0].
  - apply (f_equal String.length) in Hn. rewrite string_length_app in Hn.
    simpl in Hn. lia.
  - destruct (name_suffix_split (Pathlib.name p) E0) as [Hsp _].
    fold (Pathlib.suffix p) in Hsp. rewrite <- Hsp in Hn at 1.
    apply string_app_inv_head in Hn. exact Hn.
Qed.

Lemma rfind_dot_app_har (a : string) :
  Pathlib.rfind_dot (a ++ ".har") = Some (String.length a).
Proof.
  induction a as [|c a IH]; [reflexivity|].
  change (String c a ++ ".har") with (String c (a ++ ".har")).
  simpl. rewrite IH. reflexivity.
Qed.

Lemma substring_app_r (a b : string) :
  substring (String.length a) (String.length b) (a ++ b) = b.
Proof.
  induction a as [|c a IH]; [apply substring_all|].
  change (String c a ++ b) with (String c (a ++ b)). simpl. exact IH.
Qed.

(** A non-empty stem followed by [.har] has the suffix [.har]. *)
Lemma name_suffix_app_har (a : string) :
  a <> "" -> Pathlib.name_suffix (a ++ ".har") = ".har".
Proof.
  intros Ha. unfold Pathlib.name_suffix.
  rewrite rfind_dot_app_har, string_length_app. simpl String.length.
  assert (Hpos : 0 < String.length a) by (destruct a; [congruence | simpl; lia]).
  replace ((0 <? String.length a)%nat) with true by (symmetry; apply Nat.ltb_lt; lia).
  replace ((String.length a <? String.length a + 4 - 1)%nat) with true
    by (symmetry; apply Nat.ltb_lt; lia).
  simpl andb. cbv iota.
  replace (String.length a + 4 - String.length a) with (String.length ".har")
    by (simpl; lia).
  apply substring_app_r.
Qed.

(** What [with_suffix] returns: same root, same parent components, and a
    name with the suffix [.har]. *)
Lemma with_suffix_har_shape (p out : Path) :
  Pathlib.with_suffix p ".har" = Some out ->
  Pathlib.root out = Pathlib.root p
  /\ removelast (Pathlib.parts out) = removelast (Pathlib.parts p)
  /\ Pathlib.suffix out = ".har".
Proof.
  unfold Pathlib.with_suffix. simpl.
  destruct (String.eqb_spec (Pathlib.name p) "") as [E|E]; [discriminate|].
  intros H. injection H as <-. simpl.
  split; [reflexivity|]. split.
  { unfold Pathlib.replace_last. apply removelast_last. }
  unfold Pathlib.suffix, Pathlib.name at 1. simpl. rewrite name_replace_last.
  destruct (String.eqb_spec (Pathlib.name_suffix (Pathlib.name p)) "") as [E0|E0].
  - apply name_suffix_app_har. assumption.
  - apply name_suffix_app_har.
    destruct (name_suffix_split (Pathlib.name p) E0) as [_ Hpos].
    intros Habs. apply (f_equal String.length) in Habs.
    rewrite substring_length in Habs by lia. simpl in Habs. lia.
Qed.

End PathFacts.

(** ** The driver, stage by stage *)

Section DriverFacts.

Variable C : Collaborators.

Lemma trace_add_record t l msg w : trace (add_record t l msg w) = trace w.
Proof. unfold add_record. destruct (enabled t l); reflexivity. Qed.

Lemma fs_add_record t l msg w : fs (add_record t l msg w) = fs w.
Proof. unfold add_record. destruct (enabled t l); reflexivity. Qed.

Lemma log_add_record t l msg w :
  log (add_record t l msg w) = (log w ++ kept t [(l, msg)])%list.
Proof.
  unfold add_record, kept. simpl.
  destruct (enabled t l); simpl; [reflexivity | symmetry; apply app_nil_r].
Qed.

Lemma add_record_ERROR t msg w : add_record t ERROR msg w = add_log ERROR msg w.
Proof. reflexivity. Qed.

Lemma feed_file_optional_path f x :
  feed_file f x =
  match optional_path x with
  | Some p => if fs_is_file f p then Some p else None
  | None => None
  end.
Proof.
  unfold feed_file, optional_path.
  destruct x as [s|]; [destruct (String.eqb s "")|]; reflexivity.
Qed.

(** What the stack trace stage does, case by case: it never touches the
    file system; it either skips (the flag and the document pass through,
    one ERROR record is logged), or runs the pass (the flag becomes true),
    or the pass raises. *)
Lemma stacktrace_stage_spec sf en d w :
  exists new,
    trace (fst (stacktrace_stage C sf en d w)) = (trace w ++ new)%list
    /\ fs (fst (stacktrace_stage C sf en d w)) = fs w
    /\ Forall (fun ev => stacktrace_stage_event ev = true) new
    /\ stacktrace_stage_post C sf en d w (fst (stacktrace_stage C sf en d w)) new
         (snd (stacktrace_stage C sf en d w)).
Proof.
  unfold stacktrace_stage_post. rewrite feed_file_optional_path.
  unfold stacktrace_stage, path_is_file, bind, emit, read_fs, ret, logger, lift_outcome.
  rewrite ?add_record_ERROR.
  destruct (optional_path sf) as [p|]; simpl.
  - destruct (fs_is_file (fs w) p) eqn:Hf; simpl.
    + destruct (Stacktrace_init C d p (fs w)) as [feed|e] eqn:Hi; simpl.
      * destruct (Stacktrace_enrich C feed d) as [d'|e] eqn:He; simpl.
        -- rewrite trace_add_record, fs_add_record. simpl. eexists. rewrite <- !app_assoc. split; [reflexivity|].
           split; [reflexivity|]. split; [repeat constructor|].
           right. exists p, feed. simpl. intuition.
        -- eexists. rewrite <- !app_assoc. split; [reflexivity|].
           split; [reflexivity|]. split; [repeat constructor|]. eauto.
      * eexists. rewrite <- !app_assoc. split; [reflexivity|].
        split; [reflexivity|]. split; [repeat constructor|]. eauto.
    + eexists. split; [reflexivity|]. split; [reflexivity|].
      split; [repeat constructor|]. left. repeat split. repeat constructor.
  - exists []. rewrite app_nil_r. split; [reflexivity|]. split; [reflexivity|].
    split; [constructor|]. left. repeat split. constructor.
Qed.

Lemma decryption_stage_spec cf en d w :
  exists new,
    trace (fst (decryption_stage C cf en d w)) = (trace w ++ new)%list
    /\ fs (fst (decryption_stage C cf en d w)) = fs w
    /\ Forall (fun ev => decryption_stage_event ev = true) new
    /\ decryption_stage_post C cf en d w (fst (decryption_stage C cf en d w)) new
         (snd (decryption_stage C cf en d w)).
Proof.
  unfold decryption_stage_post. rewrite feed_file_optional_path.
  unfold decryption_stage, path_is_file, bind, emit, read_fs, ret, logger, lift_outcome.
  rewrite ?add_record_ERROR.
  destruct (optional_path cf) as [p|]; simpl.
  - destruct (fs_is_file (fs w) p) eqn:Hf; simpl.
    + destruct (ContentDecryption_init C d p (fs w)) as [feed|e] eqn:Hi; simpl.
      * destruct (ContentDecryption_enrich C feed d) as [d'|e] eqn:He; simpl.
        -- rewrite trace_add_record, fs_add_record. simpl. eexists. rewrite <- !app_assoc. split; [reflexivity|].
           split; [reflexivity|]. split; [repeat constructor|].
           right. exists p, feed. simpl. intuition.
        -- eexists. rewrite <- !app_assoc. split; [reflexivity|].
           split; [reflexivity|]. split; [repeat constructor|]. eauto.
      * eexists. rewrite <- !app_assoc. split; [reflexivity|].
        split; [reflexivity|]. split; [repeat constructor|]. eauto.
    + eexists. split; [reflexivity|]. split; [reflexivity|].
      split; [repeat constructor|]. left. repeat split. repeat constructor.
  - exists []. rewrite app_nil_r. split; [reflexivity|]. split; [reflexivity|].
    split; [constructor|]. left. repeat split. constructor.
Qed.

(** The second serialization writes into the output file itself: the file
    is truncated when it is opened and then holds what [json.dump] wrote,
    whether the dump finished or not. *)
Lemma save_enriched_true d out kws w :
  fs w !! Pathlib.str out <> Some Directory ->
  save_enriched C true d out kws w
  = (mkWorld (<[Pathlib.str out := RegularFile (fst (dump_outcome C d kws))]> (fs w))
       (log w)
       (trace w ++ [EvOpenW (Pathlib.str out); EvJsonDump d kws]),
     outcome_of_failure (snd (dump_outcome C d kws))).
Proof.
  intros Hd.
  unfold save_enriched, path_open_w, json_dump, dump_outcome, bind, emit, ret, raise.
  simpl.
  assert (Hopen :
    match fs w !! Pathlib.str out with
    | Some Directory =>
        (add_event (EvOpenW (Pathlib.str out)) w,
         @Raise unit (Exn IsADirectoryError (Pathlib.str out)))
    | _ =>
        (set_fs (<[Pathlib.str out := RegularFile ""]> (fs w))
           (add_event (EvOpenW (Pathlib.str out)) w), Return tt)
    end
    = (set_fs (<[Pathlib.str out := RegularFile ""]> (fs w))
         (add_event (EvOpenW (Pathlib.str out)) w), Return tt)).
  { destruct (fs w !! Pathlib.str out) as [[?|]|]; [reflexivity|congruence|reflexivity]. }
  rewrite Hopen. clear Hopen. simpl.
  destruct (kw_mem "obj" kws || kw_mem "fp" kws); simpl.
  { unfold add_event, set_fs; simpl. rewrite <- app_assoc. reflexivity. }
  destruct (forallb (fun kv => json_known (fst kv)) kws || negb (cls_is_None kws)); simpl.
  - destruct (json_encode C d kws) as [chunks failure]; simpl.
    unfold file_append, bind; simpl. rewrite lookup_insert_eq. simpl.
    rewrite insert_insert_eq.
    unfold add_event, set_fs; simpl. rewrite <- app_assoc.
    destruct failure; reflexivity.
  - unfold add_event, set_fs; simpl. rewrite <- app_assoc. reflexivity.
Qed.

Lemma save_enriched_directory d out kws w :
  fs w !! Pathlib.str out = Some Directory ->
  save_enriched C true d out kws w
  = (add_event (EvOpenW (Pathlib.str out)) w,
     Raise (Exn IsADirectoryError (Pathlib.str out))).
Proof.
  intros Hd. unfold save_enriched, path_open_w, bind, emit. simpl.
  rewrite Hd. reflexivity.
Qed.

Lemma save_enriched_false d out kws w :
  save_enriched C false d out kws w = (w, Return tt).
Proof. reflexivity. Qed.

(** The enrichment part of the driver, one stage after the other. *)
Lemma enrich_and_save_eq traffic out sf cf kws w :
  enrich_and_save C traffic out sf cf kws w =
  match to_har C traffic with
  | Raise e => (w, Raise e)
  | Return har =>
      match stacktrace_stage C sf false har w with
      | (w2, Raise e) => (w2, Raise e)
      | (w2, Return r2) =>
          match decryption_stage C cf (fst r2) (snd r2) w2 with
          | (w3, Raise e) => (w3, Raise e)
          | (w3, Return r3) =>
              match save_enriched C (fst r3) (snd r3) out kws w3 with
              | (w4, Raise e) => (w4, Raise e)
              | (w4, Return _) =>
                  (add_record (logging_level C) INFO
                     ("The HAR has been saved in " ++ Pathlib.str out) w4,
                   Return tt)
              end
          end
      end
  end.
Proof.
  unfold enrich_and_save, bind, lift_outcome, logger.
  destruct (to_har C traffic); reflexivity.
Qed.

Lemma pcapng_to_har_eq input output tshark sf cf ow kws w :
  pcapng_to_har C input output tshark sf cf ow kws w =
  match base_conversion C input output tshark ow kws w with
  | (w1, Return r) => enrich_and_save C (snd r) (fst r) sf cf kws w1
  | (w1, Raise e) => (w1, Raise e)
  end.
Proof. reflexivity. Qed.

Ltac grow :=
  eexists; rewrite <- ?app_assoc; simpl;
  split; [reflexivity|]; split; [reflexivity|];
  split; [intros _; eexists; reflexivity|].

(** The conversion proper, case by case.  When it returns, the last thing
    it did was a successful [save_har] on the output path, and nothing
    before that wrote anything.  When it raises, either nothing was written
    at all, or [save_har] itself failed. *)
Lemma checked_conversion_spec p out tshark ow kws w :
  exists new,
    trace (fst (checked_conversion C p out tshark ow kws w)) = (trace w ++ new)%list
    /\ log (fst (checked_conversion C p out tshark ow kws w)) = log w
    /\ (out <> p -> exists rest, new = EvExists (Pathlib.str out) :: rest)
    /\ match snd (checked_conversion C p out tshark ow kws w) with
       | Return r =>
           exists pre t,
             new = (pre ++ [EvSaveHar (Pathlib.str out) ow kws])%list
             /\ Forall (fun ev => is_write_event ev = false
                                  /\ is_enrichment_event ev = false) pre
             /\ fst r = out /\ out <> p
             /\ fs_exists (fs w) out && negb ow = false
             /\ tshark_used C tshark t
             /\ load_and_parse C t p (fs w) = Return (snd r)
             /\ save_har C (snd r) out ow kws (fs w)
                = (fs (fst (checked_conversion C p out tshark ow kws w)), Return tt)
       | Raise e =>
           (fs (fst (checked_conversion C p out tshark ow kws w)) = fs w
            /\ Forall (fun ev => is_write_event ev = false
                                 /\ is_enrichment_event ev = false) new)
           \/ (exists pre traffic t,
                 new = (pre ++ [EvSaveHar (Pathlib.str out) ow kws])%list
                 /\ Forall (fun ev => is_write_event ev = false
                                      /\ is_enrichment_event ev = false) pre
                 /\ tshark_used C tshark t
                 /\ load_and_parse C t p (fs w) = Return traffic
                 /\ save_har C traffic out ow kws (fs w)
                    = (fs (fst (checked_conversion C p out tshark ow kws w)), Raise e))
       end.
Proof.
  unfold checked_conversion, call_save_har, path_exists,
    bind, emit, read_fs, ret, raise, lift_outcome, tshark_used.
  destruct (Pathlib.eqb out p) eqn:Heq; simpl.
  { exists []. rewrite app_nil_r. split; [reflexivity|]. split; [reflexivity|].
    split; [intros Hne; apply Path_eqb_neq in Hne; congruence|].
    left. split; [reflexivity|constructor]. }
  apply Path_eqb_neq in Heq.
  destruct (fs_exists (fs w) out && negb ow) eqn:Hex; simpl.
  { grow. left. split; [reflexivity|repeat constructor]. }
  destruct tshark as [t|]; simpl.
  - destruct (load_and_parse C t p (fs w)) as [traffic|e] eqn:Hl; simpl.
    + destruct (save_har C traffic out ow kws (fs w)) as [f [[]|e]] eqn:Hs; simpl.
      * grow. exists [EvExists (Pathlib.str out); EvLoadTraffic (Pathlib.str p)], t.
        repeat split; auto; repeat constructor.
      * grow. right.
        exists [EvExists (Pathlib.str out); EvLoadTraffic (Pathlib.str p)], traffic, t.
        repeat split; auto; repeat constructor.
    + grow. left. split; [reflexivity|repeat constructor].
  - destruct (Tshark_init C None) as [t|e] eqn:Ht; simpl.
    + destruct (load_and_parse C t p (fs w)) as [traffic|e] eqn:Hl; simpl.
      * destruct (save_har C traffic out ow kws (fs w)) as [f [[]|e]] eqn:Hs; simpl.
        -- grow.
           exists [EvExists (Pathlib.str out); EvTshark None; EvLoadTraffic (Pathlib.str p)], t.
           repeat split; auto; repeat constructor.
        -- grow. right.
           exists [EvExists (Pathlib.str out); EvTshark None; EvLoadTraffic (Pathlib.str p)],
             traffic, t.
           repeat split; auto; repeat constructor.
      * grow. left. split; [reflexivity|repeat constructor].
    + grow. left. split; [reflexivity|repeat constructor].
Qed.

Lemma base_conversion_eq input output tshark ow kws w :
  base_conversion C input output tshark ow kws w =
  match output_path input output with
  | Some out => checked_conversion C (Pathlib.of_string input) out tshark ow kws w
  | None =>
      (w, Raise (Exn ValueError (Pathlib.str (Pathlib.of_string input) ++ " has an empty name")))
  end.
Proof.
  unfold base_conversion, resolve_output, output_path, bind, ret, raise.
  destruct output as [o|]; [reflexivity|].
  destruct (Pathlib.with_suffix (Pathlib.of_string input) ".har"); reflexivity.
Qed.

(** Every way the enrichment part can go: [to_har] raises; the stack
    trace stage raises; the decryption stage raises; no pass ran and
    nothing is written; the output path is a directory; or the document is
    dumped into the output file. *)
Lemma enrich_and_save_cases traffic out sf cf kws w1 :
  (exists e, to_har C traffic = Raise e
             /\ enrich_and_save C traffic out sf cf kws w1 = (w1, Raise e))
  \/ exists har w2 o2 new2,
      to_har C traffic = Return har
      /\ stacktrace_stage C sf false har w1 = (w2, o2)
      /\ trace w2 = (trace w1 ++ new2)%list /\ fs w2 = fs w1
      /\ Forall (fun ev => stacktrace_stage_event ev = true) new2
      /\ stacktrace_stage_post C sf false har w1 w2 new2 o2
      /\ ((exists e, o2 = Raise e
                     /\ enrich_and_save C traffic out sf cf kws w1 = (w2, Raise e))
          \/ exists r2 w3 o3 new3,
              o2 = Return r2
              /\ decryption_stage C cf (fst r2) (snd r2) w2 = (w3, o3)
              /\ trace w3 = (trace w2 ++ new3)%list /\ fs w3 = fs w2
              /\ Forall (fun ev => decryption_stage_event ev = true) new3
              /\ decryption_stage_post C cf (fst r2) (snd r2) w2 w3 new3 o3
              /\ ((exists e, o3 = Raise e
                             /\ enrich_and_save C traffic out sf cf kws w1 = (w3, Raise e))
                  \/ exists r3,
                      o3 = Return r3
                      /\ ((fst r3 = false
                           /\ enrich_and_save C traffic out sf cf kws w1
                              = (add_record (logging_level C) INFO (saved_message out) w3,
                                 Return tt))
                          \/ (fst r3 = true
                              /\ fs w3 !! Pathlib.str out = Some Directory
                              /\ enrich_and_save C traffic out sf cf kws w1
                                 = (add_event (EvOpenW (Pathlib.str out)) w3,
                                    Raise (Exn IsADirectoryError (Pathlib.str out))))
                          \/ (fst r3 = true
                              /\ fs w3 !! Pathlib.str out <> Some Directory
                              /\ exists w4,
                                  trace w4 = (trace w3 ++ [EvOpenW (Pathlib.str out);
                                                           EvJsonDump (snd r3) kws])%list
                                  /\ fs w4 = <[Pathlib.str out :=
                                                 RegularFile (fst (dump_outcome C (snd r3) kws))]>
                                              (fs w3)
                                  /\ fst (enrich_and_save C traffic out sf cf kws w1) = w4
                                  /\ snd (enrich_and_save C traffic out sf cf kws w1)
                                     = outcome_of_failure (snd (dump_outcome C (snd r3) kws)))))).
Proof.
  rewrite enrich_and_save_eq.
  destruct (to_har C traffic) as [har|e]; [right | left; eauto].
  pose proof (stacktrace_stage_spec sf false har w1) as H2.
  destruct (stacktrace_stage C sf false har w1) as [w2 o2] eqn:Hs2.
  simpl in H2. destruct H2 as (new2 & Ht2 & Hf2 & Hev2 & Hp2).
  exists har, w2, o2, new2.
  do 6 (split; [solve [auto]|]).
  destruct o2 as [r2|e]; [right | left; eauto].
  pose proof (decryption_stage_spec cf (fst r2) (snd r2) w2) as H3.
  destruct (decryption_stage C cf (fst r2) (snd r2) w2) as [w3 o3] eqn:Hs3.
  simpl in H3. destruct H3 as (new3 & Ht3 & Hf3 & Hev3 & Hp3).
  exists r2, w3, o3, new3.
  do 6 (split; [solve [auto]|]).
  destruct o3 as [r3|e]; [right | left; eauto].
  exists r3. split; [reflexivity|].
  destruct (fst r3) eqn:Hen.
  - destruct (fs w3 !! Pathlib.str out) as [[data|]|] eqn:Hd.
    + right; right. rewrite save_enriched_true by (rewrite Hd; discriminate).
      do 2 (split; [solve [auto]|]).
      destruct (snd (dump_outcome C (snd r3) kws)) as [e|]; simpl;
        (eexists; split; [|split; [|split; [reflexivity|reflexivity]]]);
        rewrite ?trace_add_record, ?fs_add_record; reflexivity.
    + right; left. rewrite save_enriched_directory by assumption. auto.
    + right; right. rewrite save_enriched_true by (rewrite Hd; discriminate).
      do 2 (split; [solve [auto]|]).
      destruct (snd (dump_outcome C (snd r3) kws)) as [e|]; simpl;
        (eexists; split; [|split; [|split; [reflexivity|reflexivity]]]);
        rewrite ?trace_add_record, ?fs_add_record; reflexivity.
  - left. rewrite save_enriched_false. auto.
Qed.

Lemma stacktrace_stage_event_facts ev :
  stacktrace_stage_event ev = true ->
  is_write_event ev = false /\ is_save_har_event ev = false
  /\ is_decryption_event ev = false /\ serialization_kws ev = None.
Proof. destruct ev; simpl; intros H; try discriminate; auto. Qed.

Lemma decryption_stage_event_facts ev :
  decryption_stage_event ev = true ->
  is_write_event ev = false /\ is_save_har_event ev = false
  /\ is_stacktrace_event ev = false /\ serialization_kws ev = None.
Proof. destruct ev; simpl; intros H; try discriminate; auto. Qed.

Lemma stacktrace_stage_event_not_dump new d k :
  Forall (fun ev => stacktrace_stage_event ev = true) new -> ~ In (EvJsonDump d k) new.
Proof.
  intros H Hin. rewrite Forall_forall in H.
  apply list_elem_of_In in Hin. specialize (H _ Hin). discriminate.
Qed.

Lemma decryption_stage_event_not_dump new d k :
  Forall (fun ev => decryption_stage_event ev = true) new -> ~ In (EvJsonDump d k) new.
Proof.
  intros H Hin. rewrite Forall_forall in H.
  apply list_elem_of_In in Hin. specialize (H _ Hin). discriminate.
Qed.

Lemma stacktrace_post_skip sf en d w w2 new o :
  stacktrace_stage_post C sf en d w w2 new o ->
  feed_file (fs w) sf = None ->
  o = Return (en, d)
  /\ Forall (fun ev => is_stacktrace_event ev = false) new
  /\ log w2 = (log w ++ [(ERROR, "Invalid stacktrace data input file, skip enrichment")])%list.
Proof.
  unfold stacktrace_stage_post. intros H Hf.
  destruct o as [r|e].
  - destruct H as [(_ & -> & Hn & Hl)|(p & feed & Hp & _)]; [auto | congruence].
  - destruct H as (p & Hp). congruence.
Qed.

Lemma decryption_post_skip cf en d w w2 new o :
  decryption_stage_post C cf en d w w2 new o ->
  feed_file (fs w) cf = None ->
  o = Return (en, d)
  /\ Forall (fun ev => is_decryption_event ev = false) new
  /\ log w2 = (log w ++ [(ERROR, "Invalid decryption data input file, skip enrichment")])%list.
Proof.
  unfold decryption_stage_post. intros H Hf.
  destruct o as [r|e].
  - destruct H as [(_ & -> & Hn & Hl)|(p & feed & Hp & _)]; [auto | congruence].
  - destruct H as (p & Hp). congruence.
Qed.

(** Pointwise consequences of belonging to a stage. *)
Ltac stage_forall H :=
  let ev := fresh "ev" in
  eapply List.Forall_impl; [| exact H];
  intros ev; destruct ev; simpl; intros;
  repeat split; intros; try discriminate; auto.

Ltac dump_events :=
  repeat constructor; simpl; intros; try discriminate; try congruence.

(** The events of the enrichment part: serialization calls carry the
    keywords of the caller, the only file opened is the output path, and a
    stage that skips calls nothing of its enrichment class. *)
Lemma enrich_and_save_events traffic out sf cf kws w1 :
  exists post,
    trace (fst (enrich_and_save C traffic out sf cf kws w1)) = (trace w1 ++ post)%list
    /\ Forall (fun ev => forall k, serialization_kws ev = Some k -> k = kws) post
    /\ Forall (fun ev => is_save_har_event ev = false
                         /\ forall p, ev = EvOpenW p -> p = Pathlib.str out) post
    /\ (feed_file (fs w1) sf = None ->
        Forall (fun ev => is_stacktrace_event ev = false) post)
    /\ (feed_file (fs w1) cf = None ->
        Forall (fun ev => is_decryption_event ev = false) post).
Proof.
  destruct (enrich_and_save_cases traffic out sf cf kws w1)
    as [(e & _ & Hrun)
       |(har & w2 & o2 & new2 & Hhar & Hs2 & Ht2 & Hf2 & Hev2 & Hp2 &
         [(e & -> & Hrun)
         |(r2 & w3 & o3 & new3 & -> & Hs3 & Ht3 & Hf3 & Hev3 & Hp3 &
           [(e & -> & Hrun)
           |(r3 & -> & [(Hen & Hrun)|[(Hen & Hd & Hrun)|(Hen & Hd & w4 & Ht4 & Hf4 & Hw4 & Hr4)]])])])].
  - rewrite Hrun. simpl fst. rewrite ?trace_add_record, ?fs_add_record. exists []. rewrite app_nil_r. repeat split; auto.
  - rewrite Hrun. simpl fst. rewrite ?trace_add_record, ?fs_add_record. exists new2. simpl. split; [assumption|].
    split; [stage_forall Hev2|]. split; [stage_forall Hev2|].
    split; [|intros _; stage_forall Hev2].
    intros Hsf. apply (stacktrace_post_skip _ _ _ _ _ _ _ Hp2 Hsf).
  - rewrite Hrun. simpl fst. rewrite ?trace_add_record, ?fs_add_record. exists (new2 ++ new3)%list. simpl.
    split; [rewrite Ht3, Ht2, app_assoc; reflexivity|].
    rewrite !Forall_app.
    split; [split; [stage_forall Hev2 | stage_forall Hev3]|].
    split; [split; [stage_forall Hev2 | stage_forall Hev3]|].
    split.
    + intros Hsf. split; [|stage_forall Hev3].
      apply (stacktrace_post_skip _ _ _ _ _ _ _ Hp2 Hsf).
    + intros Hcf. split; [stage_forall Hev2|].
      rewrite <- Hf2 in Hcf. apply (decryption_post_skip _ _ _ _ _ _ _ Hp3 Hcf).
  - rewrite Hrun. simpl fst. rewrite ?trace_add_record, ?fs_add_record. exists (new2 ++ new3)%list. simpl.
    split; [rewrite Ht3, Ht2, app_assoc; reflexivity|].
    rewrite !Forall_app.
    split; [split; [stage_forall Hev2 | stage_forall Hev3]|].
    split; [split; [stage_forall Hev2 | stage_forall Hev3]|].
    split.
    + intros Hsf. split; [|stage_forall Hev3].
      apply (stacktrace_post_skip _ _ _ _ _ _ _ Hp2 Hsf).
    + intros Hcf. split; [stage_forall Hev2|].
      rewrite <- Hf2 in Hcf. apply (decryption_post_skip _ _ _ _ _ _ _ Hp3 Hcf).
  - rewrite Hrun. simpl fst. rewrite ?trace_add_record, ?fs_add_record. exists (new2 ++ new3 ++ [EvOpenW (Pathlib.str out)])%list. simpl.
    split; [rewrite Ht3, Ht2, <- !app_assoc; reflexivity|].
    rewrite !Forall_app.
    split; [split; [stage_forall Hev2 | split; [stage_forall Hev3 | dump_events]]|].
    split; [split; [stage_forall Hev2 | split; [stage_forall Hev3 | dump_events]]|].
    split.
    + intros Hsf. split; [|split; [stage_forall Hev3 | dump_events]].
      apply (stacktrace_post_skip _ _ _ _ _ _ _ Hp2 Hsf).
    + intros Hcf. split; [stage_forall Hev2|split; [|dump_events]].
      rewrite <- Hf2 in Hcf. apply (decryption_post_skip _ _ _ _ _ _ _ Hp3 Hcf).
  - rewrite Hw4.
    exists (new2 ++ new3 ++ [EvOpenW (Pathlib.str out); EvJsonDump (snd r3) kws])%list.
    split; [rewrite Ht4, Ht3, Ht2, <- !app_assoc; reflexivity|].
    rewrite !Forall_app.
    split; [split; [stage_forall Hev2 | split; [stage_forall Hev3 | dump_events]]|].
    split; [split; [stage_forall Hev2 | split; [stage_forall Hev3 | dump_events]]|].
    split.
    + intros Hsf. split; [|split; [stage_forall Hev3 | dump_events]].
      apply (stacktrace_post_skip _ _ _ _ _ _ _ Hp2 Hsf).
    + intros Hcf. split; [stage_forall Hev2|split; [|dump_events]].
      rewrite <- Hf2 in Hcf. apply (decryption_post_skip _ _ _ _ _ _ _ Hp3 Hcf).
Qed.

Lemma in_stage_events_dump new2 new3 tail d k :
  Forall (fun ev => stacktrace_stage_event ev = true) new2 ->
  Forall (fun ev => decryption_stage_event ev = true) new3 ->
  In (EvJsonDump d k) (new2 ++ new3 ++ tail)%list -> In (EvJsonDump d k) tail.
Proof.
  intros H2 H3 Hin.
  apply in_app_or in Hin as [Hin|Hin];
    [exfalso; eapply stacktrace_stage_event_not_dump; eauto|].
  apply in_app_or in Hin as [Hin|Hin];
    [exfalso; eapply decryption_stage_event_not_dump; eauto | assumption].
Qed.

(** The files after the enrichment part.  If a document was dumped, the
    output file holds exactly what [json.dump] wrote, the call ends as the
    dump ended, and at least one pass had run; if nothing was dumped, the
    file system is the one the enrichment part started from. *)
Lemma enrich_and_save_files traffic out sf cf kws w1 post :
  trace (fst (enrich_and_save C traffic out sf cf kws w1)) = (trace w1 ++ post)%list ->
  (forall d k, In (EvJsonDump d k) post ->
     fs (fst (enrich_and_save C traffic out sf cf kws w1))
     = <[Pathlib.str out := RegularFile (fst (dump_outcome C d kws))]> (fs w1)
     /\ snd (enrich_and_save C traffic out sf cf kws w1)
        = outcome_of_failure (snd (dump_outcome C d kws))
     /\ (feed_file (fs w1) sf <> None \/ feed_file (fs w1) cf <> None)
     /\ dumped_document C traffic sf cf (fs w1) d)
  /\ ((forall d k, ~ In (EvJsonDump d k) post) ->
      fs (fst (enrich_and_save C traffic out sf cf kws w1)) = fs w1).
Proof.
  destruct (enrich_and_save_cases traffic out sf cf kws w1)
    as [(e & _ & Hrun)
       |(har & w2 & o2 & new2 & Hhar & Hs2 & Ht2 & Hf2 & Hev2 & Hp2 &
         [(e & -> & Hrun)
         |(r2 & w3 & o3 & new3 & -> & Hs3 & Ht3 & Hf3 & Hev3 & Hp3 &
           [(e & -> & Hrun)
           |(r3 & -> & [(Hen & Hrun)|[(Hen & Hd & Hrun)|(Hen & Hd & w4 & Ht4 & Hf4 & Hw4 & Hr4)]])])])].
  - rewrite Hrun; simpl; rewrite ?trace_add_record, ?fs_add_record. intros Hpost.
    assert (post = []) as -> by (rewrite <- (app_nil_r (trace w1)) in Hpost at 1;
                                 apply app_inv_head in Hpost; auto).
    split; [intros d k []|reflexivity].
  - rewrite Hrun; simpl; rewrite ?trace_add_record, ?fs_add_record. rewrite Ht2. intros Hpost. apply app_inv_head in Hpost. subst post.
    split; [|auto].
    intros d k Hin. exfalso. eapply stacktrace_stage_event_not_dump; eauto.
  - rewrite Hrun; simpl; rewrite ?trace_add_record, ?fs_add_record. rewrite Ht3, Ht2, <- app_assoc. intros Hpost.
    apply app_inv_head in Hpost. subst post.
    split; [|congruence].
    intros d k Hin. rewrite <- (app_nil_r new3) in Hin.
    apply in_stage_events_dump in Hin; auto. destruct Hin.
  - rewrite Hrun; simpl; rewrite ?trace_add_record, ?fs_add_record. rewrite Ht3, Ht2, <- app_assoc. intros Hpost.
    apply app_inv_head in Hpost. subst post.
    split; [|congruence].
    intros d k Hin. rewrite <- (app_nil_r new3) in Hin.
    apply in_stage_events_dump in Hin; auto. destruct Hin.
  - rewrite Hrun; simpl; rewrite ?trace_add_record, ?fs_add_record. rewrite Ht3, Ht2, <- !app_assoc. intros Hpost.
    apply app_inv_head in Hpost. subst post.
    split; [|congruence].
    intros d k Hin. apply in_stage_events_dump in Hin; auto.
    destruct Hin as [Hin|[]]. discriminate.
  - rewrite Hw4, Hr4, Ht4, Ht3, Ht2, <- !app_assoc. intros Hpost.
    apply app_inv_head in Hpost. subst post.
    split.
    + intros d k Hin. apply in_stage_events_dump in Hin; auto.
      destruct Hin as [Hin|[Hin|[]]]; [discriminate|].
      injection Hin as <- <-.
      split; [rewrite Hf4, Hf3, Hf2; reflexivity|]. split; [reflexivity|].
      unfold stacktrace_stage_post in Hp2. unfold decryption_stage_post in Hp3.
      rewrite Hf2 in Hp3.
      destruct Hp2 as [(Hsf & -> & _)|(p2 & feed2 & Hsf & Hen2 & Hi2 & He2 & _)];
        destruct Hp3 as [(Hcf & -> & _)|(p3 & feed3 & Hcf & Hen3 & Hi3 & He3 & _)];
        simpl in *; try discriminate.
      * split; [right; congruence|].
        exists har, har. split; [assumption|]. split; [left; auto|]. right. eauto.
      * split; [left; congruence|].
        exists har, (snd r2). split; [assumption|]. split; [right; eauto|]. left. auto.
      * split; [left; congruence|].
        exists har, (snd r2). split; [assumption|]. split; [right; eauto|]. right. eauto.
    + intros Hno. exfalso. apply (Hno (snd r3) kws).
      apply in_or_app; right. apply in_or_app; right. simpl; auto.
Qed.

(** With neither feed to read, the enrichment part writes nothing, logs
    the two absences and returns. *)
Lemma enrich_and_save_skipped traffic out sf cf kws w1 har :
  feed_file (fs w1) sf = None ->
  feed_file (fs w1) cf = None ->
  to_har C traffic = Return har ->
  exists post,
    trace (fst (enrich_and_save C traffic out sf cf kws w1)) = (trace w1 ++ post)%list
    /\ Forall (fun ev => is_write_event ev = false /\ is_enrichment_event ev = false) post
    /\ fs (fst (enrich_and_save C traffic out sf cf kws w1)) = fs w1
    /\ snd (enrich_and_save C traffic out sf cf kws w1) = Return tt.
Proof.
  intros Hsf Hcf Hhar'.
  destruct (enrich_and_save_cases traffic out sf cf kws w1)
    as [(e & Hhar & Hrun)
       |(har0 & w2 & o2 & new2 & Hhar & Hs2 & Ht2 & Hf2 & Hev2 & Hp2 & Hrest)];
    [congruence|].
  destruct (stacktrace_post_skip _ _ _ _ _ _ _ Hp2 Hsf) as (-> & Hn2 & _).
  destruct Hrest as [(e & Habs & _)|(r2 & w3 & o3 & new3 & Hr2 & Hs3 & Ht3 & Hf3 & Hev3 & Hp3 & Hrest)];
    [discriminate|].
  injection Hr2 as <-. simpl in *.
  rewrite <- Hf2 in Hcf.
  destruct (decryption_post_skip _ _ _ _ _ _ _ Hp3 Hcf) as (-> & Hn3 & _).
  destruct Hrest as [(e & Habs & _)|(r3 & Hr3 & Hrest)]; [discriminate|].
  injection Hr3 as <-. simpl in *.
  destruct Hrest as [(_ & Hrun)|[(Habs & _)|(Habs & _)]]; try discriminate.
  rewrite Hrun; simpl; rewrite ?trace_add_record, ?fs_add_record. exists (new2 ++ new3)%list.
  split; [rewrite Ht3, Ht2, app_assoc; reflexivity|].
  split; [|split; [congruence | reflexivity]].
  rewrite Forall_app. split.
  - rewrite Forall_forall in *. intros ev Hin.
    specialize (Hev2 _ Hin). specialize (Hn2 _ Hin). simpl in *.
    destruct ev; simpl in *; try discriminate; auto.
  - rewrite Forall_forall in *. intros ev Hin.
    specialize (Hev3 _ Hin). specialize (Hn3 _ Hin). simpl in *.
    destruct ev; simpl in *; try discriminate; auto.
Qed.

Lemma tshark_used_unique tshark t t' :
  tshark_used C tshark t -> tshark_used C tshark t' -> t = t'.
Proof. unfold tshark_used. intros [H|[H H1]] [H'|[H' H1']]; congruence. Qed.

(** A conflict on the output path stops the driver at once. *)
Lemma checked_conversion_conflict p out tshark kws w :
  out <> p -> fs_exists (fs w) out = true ->
  checked_conversion C p out tshark false kws w
  = (add_event (EvExists (Pathlib.str out)) w,
     Raise (Exn FileExistsError (Pathlib.str out))).
Proof.
  intros Hne Hex. apply Path_eqb_neq in Hne.
  unfold checked_conversion, path_exists, bind, emit, read_fs, raise.
  rewrite Hne. simpl. rewrite Hex. reflexivity.
Qed.

(** A failure of tshark or of the parser is raised as it is. *)
Lemma checked_conversion_decode_error p out tshark ow kws w t e :
  out <> p -> fs_exists (fs w) out && negb ow = false ->
  tshark_used C tshark t ->
  load_and_parse C t p (fs w) = Raise e ->
  snd (checked_conversion C p out tshark ow kws w) = Raise e.
Proof.
  intros Hne Hex Ht Hl. apply Path_eqb_neq in Hne.
  unfold checked_conversion, path_exists, bind, emit, read_fs, raise, ret, lift_outcome.
  rewrite Hne. simpl. rewrite Hex.
  destruct Ht as [->|[-> Hi]]; simpl.
  - rewrite Hl. reflexivity.
  - rewrite Hi. simpl. rewrite Hl. reflexivity.
Qed.

(** Once the first part has returned, the driver is its enrichment part. *)
Lemma pcapng_to_har_after_base input output tshark sf cf ow kws w w1 out traffic :
  base_conversion C input output tshark ow kws w = (w1, Return (out, traffic)) ->
  pcapng_to_har C input output tshark sf cf ow kws w
  = enrich_and_save C traffic out sf cf kws w1.
Proof. intros H. rewrite pcapng_to_har_eq, H. reflexivity. Qed.

(** What is known when the first part has returned. *)
Lemma base_conversion_returns input output tshark ow kws w w1 out traffic :
  base_conversion C input output tshark ow kws w = (w1, Return (out, traffic)) ->
  exists pre t,
    trace w1 = (trace w ++ pre ++ [EvSaveHar (Pathlib.str out) ow kws])%list
    /\ Forall (fun ev => is_write_event ev = false /\ is_enrichment_event ev = false) pre
    /\ log w1 = log w
    /\ output_path input output = Some out
    /\ out <> Pathlib.of_string input
    /\ fs_exists (fs w) out && negb ow = false
    /\ tshark_used C tshark t
    /\ load_and_parse C t (Pathlib.of_string input) (fs w) = Return traffic
    /\ save_har C traffic out ow kws (fs w) = (fs w1, Return tt).
Proof.
  rewrite base_conversion_eq.
  destruct (output_path input output) as [out'|]; [|discriminate].
  pose proof (checked_conversion_spec (Pathlib.of_string input) out' tshark ow kws w) as H.
  intros Hrun. rewrite Hrun in H. simpl in H.
  destruct H as (new & Htr & Hlog & _ & pre & t & -> & Hpre & <- & Hne & Hex & Ht & Hl & Hs).
  exists pre, t. repeat split; auto.
Qed.

End DriverFacts.

(** ** More on the driver *)

Section MoreDriverFacts.

Variable C : Collaborators.

Lemma feed_file_some f x p :
  feed_file f x = Some p -> optional_path x = Some p /\ fs_is_file f p = true.
Proof.
  rewrite feed_file_optional_path.
  destruct (optional_path x) as [q|]; [|discriminate].
  destruct (fs_is_file f q) eqn:Hf; [|discriminate].
  intros H; injection H as <-. auto.
Qed.

(** The stack trace stage when its pass runs and returns. *)
Lemma stacktrace_stage_ran sf en d w p feed d' :
  feed_file (fs w) sf = Some p ->
  Stacktrace_init C d p (fs w) = Return feed ->
  Stacktrace_enrich C feed d = Return d' ->
  stacktrace_stage C sf en d w
  = (mkWorld (fs w)
       (log w ++ kept (logging_level C)
                   [(INFO, "The HAR has been enriched with stacktrace data from "
                           ++ Pathlib.str p)])
       (trace w ++ [EvIsFile (Pathlib.str p); EvStacktrace (Pathlib.str p);
                    EvStacktraceEnrich]),
     Return (true, d')).
Proof.
  intros Hf Hi He. apply feed_file_some in Hf as [Hp Hfile].
  unfold stacktrace_stage, path_is_file, bind, emit, read_fs, ret, logger, lift_outcome.
  rewrite Hp. simpl. rewrite Hfile. simpl. rewrite Hi. simpl. rewrite He. simpl.
  unfold add_record, kept, add_log, add_event. simpl.
  destruct (logging_level C); simpl;
    rewrite <- ?app_assoc, ?app_nil_r; reflexivity.
Qed.

(** The decryption stage when its pass runs and returns. *)
Lemma decryption_stage_ran cf en d w p feed d' :
  feed_file (fs w) cf = Some p ->
  ContentDecryption_init C d p (fs w) = Return feed ->
  ContentDecryption_enrich C feed d = Return d' ->
  decryption_stage C cf en d w
  = (mkWorld (fs w)
       (log w ++ kept (logging_level C)
                   [(INFO, "The HAR has been enriched with decrypted content from "
                           ++ Pathlib.str p)])
       (trace w ++ [EvIsFile (Pathlib.str p); EvContentDecryption (Pathlib.str p);
                    EvContentDecryptionEnrich]),
     Return (true, d')).
Proof.
  intros Hf Hi He. apply feed_file_some in Hf as [Hp Hfile].
  unfold decryption_stage, path_is_file, bind, emit, read_fs, ret, logger, lift_outcome.
  rewrite Hp. simpl. rewrite Hfile. simpl. rewrite Hi. simpl. rewrite He. simpl.
  unfold add_record, kept, add_log, add_event. simpl.
  destruct (logging_level C); simpl;
    rewrite <- ?app_assoc, ?app_nil_r; reflexivity.
Qed.

End MoreDriverFacts.

(** * The claims *)

(** C2: fatal errors abort before any output is written.  If the output
    file exists and overwriting is not allowed, the call raises
    [FileExistsError] having done nothing but look at the output path.  If
    loading or parsing the capture fails, the call raises with the file
    system as it found it and without a single writing call.  In general,
    as long as [save_har] has not been called, nothing has been written. *)
Theorem fatal_errors_write_nothing (C : Collaborators)
    (input : string) (output : option string) (tshark : option Tshark)
    (sf cf : option string) (ow : bool) (kws : kwargs) (w : World) :
  (forall out,
      output_path input output = Some out ->
      out <> Pathlib.of_string input ->
      fs_exists (fs w) out = true -> ow = false ->
      pcapng_to_har C input output tshark sf cf ow kws w
      = (add_event (EvExists (Pathlib.str out)) w,
         Raise (Exn FileExistsError (Pathlib.str out))))
  /\ (forall t e,
        tshark_used C tshark t ->
        load_and_parse C t (Pathlib.of_string input) (fs w) = Raise e ->
        (exists e', snd (pcapng_to_har C input output tshark sf cf ow kws w) = Raise e')
        /\ fs (fst (pcapng_to_har C input output tshark sf cf ow kws w)) = fs w
        /\ (exists new,
              trace (fst (pcapng_to_har C input output tshark sf cf ow kws w))
              = (trace w ++ new)%list
              /\ Forall (fun ev => is_write_event ev = false) new)
        /\ (forall out,
              output_path input output = Some out ->
              out <> Pathlib.of_string input ->
              fs_exists (fs w) out && negb ow = false ->
              snd (pcapng_to_har C input output tshark sf cf ow kws w) = Raise e))
  /\ (exists new,
        trace (fst (pcapng_to_har C input output tshark sf cf ow kws w))
        = (trace w ++ new)%list
        /\ (Forall (fun ev => is_save_har_event ev = false) new ->
            fs (fst (pcapng_to_har C input output tshark sf cf ow kws w)) = fs w
            /\ exists e, snd (pcapng_to_har C input output tshark sf cf ow kws w) = Raise e)).
Proof.
  rewrite pcapng_to_har_eq, base_conversion_eq.
  split; [|split].
  - intros out Hout Hne Hex ->. rewrite Hout.
    rewrite checked_conversion_conflict by assumption. reflexivity.
  - intros t e Ht Hl.
    destruct (output_path input output) as [out|].
    2:{ simpl. split; [eauto|]. split; [reflexivity|].
        split; [exists []; rewrite app_nil_r; split; [reflexivity|constructor]|].
        intros out Habs; discriminate. }
    pose proof (checked_conversion_spec C (Pathlib.of_string input) out tshark ow kws w) as H.
    pose proof (checked_conversion_decode_error C (Pathlib.of_string input) out tshark ow kws w t e)
      as Hdec.
    destruct (checked_conversion C (Pathlib.of_string input) out tshark ow kws w) as [w1 [r|e1]];
      simpl in *; destruct H as (new & Htr & _ & _ & H).
    + destruct H as (pre & t' & _ & _ & _ & _ & _ & Ht' & Hl' & _).
      rewrite (tshark_used_unique C _ _ _ Ht Ht') in Hl. congruence.
    + destruct H as [(Hfs & Hnw)|(pre & traffic & t' & _ & _ & Ht' & Hl' & _)].
      * split; [eauto|]. split; [assumption|].
        split.
        -- exists new. split; [assumption|].
           eapply List.Forall_impl; [|exact Hnw]. intros ev [H1 _]; exact H1.
        -- intros out' Ho Hne Hex. injection Ho as <-.
           specialize (Hdec Hne Hex Ht Hl). congruence.
      * rewrite (tshark_used_unique C _ _ _ Ht Ht') in Hl. congruence.
  - destruct (output_path input output) as [out|].
    2:{ simpl. exists []. rewrite app_nil_r. split; [reflexivity|]. eauto. }
    pose proof (checked_conversion_spec C (Pathlib.of_string input) out tshark ow kws w) as H.
    destruct (checked_conversion C (Pathlib.of_string input) out tshark ow kws w) as [w1 [r|e1]];
      simpl in *; destruct H as (new & Htr & _ & _ & H).
    + destruct H as (pre & t' & -> & _).
      destruct (enrich_and_save_events C (snd r) (fst r) sf cf kws w1) as (post & Hpost & _).
      exists ((pre ++ [EvSaveHar (Pathlib.str out) ow kws]) ++ post)%list.
      split; [rewrite Hpost, Htr, <- !app_assoc; reflexivity|].
      intros Hno. exfalso.
      rewrite !Forall_app in Hno. destruct Hno as [[_ Hno] _].
      inversion Hno; subst. discriminate.
    + exists new. split; [assumption|].
      destruct H as [(Hfs & _)|(pre & traffic & t' & -> & _)].
      * eauto.
      * intros Hno. exfalso. rewrite Forall_app in Hno. destruct Hno as [_ Hno].
        inversion Hno; subst. discriminate.
Qed.

(** The two fatal errors on concrete runs: the default output path is
    taken, and tshark fails. *)
Lemma fatal_errors_write_nothing_witness :
  pcapng_to_har (Fixture.collaborators Fixture.scenario0)
    "capture.pcapng" None None None None false [] Fixture.world_conflict
  = (add_event (EvExists "capture.har") Fixture.world_conflict,
     Raise (Exn FileExistsError "capture.har"))
  /\ snd (pcapng_to_har (Fixture.collaborators Fixture.scenario_decode_error)
            "capture.pcapng" None None None None false [] Fixture.world0)
     = Raise (Exn (OtherException "CalledProcessError") "tshark").
Proof.
  split.
  - apply (proj1 (fatal_errors_write_nothing (Fixture.collaborators Fixture.scenario0)
                    "capture.pcapng" None None None None false [] Fixture.world_conflict)
             (Pathlib.of_string "capture.har")).
    + reflexivity.
    + intros H; vm_compute in H; discriminate H.
    + vm_compute; reflexivity.
    + reflexivity.
  - apply (proj1 (proj2 (fatal_errors_write_nothing
                           (Fixture.collaborators Fixture.scenario_decode_error)
                           "capture.pcapng" None None None None false [] Fixture.world0))
             (mkTshark None) (Exn (OtherException "CalledProcessError") "tshark"))
      with (out := Pathlib.of_string "capture.har").
    + right. split; reflexivity.
    + reflexivity.
    + reflexivity.
    + intros H; vm_compute in H; discriminate H.
    + vm_compute; reflexivity.
Defined.

(** C6: when the driver reaches the enrichment stage, the unenriched HAR
    has been saved to the output path by a [save_har] call that returned,
    and no enrichment call was made before it.  From then on the saved file
    is replaced only by a dump: a pass that raises ends the call with the
    files as [save_har] left them, and so do two skipped passes. *)
Theorem base_har_persisted_first (C : Collaborators)
    (input : string) (output : option string) (tshark : option Tshark)
    (sf cf : option string) (ow : bool) (kws : kwargs)
    (w w1 : World) (out : Path) (traffic : Traffic C) :
  base_conversion C input output tshark ow kws w = (w1, Return (out, traffic)) ->
  (exists pre,
      trace w1 = (trace w ++ pre ++ [EvSaveHar (Pathlib.str out) ow kws])%list
      /\ Forall (fun ev => is_enrichment_event ev = false) pre
      /\ save_har C traffic out ow kws (fs w) = (fs w1, Return tt))
  /\ (exists post,
        trace (fst (pcapng_to_har C input output tshark sf cf ow kws w))
        = (trace w1 ++ post)%list
        /\ ((forall d k, ~ In (EvJsonDump d k) post) ->
            fs (fst (pcapng_to_har C input output tshark sf cf ow kws w)) = fs w1))
  /\ (forall har,
        to_har C traffic = Return har ->
        (forall w2 e,
            stacktrace_stage C sf false har w1 = (w2, Raise e) ->
            pcapng_to_har C input output tshark sf cf ow kws w = (w2, Raise e)
            /\ fs w2 = fs w1)
        /\ (forall w2 r2 w3 e,
              stacktrace_stage C sf false har w1 = (w2, Return r2) ->
              decryption_stage C cf (fst r2) (snd r2) w2 = (w3, Raise e) ->
              pcapng_to_har C input output tshark sf cf ow kws w = (w3, Raise e)
              /\ fs w3 = fs w1)
        /\ (feed_file (fs w1) sf = None ->
            feed_file (fs w1) cf = None ->
            snd (pcapng_to_har C input output tshark sf cf ow kws w) = Return tt
            /\ fs (fst (pcapng_to_har C input output tshark sf cf ow kws w)) = fs w1)).
Proof.
  intros Hbase.
  rewrite (pcapng_to_har_after_base C _ _ _ sf cf _ _ _ _ _ _ Hbase).
  destruct (base_conversion_returns C _ _ _ _ _ _ _ _ _ Hbase)
    as (pre & t & Htr & Hpre & _ & _ & _ & _ & _ & _ & Hsave).
  split; [|split].
  - exists pre. repeat split; auto.
    eapply List.Forall_impl; [|exact Hpre]. intros ev [_ H]; exact H.
  - destruct (enrich_and_save_events C traffic out sf cf kws w1) as (post & Hpost & _).
    exists post. split; [assumption|].
    apply (enrich_and_save_files C traffic out sf cf kws w1 post Hpost).
  - intros har Hhar. split; [|split].
    + intros w2 e Hs2. rewrite enrich_and_save_eq, Hhar, Hs2. split; [reflexivity|].
      destruct (stacktrace_stage_spec C sf false har w1) as (new & _ & Hfs & _).
      rewrite Hs2 in Hfs. exact Hfs.
    + intros w2 r2 w3 e Hs2 Hs3. rewrite enrich_and_save_eq, Hhar, Hs2, Hs3.
      split; [reflexivity|].
      destruct (stacktrace_stage_spec C sf false har w1) as (new & _ & Hfs & _).
      destruct (decryption_stage_spec C cf (fst r2) (snd r2) w2) as (new' & _ & Hfs' & _).
      rewrite Hs2 in Hfs. rewrite Hs3 in Hfs'. simpl in *. congruence.
    + intros Hsf Hcf.
      destruct (enrich_and_save_skipped C traffic out sf cf kws w1 har Hsf Hcf Hhar)
        as (post & _ & _ & Hfs & Hr).
      auto.
Qed.

(** A run with no feed at all returns with the files of the first save. *)
Lemma base_har_persisted_first_witness :
  let C := Fixture.collaborators Fixture.scenario0 in
  let run := pcapng_to_har C "capture.pcapng" None None None None false [] Fixture.world0 in
  snd run = Return tt
  /\ fs (fst run)
     = fs (fst (base_conversion C "capture.pcapng" None None false [] Fixture.world0)).
Proof.
  intros C run.
  assert (Hbase : base_conversion C "capture.pcapng" None None false [] Fixture.world0
                  = (fst (base_conversion C "capture.pcapng" None None false [] Fixture.world0),
                     Return (Pathlib.of_string "capture.har", Fixture.document0)))
    by (vm_compute; reflexivity).
  destruct (base_har_persisted_first C "capture.pcapng" None None None None false []
              Fixture.world0 _ _ _ Hbase) as (_ & _ & H).
  destruct (H Fixture.document0 eq_refl) as (_ & _ & Hskip).
  apply Hskip; vm_compute; reflexivity.
Defined.

(** C3, as stated, fails: with a socket-operation feed that holds no
    record, the stack trace pass leaves the document as it is, and the
    document is dumped into the output file all the same.  The statement
    refuted: whenever a document is dumped, it differs from the unenriched
    one. *)
Lemma reserialized_without_change :
  ~ (forall (C : Collaborators) input sf cf w t traffic d k,
        load_and_parse C t (Pathlib.of_string input) (fs w) = Return traffic ->
        In (EvJsonDump d k)
           (trace (fst (pcapng_to_har C input None (Some t) sf cf false [] w))) ->
        to_har C traffic <> Return d).
Proof.
  intros H.
  apply (H (Fixture.collaborators Fixture.scenario_empty_feed)
           "capture.pcapng" (Some "socket_trace.json") None Fixture.world0
           (mkTshark None) Fixture.document0 Fixture.document0 []).
  - reflexivity.
  - vm_compute. auto 20.
  - reflexivity.
Qed.

(** C3, amended: after the enrichment stage the document is dumped only if
    at least one pass ran, that is, only if a feed names a regular file; a
    call that returns having run a pass has dumped the document, changed or
    not.  If neither pass ran, nothing is written and the file system is
    the one the first save left. *)
Theorem reserialized_iff_a_pass_ran (C : Collaborators)
    (input : string) (output : option string) (tshark : option Tshark)
    (sf cf : option string) (ow : bool) (kws : kwargs)
    (w w1 : World) (out : Path) (traffic : Traffic C) :
  base_conversion C input output tshark ow kws w = (w1, Return (out, traffic)) ->
  exists post,
    trace (fst (pcapng_to_har C input output tshark sf cf ow kws w)) = (trace w1 ++ post)%list
    /\ (forall d k, In (EvJsonDump d k) post ->
          feed_file (fs w1) sf <> None \/ feed_file (fs w1) cf <> None)
    /\ (snd (pcapng_to_har C input output tshark sf cf ow kws w) = Return tt ->
        feed_file (fs w1) sf <> None \/ feed_file (fs w1) cf <> None ->
        exists d, In (EvJsonDump d kws) post
                  /\ dumped_document C traffic sf cf (fs w1) d)
    /\ (feed_file (fs w1) sf = None ->
        feed_file (fs w1) cf = None ->
        Forall (fun ev => is_write_event ev = false) post
        /\ fs (fst (pcapng_to_har C input output tshark sf cf ow kws w)) = fs w1).
Proof.
  intros Hbase.
  rewrite (pcapng_to_har_after_base C _ _ _ sf cf _ _ _ _ _ _ Hbase).
  destruct (enrich_and_save_events C traffic out sf cf kws w1) as (post & Hpost & _).
  exists post. split; [assumption|].
  destruct (enrich_and_save_files C traffic out sf cf kws w1 post Hpost) as [Hdump Hnodump].
  split; [|split].
  - intros d k Hin. apply (Hdump d k Hin).
  - intros Hret Hran.
    destruct (enrich_and_save_cases C traffic out sf cf kws w1)
      as [(e & _ & Hrun)
         |(har & w2 & o2 & new2 & Hhar & Hs2 & Ht2 & Hf2 & Hev2 & Hp2 &
           [(e & -> & Hrun)
           |(r2 & w3 & o3 & new3 & -> & Hs3 & Ht3 & Hf3 & Hev3 & Hp3 &
             [(e & -> & Hrun)
             |(r3 & -> & [(Hen & Hrun)|[(Hen & Hd & Hrun)|(Hen & Hd & w4 & Ht4 & Hf4 & Hw4 & Hr4)]])])])];
      try (rewrite Hrun in Hret; discriminate).
    + exfalso.
      unfold stacktrace_stage_post in Hp2. unfold decryption_stage_post in Hp3.
      rewrite Hf2 in Hp3.
      destruct Hp2 as [(Hsf & -> & _)|(p2 & feed2 & Hsf & Hen2 & _)];
        destruct Hp3 as [(Hcf & -> & _)|(p3 & feed3 & Hcf & Hen3 & _)];
        simpl in *; try congruence.
      destruct Hran; congruence.
    + assert (Hin : In (EvJsonDump (snd r3) kws) post).
      { rewrite Hw4, Ht4, Ht3, Ht2, <- !app_assoc in Hpost.
        apply app_inv_head in Hpost. subst post.
        apply in_or_app; right. apply in_or_app; right. simpl; auto. }
      exists (snd r3). split; [assumption|]. apply (Hdump _ _ Hin).
  - intros Hsf Hcf.
    assert (Hno : forall d k, ~ In (EvJsonDump d k) post).
    { intros d k Hin. destruct (Hdump d k Hin) as (_ & _ & [Habs|Habs] & _); congruence. }
    split; [|apply Hnodump; assumption].
    destruct (to_har C traffic) as [har|e] eqn:Hhar.
    + destruct (enrich_and_save_skipped C traffic out sf cf kws w1 har Hsf Hcf Hhar)
        as (post' & Hpost' & Hnw & _).
      rewrite Hpost in Hpost'. apply app_inv_head in Hpost'. subst post'.
      eapply List.Forall_impl; [|exact Hnw]. intros ev [H1 _]; exact H1.
    + rewrite enrich_and_save_eq, Hhar in Hpost. simpl in Hpost.
      rewrite <- (app_nil_r (trace w1)) in Hpost at 1.
      apply app_inv_head in Hpost. subst post. constructor.
Qed.

(** With an empty socket-operation feed the unenriched document itself is
    dumped. *)
Lemma reserialized_iff_a_pass_ran_witness :
  let C := Fixture.collaborators Fixture.scenario_empty_feed in
  exists post,
    trace (fst (pcapng_to_har C "capture.pcapng" None None
                  (Some "socket_trace.json") None false [] Fixture.world0))
    = (trace (fst (base_conversion C "capture.pcapng" None None false [] Fixture.world0))
       ++ post)%list
    /\ In (EvJsonDump Fixture.document0 []) post.
Proof.
  intros C.
  assert (Hbase : base_conversion C "capture.pcapng" None None false [] Fixture.world0
                  = (fst (base_conversion C "capture.pcapng" None None false [] Fixture.world0),
                     Return (Pathlib.of_string "capture.har", Fixture.document0)))
    by (vm_compute; reflexivity).
  destruct (reserialized_iff_a_pass_ran C "capture.pcapng" None None
              (Some "socket_trace.json") None false [] Fixture.world0 _ _ _ Hbase)
    as (post & Hpost & _ & Hran & _).
  exists post. split; [exact Hpost|].
  destruct Hran as (d & Hin & (har & d1 & Hhar & Hd1 & Hd)).
  - vm_compute; reflexivity.
  - left. vm_compute. discriminate.
  - assert (d = Fixture.document0) as ->; [|exact Hin].
    injection Hhar as <-.
    destruct Hd as [(_ & ->)|(p & feed & Habs & _)]; [|vm_compute in Habs; discriminate].
    destruct Hd1 as [(Habs & _)|(p & feed & _ & Hi & He)]; [vm_compute in Habs; discriminate|].
    injection Hi as <-. injection He as <-. reflexivity.
Defined.

(** C5, as stated, fails: when [json.dump] gives up during the second
    serialization, the call is aborted and the output path holds the few
    characters written so far: neither what was there before the call nor
    the unenriched HAR that [save_har] had written.  The statement refuted:
    after an aborted call the output path holds what it held before, or
    what [save_har] wrote. *)
Lemma partial_output_left_behind :
  ~ (forall (C : Collaborators) input sf cf w t traffic out e,
        snd (pcapng_to_har C input None (Some t) sf cf false [] w) = Raise e ->
        output_path input None = Some out ->
        load_and_parse C t (Pathlib.of_string input) (fs w) = Return traffic ->
        fs (fst (pcapng_to_har C input None (Some t) sf cf false [] w)) !! Pathlib.str out
        = fs w !! Pathlib.str out
        \/ fs (fst (pcapng_to_har C input None (Some t) sf cf false [] w)) !! Pathlib.str out
           = fst (save_har C traffic out false [] (fs w)) !! Pathlib.str out).
Proof.
  intros H.
  destruct (H (Fixture.collaborators Fixture.scenario_failing_dump)
              "capture.pcapng" (Some "socket_trace.json") None Fixture.world0
              (mkTshark None) Fixture.document0 (Pathlib.of_string "capture.har")
              (Exn TypeError "Object of type bytes is not JSON serializable")
              eq_refl eq_refl eq_refl) as [Habs|Habs];
    vm_compute in Habs; discriminate Habs.
Qed.

(** C5, amended: there is no temporary file and no atomic publication.
    After the first save the only file the driver opens for writing is the
    output path itself.  A call that ends before the second serialization
    leaves the files as the first save left them; once the dump has
    started, the output file holds exactly the text [json.dump] wrote,
    complete or not, and the call ends as the dump ended. *)
Theorem enriched_save_is_in_place (C : Collaborators)
    (input : string) (output : option string) (tshark : option Tshark)
    (sf cf : option string) (ow : bool) (kws : kwargs)
    (w w1 : World) (out : Path) (traffic : Traffic C) :
  base_conversion C input output tshark ow kws w = (w1, Return (out, traffic)) ->
  exists post,
    trace (fst (pcapng_to_har C input output tshark sf cf ow kws w)) = (trace w1 ++ post)%list
    /\ Forall (fun ev => is_save_har_event ev = false
                         /\ forall p, ev = EvOpenW p -> p = Pathlib.str out) post
    /\ ((forall d k, ~ In (EvJsonDump d k) post) ->
        fs (fst (pcapng_to_har C input output tshark sf cf ow kws w)) = fs w1)
    /\ (forall d k, In (EvJsonDump d k) post ->
          fs (fst (pcapng_to_har C input output tshark sf cf ow kws w))
          = <[Pathlib.str out := RegularFile (fst (dump_outcome C d kws))]> (fs w1)
          /\ snd (pcapng_to_har C input output tshark sf cf ow kws w)
             = outcome_of_failure (snd (dump_outcome C d kws))).
Proof.
  intros Hbase.
  rewrite (pcapng_to_har_after_base C _ _ _ sf cf _ _ _ _ _ _ Hbase).
  destruct (enrich_and_save_events C traffic out sf cf kws w1) as (post & Hpost & _ & Hopen & _).
  exists post. split; [assumption|]. split; [assumption|].
  destruct (enrich_and_save_files C traffic out sf cf kws w1 post Hpost) as [Hdump Hnodump].
  split; [assumption|].
  intros d k Hin. destruct (Hdump d k Hin) as (H1 & H2 & _). auto.
Qed.

(** A dump that fails after four characters leaves those four characters
    in the output file. *)
Lemma enriched_save_is_in_place_witness :
  let C := Fixture.collaborators Fixture.scenario_failing_dump in
  let run := pcapng_to_har C "capture.pcapng" None None
               (Some "socket_trace.json") None false [] Fixture.world0 in
  fs (fst run) !! "capture.har" = Some (RegularFile "http")
  /\ snd run = Raise (Exn TypeError "Object of type bytes is not JSON serializable").
Proof.
  intros C run.
  assert (Hbase : base_conversion C "capture.pcapng" None None false [] Fixture.world0
                  = (fst (base_conversion C "capture.pcapng" None None false [] Fixture.world0),
                     Return (Pathlib.of_string "capture.har", Fixture.document0)))
    by (vm_compute; reflexivity).
  destruct (enriched_save_is_in_place C "capture.pcapng" None None
              (Some "socket_trace.json") None false [] Fixture.world0 _ _ _ Hbase)
    as (post & Hpost & _ & _ & Hdump).
  assert (Hin : In (EvJsonDump (Fixture.stacktrace_pass [Fixture.socket_op0]
                                  Fixture.document0) []) post).
  { vm_compute in Hpost. inversion Hpost; subst. vm_compute. auto 10. }
  destruct (Hdump _ _ Hin) as [Hfs Hr].
  subst run. rewrite Hfs, Hr. split; [|reflexivity].
  rewrite lookup_insert_eq. reflexivity.
Defined.

(** C7: when the cryptography feed is omitted (not given, empty, or not a
    regular file), no call is made into the decryption class; the document
    that is dumped, if any, is the unenriched one or the result of the
    stack trace pass on it, so that its bodies are those of the unenriched
    document as long as the stack trace pass keeps to the extension area;
    and when nothing is dumped the file of the first save stands. *)
Theorem omitted_crypto_feed_keeps_contents (C : Collaborators)
    (input : string) (output : option string) (tshark : option Tshark)
    (sf cf : option string) (ow : bool) (kws : kwargs)
    (w w1 : World) (out : Path) (traffic : Traffic C) (har : HarDocument) :
  base_conversion C input output tshark ow kws w = (w1, Return (out, traffic)) ->
  to_har C traffic = Return har ->
  feed_file (fs w1) cf = None ->
  exists post,
    trace (fst (pcapng_to_har C input output tshark sf cf ow kws w)) = (trace w1 ++ post)%list
    /\ Forall (fun ev => is_decryption_event ev = false) post
    /\ ((forall d k, ~ In (EvJsonDump d k) post) ->
        fs (fst (pcapng_to_har C input output tshark sf cf ow kws w)) = fs w1)
    /\ (forall d k, In (EvJsonDump d k) post ->
          (d = har \/ exists feed, Stacktrace_enrich C feed har = Return d)
          /\ ((forall feed d0 d',
                  Stacktrace_enrich C feed d0 = Return d' ->
                  document_contents d' = document_contents d0) ->
              document_contents d = document_contents har)).
Proof.
  intros Hbase Hhar Hcf.
  rewrite (pcapng_to_har_after_base C _ _ _ sf cf _ _ _ _ _ _ Hbase).
  destruct (enrich_and_save_events C traffic out sf cf kws w1)
    as (post & Hpost & _ & _ & _ & Hnodec).
  exists post. split; [assumption|]. split; [auto|].
  destruct (enrich_and_save_files C traffic out sf cf kws w1 post Hpost) as [Hdump Hnodump].
  split; [assumption|].
  intros d k Hin.
  destruct (Hdump d k Hin) as (_ & _ & _ & (har' & d1 & Hhar' & Hd1 & Hd)).
  assert (har' = har) as -> by congruence.
  destruct Hd as [(_ & ->)|(p & feed & Habs & _)]; [|congruence].
  destruct Hd1 as [(_ & ->)|(p & feed & _ & _ & He)].
  - split; [left; reflexivity | reflexivity].
  - split; [right; eauto|]. intros Hframe. eapply Hframe; eauto.
Qed.

(** With the passes of [Enrichment] and no cryptography feed, the dumped
    document has the bodies of the unenriched one. *)
Lemma omitted_crypto_feed_keeps_contents_witness :
  let C := Fixture.collaborators Fixture.scenario0 in
  exists post,
    trace (fst (pcapng_to_har C "capture.pcapng" None None
                  (Some "socket_trace.json") None false [] Fixture.world0))
    = (trace (fst (base_conversion C "capture.pcapng" None None false [] Fixture.world0))
       ++ post)%list
    /\ Forall (fun ev => is_decryption_event ev = false) post
    /\ forall d k, In (EvJsonDump d k) post ->
                   document_contents d = document_contents Fixture.document0.
Proof.
  intros C.
  assert (Hbase : base_conversion C "capture.pcapng" None None false [] Fixture.world0
                  = (fst (base_conversion C "capture.pcapng" None None false [] Fixture.world0),
                     Return (Pathlib.of_string "capture.har", Fixture.document0)))
    by (vm_compute; reflexivity).
  destruct (omitted_crypto_feed_keeps_contents C "capture.pcapng" None None
              (Some "socket_trace.json") None false [] Fixture.world0 _ _ _
              Fixture.document0 Hbase eq_refl eq_refl)
    as (post & Hpost & Hnodec & _ & Hdump).
  exists post. split; [exact Hpost|]. split; [exact Hnodec|].
  intros d k Hin. apply (Hdump d k Hin).
  intros feed d0 d' He. injection He as <-.
  apply stacktrace_enrich_contents.
Defined.




(** C4, as stated, fails in its last part: the record that reports a
    missing feed is logged with [logger.error], so its level is ERROR, not
    WARNING.  The statement refuted: a stage that finds no feed file logs a
    WARNING record. *)
Lemma missing_feed_not_a_warning :
  ~ (forall (C : Collaborators) sf en d w,
        feed_file (fs w) sf = None ->
        exists msg,
          log (fst (stacktrace_stage C sf en d w)) = (log w ++ [(WARNING, msg)])%list).
Proof.
  intros H.
  destruct (H (Fixture.collaborators Fixture.scenario0) None false
              Fixture.document0 Fixture.world0 eq_refl) as (msg & Hlog).
  vm_compute in Hlog. discriminate Hlog.
Qed.

(** C4, amended: when the feed of a pass is not given, is empty, or does
    not name a regular file, the stage raises nothing, calls nothing of its
    enrichment class, leaves the files, the flag and the document as they
    are, and reports the absence with one log record of level ERROR. *)
Theorem missing_feed_skips_the_pass (C : Collaborators)
    (feed : option string) (en : bool) (d : HarDocument) (w : World) :
  feed_file (fs w) feed = None ->
  (snd (stacktrace_stage C feed en d w) = Return (en, d)
   /\ fs (fst (stacktrace_stage C feed en d w)) = fs w
   /\ log (fst (stacktrace_stage C feed en d w))
      = (log w ++ [(ERROR, "Invalid stacktrace data input file, skip enrichment")])%list
   /\ exists new,
       trace (fst (stacktrace_stage C feed en d w)) = (trace w ++ new)%list
       /\ Forall (fun ev => is_stacktrace_event ev = false) new)
  /\ (snd (decryption_stage C feed en d w) = Return (en, d)
      /\ fs (fst (decryption_stage C feed en d w)) = fs w
      /\ log (fst (decryption_stage C feed en d w))
         = (log w ++ [(ERROR, "Invalid decryption data input file, skip enrichment")])%list
      /\ exists new,
          trace (fst (decryption_stage C feed en d w)) = (trace w ++ new)%list
          /\ Forall (fun ev => is_decryption_event ev = false) new).
Proof.
  intros Hfeed. split.
  - destruct (stacktrace_stage_spec C feed en d w) as (new & Htr & Hfs & _ & Hpost).
    destruct (stacktrace_post_skip C _ _ _ _ _ _ _ Hpost Hfeed) as (Hr & Hn & Hl).
    repeat split; auto. exists new; auto.
  - destruct (decryption_stage_spec C feed en d w) as (new & Htr & Hfs & _ & Hpost).
    destruct (decryption_post_skip C _ _ _ _ _ _ _ Hpost Hfeed) as (Hr & Hn & Hl).
    repeat split; auto. exists new; auto.
Qed.

(** A feed path that names no file. *)
Lemma missing_feed_skips_the_pass_witness :
  let C := Fixture.collaborators Fixture.scenario0 in
  snd (stacktrace_stage C (Some "no_such_file.json") false Fixture.document0 Fixture.world0)
  = Return (false, Fixture.document0)
  /\ log (fst (stacktrace_stage C (Some "no_such_file.json") false
                 Fixture.document0 Fixture.world0))
     = [(ERROR, "Invalid stacktrace data input file, skip enrichment")].
Proof.
  intros C.
  destruct (missing_feed_skips_the_pass C (Some "no_such_file.json") false
              Fixture.document0 Fixture.world0) as [(Hr & _ & Hl & _) _].
  - vm_compute; reflexivity.
  - split; [exact Hr | exact Hl].
Defined.

(** C9, as stated, fails for a name that ends in [.har] but has no suffix
    in the sense of pathlib: the name [.har] is all stem, the default output
    path is [.har.har], the assertion holds and the conversion goes
    ahead. *)
Lemma dot_har_is_converted :
  Pathlib.ends_with (Pathlib.name (Pathlib.of_string ".har")) ".har" = true
  /\ snd (pcapng_to_har (Fixture.collaborators Fixture.scenario0)
            ".har" None None None None false []
            (mkWorld {[ ".har" := RegularFile "pcapng" ]} [] []))
     = Return tt
  /\ fs (fst (pcapng_to_har (Fixture.collaborators Fixture.scenario0)
                ".har" None None None None false []
                (mkWorld {[ ".har" := RegularFile "pcapng" ]} [] [])))
     !! ".har.har" = Some (RegularFile "http://h/a c2Vj;").
Proof. vm_compute. auto. Qed.

(** C9, amended: with no output path given, the output path is the input
    path with its suffix replaced by [.har] (appended when the name has no
    suffix), and it is the first thing the driver looks at.  The assertion
    fires exactly when the suffix of the input name, in the sense of
    pathlib, already is [.har]: then the call raises [AssertionError] with
    the world untouched, no file having been read or written.  A path with
    an empty name is rejected by pathlib before that. *)
Theorem default_output_path (C : Collaborators)
    (input : string) (tshark : option Tshark)
    (sf cf : option string) (ow : bool) (kws : kwargs) (w : World) :
  (Pathlib.suffix (Pathlib.of_string input) = ".har" ->
   pcapng_to_har C input None tshark sf cf ow kws w
   = (w, Raise (Exn AssertionError (Pathlib.str (Pathlib.of_string input)))))
  /\ (forall out,
        Pathlib.with_suffix (Pathlib.of_string input) ".har" = Some out ->
        Pathlib.suffix (Pathlib.of_string input) <> ".har" ->
        out <> Pathlib.of_string input
        /\ Pathlib.root out = Pathlib.root (Pathlib.of_string input)
        /\ removelast (Pathlib.parts out) = removelast (Pathlib.parts (Pathlib.of_string input))
        /\ Pathlib.suffix out = ".har"
        /\ exists rest,
            trace (fst (pcapng_to_har C input None tshark sf cf ow kws w))
            = (trace w ++ EvExists (Pathlib.str out) :: rest)%list)
  /\ (Pathlib.with_suffix (Pathlib.of_string input) ".har" = None ->
      exists msg, pcapng_to_har C input None tshark sf cf ow kws w
                  = (w, Raise (Exn ValueError msg))).
Proof.
  rewrite pcapng_to_har_eq, base_conversion_eq. unfold output_path.
  split; [|split].
  - intros Hs. rewrite (with_suffix_har_fixpoint _ Hs).
    unfold checked_conversion.
    rewrite (proj2 (Path_eqb_eq _ _) eq_refl). reflexivity.
  - intros out Hout Hs. rewrite Hout.
    assert (Hne : out <> Pathlib.of_string input).
    { intros ->. apply Hs. apply with_suffix_har_same. assumption. }
    destruct (with_suffix_har_shape _ _ Hout) as (Hroot & Hparts & Hsuf).
    do 4 (split; [assumption|]).
    pose proof (checked_conversion_spec C (Pathlib.of_string input) out tshark ow kws w) as H.
    destruct (checked_conversion C (Pathlib.of_string input) out tshark ow kws w) as [w1 [r|e]];
      simpl in *; destruct H as (new & Htr & _ & Hfirst & _);
      destruct (Hfirst Hne) as (rest & ->).
    + destruct (enrich_and_save_events C (snd r) (fst r) sf cf kws w1) as (post & Hpost & _).
      exists (rest ++ post)%list. rewrite Hpost, Htr, <- app_assoc. reflexivity.
    + exists rest. assumption.
  - intros Hnone. rewrite Hnone. eauto.
Qed.

(** An input named [old.har] trips the assertion. *)
Lemma default_output_path_witness :
  pcapng_to_har (Fixture.collaborators Fixture.scenario0)
    "captures/old.har" None None None None false [] Fixture.world0
  = (Fixture.world0, Raise (Exn AssertionError "captures/old.har")).
Proof.
  apply (proj1 (default_output_path (Fixture.collaborators Fixture.scenario0)
                  "captures/old.har" None None None false [] Fixture.world0)).
  reflexivity.
Defined.

(** ** The command line entry point *)

Section CliFacts.

Variable C : Collaborators.

(** How the call of [cli] binds: the misspelt keyword matches no
    parameter and lands in [json_dump_kws]; the parameter
    [cryptography_operations_file] keeps its default. *)
Lemma cli_call_binding (args : Namespace) (t : Tshark) :
  call_pcapng_to_har C
    [PStr (ns_i args); of_opt_str (ns_o args)]
    [("tshark", PTshark t);
     ("overwrite", PBool (ns_force args));
     ("socket_operations_file", of_opt_str (ns_socket_operations_file args));
     ("cryptographic_operations_file", of_opt_str (ns_cryptography_operations_file args))]
  = pcapng_to_har C (ns_i args) (ns_o args) (Some t)
      (ns_socket_operations_file args) None (ns_force args) (stray_keyword args).
Proof.
  unfold call_pcapng_to_har, stray_keyword.
  destruct (ns_o args), (ns_socket_operations_file args), (ns_force args); reflexivity.
Qed.

(** [cli_call] is the driver, called with no cryptography feed and with
    the stray keyword among the keywords of the serialization. *)
Lemma cli_call_eq (args : Namespace) (w : World) :
  cli_call C args w
  = match Tshark_init C (Some (ns_tshark args)) with
    | Return t =>
        pcapng_to_har C (ns_i args) (ns_o args) (Some t)
          (ns_socket_operations_file args) None (ns_force args) (stray_keyword args)
          (add_event (EvTshark (Some (ns_tshark args))) w)
    | Raise e => (add_event (EvTshark (Some (ns_tshark args))) w, Raise e)
    end.
Proof.
  unfold cli_call. unfold bind at 1. unfold emit at 1. unfold bind at 1, lift_outcome at 1.
  destruct (Tshark_init C (Some (ns_tshark args))) as [t|e]; [|reflexivity].
  rewrite cli_call_binding. reflexivity.
Qed.

Lemma not_write_not_dump pre d k :
  Forall (fun ev => is_write_event ev = false /\ is_enrichment_event ev = false) pre ->
  ~ In (EvJsonDump d k) pre.
Proof.
  intros H Hin. rewrite Forall_forall in H.
  apply list_elem_of_In in Hin. destruct (H _ Hin) as [Habs _]. discriminate.
Qed.

(** The events of a whole run of the driver: every serialization call
    carries the keywords of the caller; without a cryptography feed nothing
    of the decryption class is called; a first part that returns has called
    [save_har]; and a run that calls [json.dump] ends as the dump ends. *)
Lemma pcapng_to_har_events input output tshark sf cf ow kws w :
  exists new,
    trace (fst (pcapng_to_har C input output tshark sf cf ow kws w)) = (trace w ++ new)%list
    /\ Forall (fun ev => forall k, serialization_kws ev = Some k -> k = kws) new
    /\ (cf = None -> Forall (fun ev => is_decryption_event ev = false) new)
    /\ (forall w1 out traffic,
          base_conversion C input output tshark ow kws w = (w1, Return (out, traffic)) ->
          In (EvSaveHar (Pathlib.str out) ow kws) new)
    /\ (forall d k,
          In (EvJsonDump d k) new ->
          snd (pcapng_to_har C input output tshark sf cf ow kws w)
          = outcome_of_failure (snd (dump_outcome C d kws))).
Proof.
  assert (Hpre : forall pre,
    Forall (fun ev => is_write_event ev = false /\ is_enrichment_event ev = false) pre ->
    Forall (fun ev => forall k, serialization_kws ev = Some k -> k = kws) pre
    /\ Forall (fun ev => is_decryption_event ev = false) pre).
  { intros pre H. split; eapply List.Forall_impl; try exact H;
      intros ev [H1 H2]; destruct ev; simpl in *; intros; try discriminate; auto. }
  rewrite pcapng_to_har_eq, base_conversion_eq.
  destruct (output_path input output) as [out|].
  2:{ exists []. rewrite app_nil_r. simpl.
      split; [reflexivity|]. split; [constructor|]. split; [constructor|].
      split; [discriminate | intros d k []]. }
  pose proof (checked_conversion_spec C (Pathlib.of_string input) out tshark ow kws w) as H.
  destruct (checked_conversion C (Pathlib.of_string input) out tshark ow kws w) as [w1 [r|e]];
    simpl in *; destruct H as (new & Htr & _ & _ & H).
  - destruct H as (pre & t & -> & Hp & Hr & _).
    destruct (Hpre pre Hp) as [Hk Hd].
    destruct (enrich_and_save_events C (snd r) (fst r) sf cf kws w1)
      as (post & Hpost & Hkws & _ & _ & Hnodec).
    destruct (enrich_and_save_files C (snd r) (fst r) sf cf kws w1 post Hpost) as [Hdump _].
    exists ((pre ++ [EvSaveHar (Pathlib.str out) ow kws]) ++ post)%list.
    split; [rewrite Hpost, Htr, <- !app_assoc; reflexivity|].
    rewrite !Forall_app. split; [|split; [|split]].
    + repeat split; auto; repeat constructor; simpl; congruence.
    + intros ->. repeat split; auto; repeat constructor.
    + intros w1' out' traffic' Heq. injection Heq as _ Heq. subst r. simpl in Hr. subst out'.
      apply in_or_app; left. apply in_or_app; right. simpl; auto.
    + intros d k Hin. apply in_app_or in Hin as [Hin|Hin].
      * exfalso. apply in_app_or in Hin as [Hin|[Hin|[]]]; [|discriminate].
        eapply not_write_not_dump; eauto.
      * apply (Hdump d k Hin).
  - exists new. split; [assumption|].
    destruct H as [(_ & Hp)|(pre & traffic & t & -> & Hp & _)].
    + destruct (Hpre new Hp) as [Hk Hd].
      split; [assumption|]. split; [auto|]. split; [discriminate|].
      intros d k Hin. exfalso. eapply not_write_not_dump; eauto.
    + destruct (Hpre pre Hp) as [Hk Hd]. rewrite !Forall_app. split; [|split; [|split]].
      * split; auto; repeat constructor; simpl; congruence.
      * intros _. split; auto; repeat constructor.
      * discriminate.
      * intros d k Hin. exfalso. apply in_app_or in Hin as [Hin|[Hin|[]]]; [|discriminate].
        eapply not_write_not_dump; eauto.
Qed.

End CliFacts.



(** C10, as stated, fails for exceptions that are not instances of
    [Exception]: the clause [except Exception] lets a [KeyboardInterrupt]
    raised during the conversion out of [cli] as it is.  The statement
    refuted: whatever the conversion raises comes out of [cli] wrapped in a
    [RuntimeError]. *)
Lemma keyboard_interrupt_not_wrapped :
  ~ (forall (C : Collaborators) args w e,
        snd (cli_call C args w) = Raise e ->
        snd (cli C args w) = Raise (ExnFrom RuntimeError (ns_i args) e)).
Proof.
  intros H.
  specialize (H (Fixture.collaborators Fixture.scenario_interrupted)
                Fixture.args0 Fixture.world0 (Exn KeyboardInterrupt "") eq_refl).
  vm_compute in H. discriminate H.
Qed.

(** C10, amended: whenever the conversion raises an exception that is an
    instance of [Exception], [cli] raises a [RuntimeError] whose argument
    is the input path and whose cause is that exception, in the world the
    conversion left.  An exception outside [Exception] comes out as it is,
    and a conversion that returns makes [cli] return. *)
Theorem cli_wraps_exceptions (C : Collaborators) (args : Namespace) (w : World) :
  (forall e,
      snd (cli_call C args w) = Raise e ->
      is_Exception (exn_cls e) = true ->
      cli C args w = (fst (cli_call C args w), Raise (ExnFrom RuntimeError (ns_i args) e))
      /\ exn_cls (ExnFrom RuntimeError (ns_i args) e) = RuntimeError
      /\ exn_arg (ExnFrom RuntimeError (ns_i args) e) = ns_i args
      /\ exn_cause (ExnFrom RuntimeError (ns_i args) e) = Some e)
  /\ (forall e,
        snd (cli_call C args w) = Raise e ->
        is_Exception (exn_cls e) = false ->
        cli C args w = cli_call C args w)
  /\ (snd (cli_call C args w) = Return tt -> cli C args w = cli_call C args w).
Proof.
  unfold cli, try_except_Exception.
  destruct (cli_call C args w) as [w' [[]|e0]]; simpl.
  - repeat split; intros; try discriminate; reflexivity.
  - split; [|split].
    + intros e He Hexc. injection He as <-. rewrite Hexc. repeat split.
    + intros e He Hexc. injection He as <-. rewrite Hexc. reflexivity.
    + discriminate.
Qed.

(** A failure of tshark comes out of [cli] as the cause of a
    [RuntimeError]. *)
Lemma cli_wraps_exceptions_witness :
  cli (Fixture.collaborators Fixture.scenario_decode_error) Fixture.args0 Fixture.world0
  = (fst (cli_call (Fixture.collaborators Fixture.scenario_decode_error)
            Fixture.args0 Fixture.world0),
     Raise (ExnFrom RuntimeError "capture.pcapng"
              (Exn (OtherException "CalledProcessError") "tshark"))).
Proof.
  apply (proj1 (cli_wraps_exceptions (Fixture.collaborators Fixture.scenario_decode_error)
                  Fixture.args0 Fixture.world0)
           (Exn (OtherException "CalledProcessError") "tshark")).
  - vm_compute; reflexivity.
  - reflexivity.
Defined.

(** * Beyond the claims *)

(** ** argparse *)

Section ArgparseFacts.

Variable parser : list Argparse.Argument.

Lemma kw_get_set_eq k v ns : kw_get k (Argparse.kw_set k v ns) = Some v.
Proof.
  induction ns as [|[k' v'] ns IH]; simpl.
  - rewrite String.eqb_refl. reflexivity.
  - destruct (String.eqb_spec k k') as [->|Hne]; simpl.
    + rewrite String.eqb_refl. reflexivity.
    + destruct (String.eqb_spec k k'); [congruence | exact IH].
Qed.

Lemma kw_get_set_ne k k' v ns : k <> k' -> kw_get k (Argparse.kw_set k' v ns) = kw_get k ns.
Proof.
  intros Hne. induction ns as [|[k0 v0] ns IH]; simpl.
  - destruct (String.eqb_spec k k'); [congruence | reflexivity].
  - destruct (String.eqb_spec k' k0) as [->|Hne0]; simpl.
    + destruct (String.eqb_spec k k0); [congruence | reflexivity].
    + destruct (String.eqb_spec k k0); [reflexivity | exact IH].
Qed.

(** An argument string stands for an argument of the parser only as one of
    its option strings, written in full or abbreviated. *)
Lemma parse_optional_known opt a :
  Argparse.parse_optional parser opt = Argparse.Known a ->
  In a parser
  /\ exists o, In o (Argparse.option_strings a) /\ (opt = o \/ abbreviates opt o = true).
Proof.
  unfold Argparse.parse_optional.
  destruct (Argparse.find_option parser opt) as [a'|] eqn:Hf.
  - intros H; injection H as <-.
    apply List.find_some in Hf as [Hin Hex].
    split; [assumption|].
    apply existsb_exists in Hex as (o & Ho & Heq).
    apply String.eqb_eq in Heq. eauto.
  - destruct (Argparse.is_option_like opt) eqn:Hlike; [|discriminate].
    destruct (Argparse.option_tuples parser opt) as [|a' [|? ?]] eqn:Ht; try discriminate.
    intros H; injection H as <-.
    assert (Hin : In a' (Argparse.option_tuples parser opt)) by (rewrite Ht; left; reflexivity).
    unfold Argparse.option_tuples in Hin.
    apply in_flat_map in Hin as (a0 & Ha0 & Hin).
    apply in_map_iff in Hin as (o & <- & Ho).
    apply List.filter_In in Ho as [Ho Hp].
    split; [assumption|]. exists o. split; [assumption|].
    right. unfold abbreviates. rewrite Hlike, Hp. reflexivity.
Qed.

(** The parser raises nothing but [SystemExit]. *)
Lemma consume_raises argv st e :
  Argparse.consume parser argv st = Raise e ->
  e = Argparse.exit "0" \/ e = Argparse.exit "2".
Proof.
  revert st. induction argv as [|[opt val] argv IH]; simpl; intros st H; [discriminate|].
  destruct (String.eqb opt "--"); [discriminate|].
  destruct (Argparse.parse_optional parser opt) as [a| |];
    [|injection H as <-; auto|eauto].
  destruct (Argparse.action a), val; try (injection H as <-; auto); eauto.
Qed.

(** A destination is seen only through an occurrence that stands for its
    argument. *)
Lemma consume_seen argv st st' d :
  Argparse.consume parser argv st = Return st' ->
  In d (Argparse.seen st') ->
  In d (Argparse.seen st)
  \/ exists opt val a, In (opt, val) argv
                       /\ Argparse.parse_optional parser opt = Argparse.Known a
                       /\ Argparse.dest a = d.
Proof.
  revert st. induction argv as [|[opt val] argv IH]; simpl; intros st H Hin.
  - injection H as <-. auto.
  - destruct (String.eqb opt "--"); [injection H as <-; auto|].
    destruct (Argparse.parse_optional parser opt) as [a| |] eqn:Hf; [|discriminate|].
    + destruct (Argparse.action a), val; try discriminate;
        destruct (IH _ H Hin) as [Hs|(o & v & a' & Ho & Hf' & Hd)]; simpl in *;
        try (destruct Hs as [<-|Hs]; [right; exists opt; eauto 6 | auto]);
        right; exists o, v, a'; auto.
    + destruct (IH _ H Hin) as [Hs|(o & v & a' & Ho & Hf' & Hd)]; simpl in *; [auto|].
      right; exists o, v, a'; auto.
Qed.

(** An attribute keeps its value unless an occurrence stands for its
    argument. *)
Lemma consume_frame argv st st' k :
  Argparse.consume parser argv st = Return st' ->
  (forall opt val a, In (opt, val) argv ->
                     Argparse.parse_optional parser opt = Argparse.Known a ->
                     Argparse.dest a <> k) ->
  kw_get k (Argparse.namespace st') = kw_get k (Argparse.namespace st).
Proof.
  revert st. induction argv as [|[opt val] argv IH]; simpl; intros st H Hk.
  - injection H as <-. reflexivity.
  - assert (Hk' : forall opt0 val0 a, In (opt0, val0) argv ->
                    Argparse.parse_optional parser opt0 = Argparse.Known a ->
                    Argparse.dest a <> k)
      by (intros; eapply Hk; eauto).
    destruct (String.eqb opt "--"); [injection H as <-; reflexivity|].
    destruct (Argparse.parse_optional parser opt) as [a| |] eqn:Hf; [|discriminate|].
    + assert (Hne : k <> Argparse.dest a)
        by (intros ->; eapply (Hk opt val a); auto).
      destruct (Argparse.action a), val; try discriminate;
        rewrite (IH _ H Hk'); simpl; apply kw_get_set_ne; assumption.
    + rewrite (IH _ H Hk'). reflexivity.
Qed.

(** What a parse that went through has consumed. *)
Lemma parse_args_consumed argv ns :
  Argparse.parse_args parser argv = Return ns ->
  exists st,
    Argparse.consume parser argv (Argparse.mkState (Argparse.defaults parser []) [] false)
    = Return st
    /\ Argparse.missing_required parser (Argparse.seen st) = false
    /\ Argparse.extras st = false
    /\ ns = Argparse.namespace st.
Proof.
  unfold Argparse.parse_args.
  destruct (Argparse.ambiguous parser argv); [discriminate|].
  destruct (Argparse.consume parser argv _) as [st|e]; [|discriminate].
  destruct (Argparse.missing_required parser (Argparse.seen st)) eqn:Hm; [discriminate|].
  destruct (Argparse.extras st) eqn:He; [discriminate|].
  intros H; injection H as <-. eauto.
Qed.

(** Short of returning, [parse_args] exits. *)
Lemma parse_args_exits argv :
  (forall st,
      Argparse.consume parser argv (Argparse.mkState (Argparse.defaults parser []) [] false)
      = Return st ->
      Argparse.missing_required parser (Argparse.seen st) = true) ->
  exists status, Argparse.parse_args parser argv = Raise (Argparse.exit status).
Proof.
  intros H. unfold Argparse.parse_args.
  destruct (Argparse.ambiguous parser argv); [eauto|].
  destruct (Argparse.consume parser argv _) as [st|e] eqn:Hc.
  - rewrite (H st eq_refl). eauto.
  - destruct (consume_raises _ _ _ Hc) as [->| ->]; eauto.
Qed.

End ArgparseFacts.

(** ** The parser of [cli] *)

Section ParserFacts.

Lemma mentions_false opts argv opt val :
  mentions opts argv = false -> In (opt, val) argv -> ~ In opt opts.
Proof.
  unfold mentions. intros Hm Hin Hopt.
  assert (H : existsb (fun occ => existsb (String.eqb (fst occ)) opts) argv = true).
  { apply existsb_exists. exists (opt, val). split; [assumption|].
    apply existsb_exists. exists opt. split; [assumption | apply String.eqb_refl]. }
  congruence.
Qed.

Lemma gives_false opts argv opt val :
  gives opts argv = false -> In (opt, val) argv -> existsb (abbreviates opt) opts = false.
Proof.
  unfold gives. intros Hm Hin.
  destruct (existsb (abbreviates opt) opts) eqn:Hex; [|reflexivity].
  assert (H : existsb (fun occ => existsb (abbreviates (fst occ)) opts) argv = true)
    by (apply existsb_exists; exists (opt, val); auto).
  congruence.
Qed.

(** The arguments of the parser, with their destinations. *)
Lemma build_parser_arguments dp u a :
  In a (build_parser dp u) ->
  (Argparse.dest a = "help" /\ Argparse.action a = Argparse.Help
   /\ Argparse.option_strings a = ["-h"; "--help"])
  \/ (Argparse.dest a = "i" /\ Argparse.action a = Argparse.Store
      /\ Argparse.option_strings a = ["-i"])
  \/ (Argparse.dest a = "o" /\ Argparse.action a = Argparse.Store
      /\ Argparse.option_strings a = ["-o"])
  \/ (Argparse.dest a = "force" /\ Argparse.action a = Argparse.StoreTrue
      /\ Argparse.option_strings a = ["-f"; "--force"])
  \/ (Argparse.dest a = "tshark" /\ Argparse.action a = Argparse.Store
      /\ Argparse.option_strings a = ["--tshark"])
  \/ (Argparse.dest a = "socket_operations_file" /\ Argparse.action a = Argparse.Store
      /\ Argparse.option_strings a = ["-sf"; "--socket-operations-file"])
  \/ (Argparse.dest a = "cryptography_operations_file" /\ Argparse.action a = Argparse.Store
      /\ Argparse.option_strings a = ["-cf"; "--cryptography-operations-file"]).
Proof.
  unfold build_parser.
  intros [<-|[<-|[<-|[<-|[<-|[<-|[<-|[]]]]]]]]; [| | | |destruct dp as [d|], u| |];
    simpl; auto 20.
Qed.

(** Which argument an argument string stands for, with its destination:
    the string is one of the option strings of the argument, in full or
    abbreviated. *)
Lemma known_build_parser dp u opt a :
  Argparse.parse_optional (build_parser dp u) opt = Argparse.Known a ->
  exists opts,
    Argparse.option_strings a = opts
    /\ existsb (abbreviates opt) opts = true
    /\ ((Argparse.dest a = "help" /\ Argparse.action a = Argparse.Help
         /\ opts = ["-h"; "--help"])
        \/ (Argparse.dest a = "i" /\ Argparse.action a = Argparse.Store /\ opts = ["-i"])
        \/ (Argparse.dest a = "o" /\ Argparse.action a = Argparse.Store /\ opts = ["-o"])
        \/ (Argparse.dest a = "force" /\ Argparse.action a = Argparse.StoreTrue
            /\ opts = ["-f"; "--force"])
        \/ (Argparse.dest a = "tshark" /\ Argparse.action a = Argparse.Store
            /\ opts = ["--tshark"])
        \/ (Argparse.dest a = "socket_operations_file" /\ Argparse.action a = Argparse.Store
            /\ opts = ["-sf"; "--socket-operations-file"])
        \/ (Argparse.dest a = "cryptography_operations_file"
            /\ Argparse.action a = Argparse.Store
            /\ opts = ["-cf"; "--cryptography-operations-file"])).
Proof.
  intros H. apply parse_optional_known in H as (Hin & o & Ho & Hopt).
  exists (Argparse.option_strings a). split; [reflexivity|].
  pose proof (build_parser_arguments dp u a Hin) as Hcases.
  split; [|exact Hcases].
  apply existsb_exists. exists o. split; [assumption|].
  destruct Hopt as [->|Habbr]; [|assumption].
  destruct Hcases as [(_ & _ & Hs)|[(_ & _ & Hs)|[(_ & _ & Hs)|[(_ & _ & Hs)|[(_ & _ & Hs)
                     |[(_ & _ & Hs)|(_ & _ & Hs)]]]]]];
    rewrite Hs in Ho; simpl in Ho;
    repeat (destruct Ho as [<-|Ho]; [reflexivity|]); destruct Ho.
Qed.

(** The only way to write [-i] is [-i]. *)
Lemma abbreviates_short opt c :
  abbreviates opt (String "-" (String c "")) = true -> opt = String "-" (String c "").
Proof.
  unfold abbreviates, Argparse.is_option_like.
  destruct opt as [|c1 [|c2 rest]]; try (intros H; discriminate H).
  destruct (Ascii.eqb_spec c1 "-"%char) as [->|]; [|intros H; discriminate H].
  simpl. destruct (Ascii.ascii_dec "-" "-") as [_|Hne]; [|exfalso; apply Hne; reflexivity].
  destruct (Ascii.ascii_dec c2 c) as [->|]; [|intros H; discriminate H].
  destruct rest; [reflexivity | intros H; discriminate H].
Qed.

(** Whether line 27 found a usable default. *)
Lemma default_cases (dp : option string) (u : bool) :
  (exists d, dp = Some d /\ u = true) \/ (dp = None \/ u = false).
Proof. destruct dp, u; eauto. Qed.

Ltac other_key :=
  rewrite kw_get_set_ne by discriminate;
  match goal with
  | H : kw_get ?k ?ns = Some ?v |- exists _, kw_get ?k ?ns = Some _ /\ _ =>
      exists v; split; [exact H|]; try (split; [assumption|]); auto;
      simpl; intros; intuition (try discriminate; auto)
  | H : kw_get ?k ?ns = Some (PBool ?b) |- exists _, kw_get ?k ?ns = Some (PBool _) =>
      exists b; exact H
  end.

Ltac this_key :=
  rewrite kw_get_set_eq; eexists; split; [reflexivity|];
  split; [reflexivity|]; try (intros; discriminate).

(** Reading the command line keeps the namespace typed. *)
Lemma consume_typed dp u hd argv st st' :
  Argparse.consume (build_parser dp u) argv st = Return st' ->
  typed_state hd st -> typed_state hd st'.
Proof.
  remember (build_parser dp u) as parser eqn:Hp.
  revert st. induction argv as [|[opt val] argv IH]; simpl; intros st H Ht.
  - injection H as <-. exact Ht.
  - destruct (String.eqb opt "--"); [injection H as <-; exact Ht|].
    destruct (Argparse.parse_optional parser opt) as [a| |] eqn:Hf; [|discriminate|].
    2:{ apply (IH _ H). exact Ht. }
    rewrite Hp in Hf.
    destruct Ht as ((vi & Hi & Hti & Hsi) & (vo & Ho & Hto) & (bf & Hforce)
                    & (vt & Htk & Htt & Hst) & (vs & Hs & Hts) & (vc & Hc & Htc)).
    destruct (known_build_parser dp u opt a Hf) as (opts & _ & _ & Hcases).
    destruct Hcases
      as [(Hd & Ha & _)|[(Hd & Ha & _)|[(Hd & Ha & _)|[(Hd & Ha & _)|[(Hd & Ha & _)
         |[(Hd & Ha & _)|(Hd & Ha & _)]]]]]];
      rewrite Ha in H; try discriminate;
      rewrite Hd in H; destruct val as [v|]; try discriminate;
      apply (IH _ H); unfold typed_state; simpl;
      (split; [|split; [|split; [|split; [|split]]]]);
      first [this_key | other_key | (rewrite kw_get_set_eq; eauto)].
Qed.

(** The namespace before the command line is read. *)
Lemma defaults_typed dp u :
  typed_state (match dp, u with Some _, true => true | _, _ => false end)
    (Argparse.mkState (Argparse.defaults (build_parser dp u) []) [] false).
Proof.
  unfold typed_state. destruct dp as [d|], u; simpl;
    (split; [|split; [|split; [|split; [|split]]]]);
    first [ eexists; reflexivity
          | eexists; split; [reflexivity|];
            first [ reflexivity
                  | split; [reflexivity|]; simpl; intros; intuition (try discriminate) ] ].
Qed.

(** What the check of the required arguments ensures. *)
Lemma required_seen dp u seen :
  Argparse.missing_required (build_parser dp u) seen = false ->
  In "i" seen
  /\ (dp = None \/ u = false -> In "tshark" seen).
Proof.
  assert (Hin : forall k, existsb (String.eqb k) seen = true -> In k seen).
  { intros k Hk. apply existsb_exists in Hk as (x & Hx & Heq).
    apply String.eqb_eq in Heq. subst. assumption. }
  unfold Argparse.missing_required.
  destruct dp as [d|], u; simpl; rewrite ?orb_false_r; intros H;
    repeat match type of H with
           | (_ || _)%bool = false => apply orb_false_iff in H as [? H]
           | negb _ = false => apply negb_false_iff in H
           end;
    repeat match goal with
           | H : negb _ = false |- _ => apply negb_false_iff in H
           end;
    split; auto; intros [?|?]; try discriminate; auto.
Qed.

(** A parse that returns gives a namespace with every attribute [cli]
    reads, of the type [cli] expects. *)
Lemma parse_args_namespace dp u argv ns :
  Argparse.parse_args (build_parser dp u) argv = Return ns ->
  exists args,
    namespace_of ns = Return args
    /\ kw_get "i" ns = Some (PStr (ns_i args))
    /\ kw_get "o" ns = Some (of_opt_str (ns_o args))
    /\ kw_get "force" ns = Some (PBool (ns_force args))
    /\ kw_get "tshark" ns = Some (PStr (ns_tshark args))
    /\ kw_get "socket_operations_file" ns
       = Some (of_opt_str (ns_socket_operations_file args))
    /\ kw_get "cryptography_operations_file" ns
       = Some (of_opt_str (ns_cryptography_operations_file args)).
Proof.
  intros H. apply parse_args_consumed in H as (st & Hc & Hm & _ & ->).
  destruct (required_seen dp u _ Hm) as [Hseen_i Hseen_t].
  destruct (consume_typed dp u _ argv _ _ Hc (defaults_typed dp u))
    as ((vi & Hi & Hti & Hsi) & (vo & Ho & Hto) & (bf & Hforce)
        & (vt & Htk & Htt & Hst) & (vs & Hs & Hts) & (vc & Hc' & Htc)).
  specialize (Hsi Hseen_i).
  assert (Hvt : vt <> PNone).
  { apply Hst. destruct (default_cases dp u) as [(d & -> & ->)|Hno]; auto. }
  unfold namespace_of. rewrite Hi, Ho, Hforce, Htk, Hs, Hc'.
  destruct vi as [| |i|]; try discriminate; try congruence.
  destruct vt as [| |t|]; try discriminate; try congruence.
  destruct vo as [| |o|], vs as [| |sf|], vc as [| |cf|]; try discriminate;
    eexists; repeat split.
Qed.

(** An attribute keeps its default when none of its option strings is
    given, in full or abbreviated. *)
Lemma parse_args_default dp u argv ns k opts :
  Argparse.parse_args (build_parser dp u) argv = Return ns ->
  gives opts argv = false ->
  (forall opt a, Argparse.parse_optional (build_parser dp u) opt = Argparse.Known a ->
                 Argparse.dest a = k -> existsb (abbreviates opt) opts = true) ->
  kw_get k ns = kw_get k (Argparse.defaults (build_parser dp u) []).
Proof.
  intros H Hm Hopts. apply parse_args_consumed in H as (st & Hc & _ & _ & ->).
  rewrite (consume_frame _ _ _ _ k Hc); [reflexivity|].
  intros opt val a Hin Hf Hd.
  pose proof (gives_false _ _ _ _ Hm Hin) as Hfalse.
  rewrite (Hopts opt a Hf Hd) in Hfalse. discriminate Hfalse.
Qed.

End ParserFacts.

(** The option strings behind a destination of the parser of [cli]. *)
Ltac option_of_dest :=
  let opt := fresh "opt" in
  let a := fresh "a" in
  let Hf := fresh "Hf" in
  let Hd := fresh "Hd" in
  let Hd' := fresh "Hd'" in
  let Ho := fresh "Ho" in
  let Hex := fresh "Hex" in
  let opts := fresh "opts" in
  intros opt a Hf Hd;
  destruct (known_build_parser _ _ _ _ Hf) as (opts & _ & Hex & Hcases);
  destruct Hcases
    as [(Hd' & _ & Ho)|[(Hd' & _ & Ho)|[(Hd' & _ & Ho)|[(Hd' & _ & Ho)|[(Hd' & _ & Ho)
       |[(Hd' & _ & Ho)|(Hd' & _ & Ho)]]]]]];
  try (rewrite Hd' in Hd; discriminate Hd);
  subst opts; exact Hex.







Section CommandLineFacts.

Variable C : Collaborators.

(** The test of line 27 looks at the default location at most; it changes
    neither the files nor the log. *)
Lemma default_usable_spec dp w :
  fs (fst (default_usable dp w)) = fs w
  /\ log (fst (default_usable dp w)) = log w
  /\ (exists u, snd (default_usable dp w) = Return u)
  /\ exists probe,
      trace (fst (default_usable dp w)) = (trace w ++ probe)%list
      /\ Forall (fun ev => exists p, ev = EvExists p) probe.
Proof.
  unfold default_usable.
  destruct dp as [d|]; [destruct (String.eqb d "")|];
    unfold path_exists, bind, emit, read_fs, ret; simpl;
    (split; [reflexivity|]); (split; [reflexivity|]); (split; [eexists; reflexivity|]).
  - exists []. split; [symmetry; apply app_nil_r | constructor].
  - eexists. split; [reflexivity|]. repeat constructor. eauto.
  - exists []. split; [symmetry; apply app_nil_r | constructor].
Qed.

(** Without [-i] the parser exits: [-i] has no abbreviation. *)
Lemma input_required dp u argv :
  mentions ["-i"] argv = false ->
  exists status, Argparse.parse_args (build_parser dp u) argv = Raise (Argparse.exit status).
Proof.
  intros Hm. apply parse_args_exits. intros st Hc.
  destruct (Argparse.missing_required (build_parser dp u) (Argparse.seen st)) eqn:Hr;
    [reflexivity|].
  exfalso. destruct (required_seen dp u _ Hr) as [Hi _].
  destruct (consume_seen _ _ _ _ _ Hc Hi) as [[]|(opt & val & a & Hin & Hf & Hd)].
  apply (mentions_false _ _ _ _ Hm Hin).
  assert (Htrue : existsb (abbreviates opt) ["-i"] = true)
    by (clear - Hf Hd; revert opt a Hf Hd; option_of_dest).
  simpl in Htrue. rewrite orb_false_r in Htrue.
  apply abbreviates_short in Htrue. left. congruence.
Qed.

End CommandLineFacts.



(** X5: the full pipeline.  When both feeds name regular files and every
    collaborator returns, the stack trace pass is applied to the unenriched
    document and the decryption pass to the result of the stack trace pass;
    that document is dumped into the output file, which then holds the text
    [json.dump] wrote; the call returns.  On the way it made the three
    logging calls of lines 114, 125 and 135, all at level INFO: the log
    holds them, in this order, when the logger lets INFO through, and
    nothing of them otherwise, as in a process that never configured
    logging. *)
Theorem enriched_run (C : Collaborators)
    (input : string) (output : option string) (tshark : option Tshark)
    (sf cf : option string) (ow : bool) (kws : kwargs)
    (w w1 : World) (out : Path) (traffic : Traffic C)
    (har d1 d2 : HarDocument) (p1 p2 : Path)
    (feed1 : list SocketOperationRecord) (feed2 : list CryptoOperationRecord)
    (text : string) :
  base_conversion C input output tshark ow kws w = (w1, Return (out, traffic)) ->
  to_har C traffic = Return har ->
  feed_file (fs w1) sf = Some p1 ->
  Stacktrace_init C har p1 (fs w1) = Return feed1 ->
  Stacktrace_enrich C feed1 har = Return d1 ->
  feed_file (fs w1) cf = Some p2 ->
  ContentDecryption_init C d1 p2 (fs w1) = Return feed2 ->
  ContentDecryption_enrich C feed2 d1 = Return d2 ->
  fs w1 !! Pathlib.str out <> Some Directory ->
  dump_outcome C d2 kws = (text, None) ->
  pcapng_to_har C input output tshark sf cf ow kws w
  = (mkWorld
       (<[Pathlib.str out := RegularFile text]> (fs w1))
       (log w1 ++ kept (logging_level C)
                    [(INFO, "The HAR has been enriched with stacktrace data from "
                            ++ Pathlib.str p1);
                     (INFO, "The HAR has been enriched with decrypted content from "
                            ++ Pathlib.str p2);
                     (INFO, saved_message out)])
       (trace w1 ++ [EvIsFile (Pathlib.str p1); EvStacktrace (Pathlib.str p1);
                     EvStacktraceEnrich;
                     EvIsFile (Pathlib.str p2); EvContentDecryption (Pathlib.str p2);
                     EvContentDecryptionEnrich;
                     EvOpenW (Pathlib.str out); EvJsonDump d2 kws]),
     Return tt).
Proof.
  intros Hbase Hhar Hsf Hi1 He1 Hcf Hi2 He2 Hdir Hdump.
  rewrite (pcapng_to_har_after_base C _ _ _ sf cf _ _ _ _ _ _ Hbase).
  rewrite enrich_and_save_eq, Hhar.
  rewrite (stacktrace_stage_ran C sf false har w1 p1 feed1 d1 Hsf Hi1 He1).
  cbn [fst snd].
  match goal with
  | |- context [decryption_stage C cf true d1 ?w2] =>
      rewrite (decryption_stage_ran C cf true d1 w2 p2 feed2 d2 Hcf Hi2 He2)
  end.
  cbn [fst snd].
  rewrite save_enriched_true by exact Hdir.
  rewrite Hdump. cbn [fst snd outcome_of_failure fs log trace].
  unfold add_record, kept, add_log, saved_message.
  cbn [fst snd fs log trace List.filter].
  destruct (enabled (logging_level C) INFO);
    rewrite <- ?app_assoc, ?app_nil_r; reflexivity.
Qed.

(** The run on the fixture, once with the logger at INFO and once as the
    program leaves it. *)
Lemma enriched_run_witness :
  let run sc := pcapng_to_har (Fixture.collaborators sc) "capture.pcapng" None None
                  (Some "socket_trace.json") (Some "aes_info.json") false []
                  Fixture.world0 in
  snd (run Fixture.scenario_verbose) = Return tt
  /\ fs (fst (run Fixture.scenario_verbose)) !! "capture.har"
     = Some (RegularFile "http://h/a secret +stack;")
  /\ log (fst (run Fixture.scenario_verbose))
     = [(INFO, "The HAR has been enriched with stacktrace data from socket_trace.json");
        (INFO, "The HAR has been enriched with decrypted content from aes_info.json");
        (INFO, "The HAR has been saved in capture.har")]
  /\ log (fst (run Fixture.scenario0)) = [].
Proof.
  intros run.
  assert (Hbase : forall sc,
    sc = Fixture.scenario_verbose \/ sc = Fixture.scenario0 ->
    base_conversion (Fixture.collaborators sc) "capture.pcapng" None None false []
      Fixture.world0
    = (fst (base_conversion (Fixture.collaborators sc)
              "capture.pcapng" None None false [] Fixture.world0),
       Return (Pathlib.of_string "capture.har", Fixture.document0)))
    by (intros sc [-> | ->]; vm_compute; reflexivity).
  pose proof (enriched_run (Fixture.collaborators Fixture.scenario_verbose)
                "capture.pcapng" None None
                (Some "socket_trace.json") (Some "aes_info.json") false [] Fixture.world0
                _ _ _ Fixture.document0 _ _
                (Pathlib.of_string "socket_trace.json") (Pathlib.of_string "aes_info.json")
                _ _ _ (Hbase _ (or_introl eq_refl)) eq_refl
                ltac:(vm_compute; reflexivity) eq_refl eq_refl
                ltac:(vm_compute; reflexivity) eq_refl eq_refl
                ltac:(vm_compute; discriminate) eq_refl) as H1.
  pose proof (enriched_run (Fixture.collaborators Fixture.scenario0)
                "capture.pcapng" None None
                (Some "socket_trace.json") (Some "aes_info.json") false [] Fixture.world0
                _ _ _ Fixture.document0 _ _
                (Pathlib.of_string "socket_trace.json") (Pathlib.of_string "aes_info.json")
                _ _ _ (Hbase _ (or_intror eq_refl)) eq_refl
                ltac:(vm_compute; reflexivity) eq_refl eq_refl
                ltac:(vm_compute; reflexivity) eq_refl eq_refl
                ltac:(vm_compute; discriminate) eq_refl) as H0.
  subst run. cbv beta. rewrite H1, H0.
  split; [reflexivity|]. split; [|split; vm_compute; reflexivity].
  simpl. rewrite lookup_insert_eq. vm_compute. reflexivity.
Defined.

(** ** The log of a run *)

Section LogFacts.

Variable C : Collaborators.

(** No record of a stage reads like the final one. *)
Lemma stage_messages_differ (x : string) (o : Path) :
  "The HAR has been enriched with stacktrace data from " ++ x <> saved_message o
  /\ "The HAR has been enriched with decrypted content from " ++ x <> saved_message o
  /\ "Invalid stacktrace data input file, skip enrichment" <> saved_message o
  /\ "Invalid decryption data input file, skip enrichment" <> saved_message o.
Proof.
  unfold saved_message. repeat split; intros H; vm_compute in H; congruence.
Qed.

Lemma kept_app t l1 l2 : kept t (l1 ++ l2) = (kept t l1 ++ kept t l2)%list.
Proof. apply List.filter_app. Qed.

(** A logger at INFO keeps every record. *)
Lemma kept_INFO l : kept INFO l = l.
Proof.
  induction l as [|[[] m] l IH]; simpl; [reflexivity| | |]; f_equal; exact IH.
Qed.

Lemma in_kept t r l : In r (kept t l) -> In r l /\ enabled t (fst r) = true.
Proof. unfold kept. intros H. apply List.filter_In in H. exact H. Qed.

(** The logging calls of the stack trace stage: one when it returns, none
    when it raises. *)
Lemma stacktrace_stage_log sf en d w :
  exists calls,
    log (fst (stacktrace_stage C sf en d w)) = (log w ++ kept (logging_level C) calls)%list
    /\ Forall (fun r => forall o, snd r <> saved_message o) calls
    /\ match snd (stacktrace_stage C sf en d w) with
       | Return _ => length calls = 1
       | Raise _ => calls = []
       end.
Proof.
  unfold stacktrace_stage, path_is_file, bind, emit, read_fs, ret, logger, lift_outcome.
  destruct (optional_path sf) as [p|]; simpl.
  - destruct (fs_is_file (fs w) p); simpl.
    + destruct (Stacktrace_init C d p (fs w)) as [feed|e]; simpl.
      * destruct (Stacktrace_enrich C feed d) as [d'|e]; simpl.
        -- rewrite log_add_record. simpl log.
           eexists [_]. split; [reflexivity|]. split; [|reflexivity].
           repeat constructor. simpl. intros o. apply stage_messages_differ.
        -- exists []. rewrite app_nil_r. repeat split. constructor.
      * exists []. rewrite app_nil_r. repeat split. constructor.
    + match goal with |- context [(log w ++ [?r])%list] => exists [r] end.
      split; [reflexivity|]. split; [|reflexivity].
      repeat constructor. simpl. intros o. apply (stage_messages_differ "" o).
  - match goal with |- context [(log w ++ [?r])%list] => exists [r] end.
    split; [reflexivity|]. split; [|reflexivity].
    repeat constructor. simpl. intros o. apply (stage_messages_differ "" o).
Qed.

Lemma decryption_stage_log cf en d w :
  exists calls,
    log (fst (decryption_stage C cf en d w)) = (log w ++ kept (logging_level C) calls)%list
    /\ Forall (fun r => forall o, snd r <> saved_message o) calls
    /\ match snd (decryption_stage C cf en d w) with
       | Return _ => length calls = 1
       | Raise _ => calls = []
       end.
Proof.
  unfold decryption_stage, path_is_file, bind, emit, read_fs, ret, logger, lift_outcome.
  destruct (optional_path cf) as [p|]; simpl.
  - destruct (fs_is_file (fs w) p); simpl.
    + destruct (ContentDecryption_init C d p (fs w)) as [feed|e]; simpl.
      * destruct (ContentDecryption_enrich C feed d) as [d'|e]; simpl.
        -- rewrite log_add_record. simpl log.
           eexists [_]. split; [reflexivity|]. split; [|reflexivity].
           repeat constructor. simpl. intros o. apply stage_messages_differ.
        -- exists []. rewrite app_nil_r. repeat split. constructor.
      * exists []. rewrite app_nil_r. repeat split. constructor.
    + match goal with |- context [(log w ++ [?r])%list] => exists [r] end.
      split; [reflexivity|]. split; [|reflexivity].
      repeat constructor. simpl. intros o. apply (stage_messages_differ "" o).
  - match goal with |- context [(log w ++ [?r])%list] => exists [r] end.
    split; [reflexivity|]. split; [|reflexivity].
    repeat constructor. simpl. intros o. apply (stage_messages_differ "" o).
Qed.

(** The second serialization logs nothing. *)
Lemma save_enriched_log en d out kws w :
  log (fst (save_enriched C en d out kws w)) = log w.
Proof.
  destruct en; [|reflexivity].
  destruct (fs w !! Pathlib.str out) as [[data|]|] eqn:Hd.
  - rewrite save_enriched_true by (rewrite Hd; discriminate). reflexivity.
  - rewrite save_enriched_directory by assumption. reflexivity.
  - rewrite save_enriched_true by (rewrite Hd; discriminate). reflexivity.
Qed.

(** The logging calls of the enrichment part: one per stage that ended,
    and the final one exactly when the part returns. *)
Lemma enrich_and_save_log traffic out sf cf kws w1 :
  exists calls,
    log (fst (enrich_and_save C traffic out sf cf kws w1))
    = (log w1 ++ kept (logging_level C) calls)%list
    /\ match snd (enrich_and_save C traffic out sf cf kws w1) with
       | Return _ =>
           exists r1 r2,
             calls = [r1; r2; (INFO, saved_message out)]
             /\ (forall o, snd r1 <> saved_message o)
             /\ (forall o, snd r2 <> saved_message o)
       | Raise _ =>
           length calls <= 2 /\ Forall (fun r => forall o, snd r <> saved_message o) calls
       end.
Proof.
  rewrite enrich_and_save_eq.
  destruct (to_har C traffic) as [har|e].
  2:{ exists []. rewrite app_nil_r. simpl. repeat split; auto. }
  pose proof (stacktrace_stage_log sf false har w1) as H2.
  destruct (stacktrace_stage C sf false har w1) as [w2 [r2|e]];
    simpl in H2; destruct H2 as (l2 & Hl2 & Hn2 & Hlen2).
  2:{ subst l2. exists []. simpl. split; [assumption|]. split; auto. }
  pose proof (decryption_stage_log cf (fst r2) (snd r2) w2) as H3.
  destruct (decryption_stage C cf (fst r2) (snd r2) w2) as [w3 [r3|e]];
    simpl in H3; destruct H3 as (l3 & Hl3 & Hn3 & Hlen3).
  2:{ subst l3. rewrite app_nil_r in Hl3. exists l2. simpl.
      split; [congruence|]. split; [lia | assumption]. }
  pose proof (save_enriched_log (fst r3) (snd r3) out kws w3) as H4.
  destruct (save_enriched C (fst r3) (snd r3) out kws w3) as [w4 [[]|e]];
    cbn [fst snd] in *.
  - destruct l2 as [|a [|? ?]]; try discriminate.
    destruct l3 as [|b [|? ?]]; try discriminate.
    exists [a; b; (INFO, saved_message out)].
    split.
    + rewrite log_add_record, H4, Hl3, Hl2, <- !app_assoc, <- !kept_app. reflexivity.
    + exists a, b. split; [reflexivity|].
      inversion Hn2; subst. inversion Hn3; subst. auto.
  - exists (l2 ++ l3)%list.
    split; [rewrite H4, Hl3, Hl2, <- !app_assoc, <- kept_app; reflexivity|].
    split; [rewrite length_app; lia | apply Forall_app; auto].
Qed.

End LogFacts.

(** X6: the record of line 135 is the mark of success.  The log of a call
    is the sequence of its logging calls, less those that the level of the
    logger filters out.  A call that returns made exactly three logging
    calls, the last of which is "The HAR has been saved in" with the output
    path, at level INFO; a call that raises made at most two.  Whatever the
    level of the logger, the log has that record only if the call returned
    and the logger lets INFO through, which a process that never configured
    logging does not; with the logger at INFO the log holds every call. *)
Theorem saved_record_marks_return (C : Collaborators)
    (input : string) (output : option string) (tshark : option Tshark)
    (sf cf : option string) (ow : bool) (kws : kwargs) (w : World) :
  exists calls,
    log (fst (pcapng_to_har C input output tshark sf cf ow kws w))
    = (log w ++ kept (logging_level C) calls)%list
    /\ match snd (pcapng_to_har C input output tshark sf cf ow kws w) with
       | Return _ =>
           exists out r1 r2,
             output_path input output = Some out
             /\ calls = [r1; r2; (INFO, saved_message out)]
       | Raise _ => length calls <= 2
       end
    /\ (forall r o,
          In r (kept (logging_level C) calls) -> snd r = saved_message o ->
          logging_level C = INFO
          /\ snd (pcapng_to_har C input output tshark sf cf ow kws w) = Return tt)
    /\ (logging_level C = INFO -> kept (logging_level C) calls = calls).
Proof.
  rewrite pcapng_to_har_eq.
  destruct (base_conversion C input output tshark ow kws w) as [w1 [[out traffic]|e]] eqn:Hbase.
  - destruct (base_conversion_returns C _ _ _ _ _ _ _ _ _ Hbase)
      as (pre & t & _ & _ & Hlog & Hout & _).
    destruct (enrich_and_save_log C traffic out sf cf kws w1) as (calls & Hl & Hres).
    exists calls. cbn [fst snd]. split; [congruence|].
    split; [|split].
    + destruct (snd (enrich_and_save C traffic out sf cf kws w1)).
      * destruct Hres as (r1 & r2 & -> & _). eauto.
      * apply Hres.
    + intros r o Hin Hr. apply in_kept in Hin as [Hin Hen].
      destruct (snd (enrich_and_save C traffic out sf cf kws w1)) as [[]|e].
      * destruct Hres as (r1 & r2 & -> & H1 & H2).
        destruct Hin as [<-|[<-|[<-|[]]]].
        -- exfalso. apply (H1 o Hr).
        -- exfalso. apply (H2 o Hr).
        -- split; [|reflexivity].
           simpl in Hen. destruct (logging_level C); [reflexivity|discriminate|discriminate].
      * exfalso. destruct Hres as [_ Hn]. rewrite Forall_forall in Hn.
        apply list_elem_of_In in Hin. apply (Hn r Hin o Hr).
    + intros ->. apply kept_INFO.
  - exists []. cbn [fst snd]. split; [|split; [|split]].
    + simpl. rewrite app_nil_r. rewrite base_conversion_eq in Hbase.
      destruct (output_path input output) as [out|].
      * pose proof (checked_conversion_spec C (Pathlib.of_string input) out tshark ow kws w)
          as (new & _ & Hlog & _).
        rewrite Hbase in Hlog. exact Hlog.
      * injection Hbase as <- _. reflexivity.
    + simpl. lia.
    + intros r o [].
    + reflexivity.
Qed.

(** ** The calls and the files of a run *)

Section RunShape.

Variable C : Collaborators.

(** The calls of the enrichment part: those of the stack trace stage, those
    of the decryption stage, and then nothing, the opening of the output
    file, or the opening and the dump. *)
Lemma enrich_and_save_shape traffic out sf cf kws w1 :
  exists new2 new3 tail,
    trace (fst (enrich_and_save C traffic out sf cf kws w1))
    = (trace w1 ++ new2 ++ new3 ++ tail)%list
    /\ Forall (fun ev => stacktrace_stage_event ev = true) new2
    /\ Forall (fun ev => decryption_stage_event ev = true) new3
    /\ (tail = [] \/ tail = [EvOpenW (Pathlib.str out)]
        \/ exists d, tail = [EvOpenW (Pathlib.str out); EvJsonDump d kws])
    /\ (fs (fst (enrich_and_save C traffic out sf cf kws w1)) = fs w1
        \/ exists text,
            fs (fst (enrich_and_save C traffic out sf cf kws w1))
            = <[Pathlib.str out := RegularFile text]> (fs w1)).
Proof.
  destruct (enrich_and_save_cases C traffic out sf cf kws w1)
    as [(e & _ & Hrun)
       |(har & w2 & o2 & new2 & Hhar & Hs2 & Ht2 & Hf2 & Hev2 & Hp2 &
         [(e & -> & Hrun)
         |(r2 & w3 & o3 & new3 & -> & Hs3 & Ht3 & Hf3 & Hev3 & Hp3 &
           [(e & -> & Hrun)
           |(r3 & -> & [(Hen & Hrun)|[(Hen & Hd & Hrun)|(Hen & Hd & w4 & Ht4 & Hf4 & Hw4 & Hr4)]])])])].
  - rewrite Hrun. simpl fst. rewrite ?trace_add_record, ?fs_add_record. exists [], [], []. simpl. rewrite app_nil_r. repeat split; auto.
  - rewrite Hrun. simpl fst. rewrite ?trace_add_record, ?fs_add_record. exists new2, [], []. simpl. rewrite app_nil_r. repeat split; auto.
  - rewrite Hrun. simpl fst. rewrite ?trace_add_record, ?fs_add_record. exists new2, new3, []. simpl. rewrite app_nil_r.
    split; [rewrite Ht3, Ht2, app_assoc; reflexivity|]. repeat split; auto.
    left. congruence.
  - rewrite Hrun. simpl fst. rewrite ?trace_add_record, ?fs_add_record. exists new2, new3, []. simpl. rewrite app_nil_r.
    split; [rewrite Ht3, Ht2, app_assoc; reflexivity|]. repeat split; auto.
    left. congruence.
  - rewrite Hrun. simpl fst. rewrite ?trace_add_record, ?fs_add_record. exists new2, new3, [EvOpenW (Pathlib.str out)]. simpl.
    split; [rewrite Ht3, Ht2, <- !app_assoc; reflexivity|]. repeat split; auto.
    left. congruence.
  - rewrite Hw4. exists new2, new3, [EvOpenW (Pathlib.str out); EvJsonDump (snd r3) kws].
    split; [rewrite Ht4, Ht3, Ht2, <- !app_assoc; reflexivity|]. repeat split; eauto.
    right. eexists. rewrite Hf4, Hf3, Hf2. reflexivity.
Qed.

(** The calls of the conversion proper are made in one order: the look at
    the output path, the construction of the default tshark if none was
    given, the loading, the first save. *)
Lemma checked_conversion_trace p out tshark ow kws w :
  exists new,
    trace (fst (checked_conversion C p out tshark ow kws w)) = (trace w ++ new)%list
    /\ new `prefix_of`
         ([EvExists (Pathlib.str out)]
          ++ match tshark with None => [EvTshark None] | Some _ => [] end
          ++ [EvLoadTraffic (Pathlib.str p); EvSaveHar (Pathlib.str out) ow kws])%list.
Proof.
  unfold checked_conversion, call_save_har, path_exists,
    bind, emit, read_fs, ret, raise, lift_outcome.
  destruct (Pathlib.eqb out p); simpl.
  { exists []. rewrite app_nil_r. split; [reflexivity | apply prefix_nil]. }
  destruct (fs_exists (fs w) out && negb ow); simpl.
  { eexists. split; [reflexivity|]. eexists. reflexivity. }
  destruct tshark as [t|]; simpl.
  - destruct (load_and_parse C t p (fs w)) as [traffic|e]; simpl.
    + destruct (save_har C traffic out ow kws (fs w)) as [f [[]|e]]; simpl;
        eexists; rewrite <- ?app_assoc; simpl; (split; [reflexivity|]);
        eexists; simpl; reflexivity.
    + eexists; rewrite <- ?app_assoc; simpl. split; [reflexivity|].
      eexists; simpl; reflexivity.
  - destruct (Tshark_init C None) as [t|e]; simpl.
    + destruct (load_and_parse C t p (fs w)) as [traffic|e]; simpl.
      * destruct (save_har C traffic out ow kws (fs w)) as [f [[]|e]]; simpl;
          eexists; rewrite <- ?app_assoc; simpl; (split; [reflexivity|]);
          eexists; simpl; reflexivity.
      * eexists; rewrite <- ?app_assoc; simpl. split; [reflexivity|].
        eexists; simpl; reflexivity.
    + eexists; rewrite <- ?app_assoc; simpl. split; [reflexivity|].
      eexists; simpl; reflexivity.
Qed.

Lemma filter_none {A} (f : A -> bool) (l : list A) :
  Forall (fun x => f x = false) l -> List.filter f l = [].
Proof.
  induction 1 as [|x l Hx _ IH]; simpl; [reflexivity|]. rewrite Hx. exact IH.
Qed.

End RunShape.

(** X7: what a call may change in the file system.  Either nothing at
    all, or what [save_har] did and, besides that, the output path alone:
    every other file is as [save_har] left it. *)
Theorem driver_writes_only_output (C : Collaborators)
    (input : string) (output : option string) (tshark : option Tshark)
    (sf cf : option string) (ow : bool) (kws : kwargs) (w : World) :
  fs (fst (pcapng_to_har C input output tshark sf cf ow kws w)) = fs w
  \/ exists out traffic,
      output_path input output = Some out
      /\ forall k, k <> Pathlib.str out ->
           fs (fst (pcapng_to_har C input output tshark sf cf ow kws w)) !! k
           = fst (save_har C traffic out ow kws (fs w)) !! k.
Proof.
  rewrite pcapng_to_har_eq.
  destruct (base_conversion C input output tshark ow kws w) as [w1 [[out traffic]|e]] eqn:Hbase.
  - destruct (base_conversion_returns C _ _ _ _ _ _ _ _ _ Hbase)
      as (pre & t & _ & _ & _ & Hout & _ & _ & _ & _ & Hsave).
    right. exists out, traffic. split; [assumption|]. intros k Hk.
    rewrite Hsave. simpl.
    destruct (enrich_and_save_shape C traffic out sf cf kws w1)
      as (_ & _ & _ & _ & _ & _ & _ & [Hfs|(text & Hfs)]); rewrite Hfs.
    + reflexivity.
    + apply lookup_insert_ne. congruence.
  - rewrite base_conversion_eq in Hbase.
    destruct (output_path input output) as [out|].
    + pose proof (checked_conversion_spec C (Pathlib.of_string input) out tshark ow kws w) as H.
      rewrite Hbase in H. simpl in H.
      destruct H as (new & _ & _ & _ & [(Hfs & _)|(pre & traffic & t & _ & _ & _ & _ & Hsave)]).
      * left. exact Hfs.
      * right. exists out, traffic. split; [reflexivity|]. intros k _.
        rewrite Hsave. reflexivity.
    + left. injection Hbase as <- _. reflexivity.
Qed.

(** An enriched run leaves the capture file as it was. *)
Lemma driver_writes_only_output_witness :
  fs (fst (pcapng_to_har (Fixture.collaborators Fixture.scenario0)
             "capture.pcapng" None None (Some "socket_trace.json") (Some "aes_info.json")
             false [] Fixture.world0))
  !! "capture.pcapng" = Some (RegularFile "pcapng").
Proof.
  destruct (driver_writes_only_output (Fixture.collaborators Fixture.scenario0)
              "capture.pcapng" None None (Some "socket_trace.json") (Some "aes_info.json")
              false [] Fixture.world0) as [H|(out & traffic & Hout & H)].
  - rewrite H. vm_compute. reflexivity.
  - injection Hout as <-. rewrite (H "capture.pcapng") by (vm_compute; discriminate).
    vm_compute. reflexivity.
Defined.

(** X8: the calls that write, in any run, are made in one order and at
    most once each: [save_har], then the opening of the output file, then
    [json.dump]; all three on the output path that lines 86-90 resolve,
    and the two serializations with the keywords of the caller.  Where no
    output path can be resolved, nothing is written at all. *)
Theorem write_calls_in_order (C : Collaborators)
    (input : string) (output : option string) (tshark : option Tshark)
    (sf cf : option string) (ow : bool) (kws : kwargs) (w : World) :
  exists new d,
    trace (fst (pcapng_to_har C input output tshark sf cf ow kws w)) = (trace w ++ new)%list
    /\ List.filter is_write_event new
       `prefix_of` match output_path input output with
                   | Some out => [EvSaveHar (Pathlib.str out) ow kws;
                                  EvOpenW (Pathlib.str out);
                                  EvJsonDump d kws]
                   | None => []
                   end.
Proof.
  set (d0 := mkHarDocument "" ("", "") []).
  assert (Hstack : forall l, Forall (fun ev => stacktrace_stage_event ev = true) l ->
                             List.filter is_write_event l = []).
  { intros l H. apply filter_none. eapply List.Forall_impl; [|exact H].
    intros ev Hev. destruct ev; simpl in *; congruence. }
  assert (Hdec : forall l, Forall (fun ev => decryption_stage_event ev = true) l ->
                           List.filter is_write_event l = []).
  { intros l H. apply filter_none. eapply List.Forall_impl; [|exact H].
    intros ev Hev. destruct ev; simpl in *; congruence. }
  rewrite pcapng_to_har_eq.
  destruct (base_conversion C input output tshark ow kws w) as [w1 [[out traffic]|e]] eqn:Hbase.
  - destruct (base_conversion_returns C _ _ _ _ _ _ _ _ _ Hbase)
      as (pre & t & Htr & Hpre & _ & Hout & _).
    rewrite Hout.
    assert (Hfpre : List.filter is_write_event pre = []).
    { apply filter_none. eapply List.Forall_impl; [|exact Hpre]. intros ev [H _]; exact H. }
    destruct (enrich_and_save_shape C traffic out sf cf kws w1)
      as (new2 & new3 & tail & Hpost & H2 & H3 & Htail & _).
    simpl.
    assert (Hnew : forall d,
      (tail = [] \/ tail = [EvOpenW (Pathlib.str out)]
       \/ tail = [EvOpenW (Pathlib.str out); EvJsonDump d kws]) ->
      trace (fst (enrich_and_save C traffic out sf cf kws w1))
      = (trace w ++ (pre ++ [EvSaveHar (Pathlib.str out) ow kws] ++ new2 ++ new3 ++ tail))%list
      /\ List.filter is_write_event
           (pre ++ [EvSaveHar (Pathlib.str out) ow kws] ++ new2 ++ new3 ++ tail)
         `prefix_of` [EvSaveHar (Pathlib.str out) ow kws;
                      EvOpenW (Pathlib.str out);
                      EvJsonDump d kws]).
    { intros d Hd. split; [rewrite Hpost, Htr, <- !app_assoc; reflexivity|].
      rewrite !List.filter_app, Hfpre, (Hstack _ H2), (Hdec _ H3). simpl.
      destruct Hd as [->|[->| ->]]; simpl; eexists; reflexivity. }
    destruct Htail as [Ht|[Ht|(d & Ht)]].
    + exists (pre ++ [EvSaveHar (Pathlib.str out) ow kws] ++ new2 ++ new3 ++ tail)%list, d0.
      apply Hnew; auto.
    + exists (pre ++ [EvSaveHar (Pathlib.str out) ow kws] ++ new2 ++ new3 ++ tail)%list, d0.
      apply Hnew; auto.
    + exists (pre ++ [EvSaveHar (Pathlib.str out) ow kws] ++ new2 ++ new3 ++ tail)%list, d.
      apply Hnew; auto.
  - rewrite base_conversion_eq in Hbase.
    destruct (output_path input output) as [out|].
    + pose proof (checked_conversion_spec C (Pathlib.of_string input) out tshark ow kws w) as H.
      rewrite Hbase in H. simpl in H.
      destruct H as (new & Htr & _ & _ & [(_ & Hnw)|(pre & traffic & t & -> & Hpre & _)]).
      * exists new, d0. split; [assumption|].
        rewrite filter_none; [apply prefix_nil|].
        eapply List.Forall_impl; [|exact Hnw]. intros ev [H _]; exact H.
      * exists (pre ++ [EvSaveHar (Pathlib.str out) ow kws])%list, d0.
        split; [assumption|].
        rewrite List.filter_app, filter_none; [simpl; eexists; reflexivity|].
        eapply List.Forall_impl; [|exact Hpre]. intros ev [H _]; exact H.
    + exists [], d0.
      injection Hbase as <- _. simpl. rewrite app_nil_r. split; [reflexivity | apply prefix_nil].
Qed.



(** X10: with [overwrite=True] an output file that exists does not stop
    the conversion.  Whatever is at the output path, the capture is loaded
    and [save_har] is called with [overwrite=True]; what [save_har] does
    decides how the first part ends. *)
Theorem overwrite_ignores_existing_output (C : Collaborators)
    (input : string) (output : option string) (tshark : option Tshark)
    (kws : kwargs) (w : World) (out : Path) (t : Tshark) (traffic : Traffic C) :
  output_path input output = Some out ->
  out <> Pathlib.of_string input ->
  tshark_used C tshark t ->
  load_and_parse C t (Pathlib.of_string input) (fs w) = Return traffic ->
  exists pre,
    base_conversion C input output tshark true kws w
    = (mkWorld (fst (save_har C traffic out true kws (fs w))) (log w)
         (trace w ++ pre ++ [EvSaveHar (Pathlib.str out) true kws]),
       match snd (save_har C traffic out true kws (fs w)) with
       | Return _ => Return (out, traffic)
       | Raise e => Raise e
       end)
    /\ Forall (fun ev => is_write_event ev = false) pre.
Proof.
  intros Hout Hne Ht Hl. apply Path_eqb_neq in Hne.
  rewrite base_conversion_eq, Hout.
  unfold checked_conversion, call_save_har, path_exists,
    bind, emit, read_fs, ret, raise, lift_outcome.
  rewrite Hne. simpl. rewrite andb_false_r.
  destruct Ht as [->|[-> Hi]]; simpl.
  - rewrite Hl. simpl.
    destruct (save_har C traffic out true kws (fs w)) as [f [[]|e]]; simpl;
      exists [EvExists (Pathlib.str out);
              EvLoadTraffic (Pathlib.str (Pathlib.of_string input))];
      unfold set_fs, add_event; simpl; rewrite <- !app_assoc;
      (split; [reflexivity | repeat constructor]).
  - rewrite Hi. simpl. rewrite Hl. simpl.
    destruct (save_har C traffic out true kws (fs w)) as [f [[]|e]]; simpl;
      exists [EvExists (Pathlib.str out); EvTshark None;
              EvLoadTraffic (Pathlib.str (Pathlib.of_string input))];
      unfold set_fs, add_event; simpl; rewrite <- !app_assoc;
      (split; [reflexivity | repeat constructor]).
Qed.

Lemma overwrite_ignores_existing_output_witness :
  let C := Fixture.collaborators Fixture.scenario0 in
  fs_exists (fs Fixture.world_conflict) (Pathlib.of_string "capture.har") = true
  /\ snd (base_conversion C "capture.pcapng" None None true [] Fixture.world_conflict)
     = Return (Pathlib.of_string "capture.har", Fixture.document0).
Proof.
  intros C. split; [vm_compute; reflexivity|].
  destruct (overwrite_ignores_existing_output C "capture.pcapng" None None []
              Fixture.world_conflict (Pathlib.of_string "capture.har")
              (mkTshark None) Fixture.document0) as (pre & H & _).
  - reflexivity.
  - intros H; vm_compute in H; discriminate H.
  - right. split; reflexivity.
  - reflexivity.
  - rewrite H. reflexivity.
Defined.

(** X11: an output path that is given and names the input file, however
    it is spelt, trips the assertion of line 92: the call raises
    [AssertionError] with the world untouched. *)
Theorem output_same_as_input_rejected (C : Collaborators)
    (input o : string) (tshark : option Tshark)
    (sf cf : option string) (ow : bool) (kws : kwargs) (w : World) :
  Pathlib.of_string o = Pathlib.of_string input ->
  pcapng_to_har C input (Some o) tshark sf cf ow kws w
  = (w, Raise (Exn AssertionError (Pathlib.str (Pathlib.of_string input)))).
Proof.
  intros Heq. rewrite pcapng_to_har_eq, base_conversion_eq. simpl.
  unfold checked_conversion. rewrite (proj2 (Path_eqb_eq _ _) Heq). reflexivity.
Qed.

Lemma output_same_as_input_rejected_witness :
  pcapng_to_har (Fixture.collaborators Fixture.scenario0)
    "captures/a.pcapng" (Some "./captures//a.pcapng/") None None None true []
    Fixture.world0
  = (Fixture.world0, Raise (Exn AssertionError "captures/a.pcapng")).
Proof.
  apply (output_same_as_input_rejected (Fixture.collaborators Fixture.scenario0)
           "captures/a.pcapng" "./captures//a.pcapng/").
  reflexivity.
Defined.

(** ** Keywords *)

Section KeywordFacts.

Variable C : Collaborators.

(** The keywords that name no parameter are collected in the order of the
    call. *)
Lemma bind_keywords_extra kws named extra named' extra' :
  bind_keywords kws named extra = Return (named', extra') ->
  extra' = (extra ++ List.filter (fun kv => negb (is_param (fst kv))) kws)%list.
Proof.
  revert named extra. induction kws as [|[k v] kws IH]; intros named extra H.
  - simpl in H. injection H as <- <-. simpl. rewrite app_nil_r. reflexivity.
  - cbn [bind_keywords] in H. cbn [List.filter fst].
    destruct (is_param k); simpl.
    + destruct (kw_mem k named); [discriminate|]. apply (IH _ _ H).
    + rewrite (IH _ _ H), <- app_assoc. reflexivity.
Qed.

Lemma bind_arguments_extra positional keywords named extra :
  bind_arguments positional keywords = Return (named, extra) ->
  extra = List.filter (fun kv => negb (is_param (fst kv))) keywords.
Proof.
  unfold bind_arguments.
  destruct (duplicate_keyword keywords []); [discriminate|].
  destruct (bind_positional positional_params positional) as [pos excess].
  destruct (bind_keywords keywords pos []) as [[named' extra']|e] eqn:Hb; [|discriminate].
  apply bind_keywords_extra in Hb. simpl in Hb.
  destruct (0 <? excess)%nat; [discriminate|].
  destruct (kw_mem "input_file" named'); [|discriminate].
  intros H; injection H as <- <-. exact Hb.
Qed.

(** The events of the first part of the driver. *)
Lemma base_conversion_events input output tshark ow kws w :
  exists new,
    trace (fst (base_conversion C input output tshark ow kws w)) = (trace w ++ new)%list
    /\ Forall (fun ev => forall k, serialization_kws ev = Some k -> k = kws) new.
Proof.
  assert (Hpre : forall pre,
    Forall (fun ev => is_write_event ev = false /\ is_enrichment_event ev = false) pre ->
    Forall (fun ev => forall k, serialization_kws ev = Some k -> k = kws) pre).
  { intros pre H. eapply List.Forall_impl; try exact H.
    intros ev [H1 H2]; destruct ev; simpl in *; intros; try discriminate; auto. }
  rewrite base_conversion_eq.
  destruct (output_path input output) as [out|].
  2:{ exists []. rewrite app_nil_r. split; [reflexivity | constructor]. }
  pose proof (checked_conversion_spec C (Pathlib.of_string input) out tshark ow kws w) as H.
  destruct (checked_conversion C (Pathlib.of_string input) out tshark ow kws w) as [w1 [r|e]];
    simpl in *; destruct H as (new & Htr & _ & _ & H); exists new; (split; [assumption|]).
  - destruct H as (pre & t & -> & Hp & _). apply Forall_app. split; [auto|].
    repeat constructor. simpl. congruence.
  - destruct H as [(_ & Hp)|(pre & traffic & t & -> & Hp & _)]; [auto|].
    apply Forall_app. split; [auto|]. repeat constructor. simpl. congruence.
Qed.

End KeywordFacts.



(** ** Paths that print and parse back *)

Section PathRoundTrip.

Lemma contains_slash_app a b :
  Pathlib.contains_slash (a ++ b)
  = Pathlib.contains_slash a || Pathlib.contains_slash b.
Proof.
  induction a as [|c a IH]; [reflexivity|].
  change (String c a ++ b) with (String c (a ++ b)). simpl.
  rewrite IH, orb_assoc. reflexivity.
Qed.

Lemma contains_slash_substring s i n :
  Pathlib.contains_slash s = false -> Pathlib.contains_slash (substring i n s) = false.
Proof.
  revert i n. induction s as [|c s IH]; intros i n H.
  - destruct i, n; reflexivity.
  - simpl in H. apply orb_false_iff in H as [Hc Hs].
    destruct i as [|i]; destruct n as [|n]; simpl; auto.
    rewrite Hc. simpl. auto.
Qed.

(** The pieces between slashes have no slash. *)
Lemma split_slash_no_slash s :
  Forall (fun x => Pathlib.contains_slash x = false) (Pathlib.split_slash s).
Proof.
  induction s as [|c s IH]; simpl; [repeat constructor|].
  destruct (Ascii.eqb c "/") eqn:Hc.
  - constructor; [reflexivity | exact IH].
  - destruct (Pathlib.split_slash s) as [|x xs]; [repeat constructor; simpl; rewrite Hc; reflexivity|].
    inversion IH; subst. constructor; [|assumption].
    simpl. rewrite Hc. assumption.
Qed.

Lemma split_slash_nonempty s : Pathlib.split_slash s <> [].
Proof.
  induction s as [|c s IH]; simpl; [discriminate|].
  destruct (Ascii.eqb c "/"); [discriminate|].
  destruct (Pathlib.split_slash s); discriminate.
Qed.

(** A piece without a slash, then a slash, then the rest. *)
Lemma split_slash_app x rest :
  Pathlib.contains_slash x = false ->
  Pathlib.split_slash (x ++ String "/"%char rest) = x :: Pathlib.split_slash rest.
Proof.
  induction x as [|c x IH]; intros H.
  - reflexivity.
  - simpl in H. apply orb_false_iff in H as [Hc Hx].
    change (String c x ++ String "/"%char rest) with (String c (x ++ String "/"%char rest)).
    simpl. rewrite Hc, (IH Hx). reflexivity.
Qed.

Lemma split_slash_single x :
  Pathlib.contains_slash x = false -> Pathlib.split_slash x = [x].
Proof.
  induction x as [|c x IH]; intros H; [reflexivity|].
  simpl in H. apply orb_false_iff in H as [Hc Hx].
  simpl. rewrite Hc, (IH Hx). reflexivity.
Qed.

(** Joining components and splitting again gives the components. *)
Lemma split_slash_join ps :
  ps <> [] ->
  Forall (fun x => Pathlib.contains_slash x = false) ps ->
  Pathlib.split_slash (Pathlib.join_slash ps) = ps.
Proof.
  induction ps as [|x ps IH]; [congruence|]. intros _ H.
  inversion H as [|? ? Hx Hps]; subst.
  destruct ps as [|y ps].
  - simpl. apply split_slash_single. assumption.
  - change (Pathlib.join_slash (x :: y :: ps))
      with (x ++ String "/"%char (Pathlib.join_slash (y :: ps))).
    rewrite split_slash_app by assumption.
    rewrite IH; [reflexivity | discriminate | assumption].
Qed.

Lemma leading_slashes_join ps :
  Forall (fun x => Pathlib.contains_slash x = false /\ Pathlib.keep_part x = true) ps ->
  Pathlib.leading_slashes (Pathlib.join_slash ps) = 0.
Proof.
  intros H. destruct ps as [|x ps]; [reflexivity|].
  inversion H as [|? ? [Hx Hk] _]; subst.
  destruct x as [|c x]; [discriminate Hk|].
  simpl in Hx. apply orb_false_iff in Hx as [Hc _].
  destruct ps; simpl; rewrite Hc; reflexivity.
Qed.

Lemma filter_keep_all ps :
  Forall (fun x => Pathlib.contains_slash x = false /\ Pathlib.keep_part x = true) ps ->
  filter (fun x => Pathlib.keep_part x = true) ps = ps.
Proof.
  induction 1 as [|x ps [_ Hk] _ IH]; [reflexivity|].
  rewrite filter_cons_True by assumption. rewrite IH. reflexivity.
Qed.

(** A well-formed path is what its string parses to. *)
Lemma of_string_str p : well_formed p -> Pathlib.of_string (Pathlib.str p) = p.
Proof.
  intros [Hroot Hparts]. destruct p as [r ps]. simpl in *.
  assert (Hns : Forall (fun x => Pathlib.contains_slash x = false) ps)
    by (eapply List.Forall_impl; [|exact Hparts]; intros x [H _]; exact H).
  pose proof (leading_slashes_join ps Hparts) as Hlead.
  pose proof (filter_keep_all ps Hparts) as Hkeep.
  destruct ps as [|x ps].
  - destruct Hroot as [->|[->| ->]]; reflexivity.
  - rewrite <- (split_slash_join (x :: ps)) in Hkeep at 1 by (discriminate || assumption).
    assert (Hstr : Pathlib.str (Pathlib.mkPath r (x :: ps)) = r ++ Pathlib.join_slash (x :: ps))
      by (destruct r; reflexivity).
    rewrite Hstr. clear Hstr.
    set (j := Pathlib.join_slash (x :: ps)) in *.
    unfold Pathlib.of_string, Pathlib.parse_root.
    destruct Hroot as [->|[->| ->]].
    + change ("" ++ j) with j. rewrite Hlead, Hkeep. reflexivity.
    + change ("/" ++ j) with (String "/"%char j).
      change (Pathlib.leading_slashes (String "/"%char j))
        with (S (Pathlib.leading_slashes j)).
      change (Pathlib.split_slash (String "/"%char j))
        with (EmptyString :: Pathlib.split_slash j).
      rewrite Hlead. rewrite filter_cons_False by (simpl; discriminate).
      rewrite Hkeep. reflexivity.
    + change ("//" ++ j) with (String "/"%char (String "/"%char j)).
      change (Pathlib.leading_slashes (String "/"%char (String "/"%char j)))
        with (S (S (Pathlib.leading_slashes j))).
      change (Pathlib.split_slash (String "/"%char (String "/"%char j)))
        with (EmptyString :: EmptyString :: Pathlib.split_slash j).
      rewrite Hlead. rewrite !filter_cons_False by (simpl; discriminate).
      rewrite Hkeep. reflexivity.
Qed.

(** [Path(s)] is well formed. *)
Lemma of_string_well_formed s : well_formed (Pathlib.of_string s).
Proof.
  split.
  - unfold Pathlib.of_string, Pathlib.parse_root. simpl.
    destruct (Pathlib.leading_slashes s) as [|[|[|n]]]; auto.
  - unfold Pathlib.of_string. simpl.
    pose proof (split_slash_no_slash s) as H.
    induction H as [|x l Hx _ IH]; [constructor|].
    destruct (Pathlib.keep_part x) eqn:Hk.
    + rewrite filter_cons_True by assumption. constructor; auto.
    + rewrite filter_cons_False by (rewrite Hk; discriminate). exact IH.
Qed.

End PathRoundTrip.

Section DefaultOutputFacts.

Lemma Forall_removelast {A} (P : A -> Prop) (l : list A) :
  Forall P l -> Forall P (removelast l).
Proof.
  induction 1 as [|x l Hx Hl IH]; simpl; [constructor|].
  destruct l; [constructor | constructor; assumption].
Qed.

Lemma keep_part_app_har a : Pathlib.keep_part (a ++ ".har") = true.
Proof.
  unfold Pathlib.keep_part.
  destruct (String.eqb_spec (a ++ ".har") "") as [E|_].
  { apply (f_equal String.length) in E. rewrite string_length_app in E. simpl in E. lia. }
  destruct (String.eqb_spec (a ++ ".har") ".") as [E|_]; [|reflexivity].
  apply (f_equal String.length) in E. rewrite string_length_app in E. simpl in E. lia.
Qed.

Lemma name_in_parts p : Pathlib.name p <> "" -> In (Pathlib.name p) (Pathlib.parts p).
Proof.
  unfold Pathlib.name. intros H.
  destruct (Pathlib.parts p) as [|x l] eqn:E; [simpl in H; congruence|].
  rewrite <- E in *. rewrite (app_removelast_last "" (l := Pathlib.parts p)) at 2
    by (rewrite E; discriminate).
  apply in_or_app. right. left. reflexivity.
Qed.

(** The default output path is a path as [Path(...)] makes them. *)
Lemma with_suffix_well_formed p out :
  well_formed p -> Pathlib.with_suffix p ".har" = Some out -> well_formed out.
Proof.
  intros [Hroot Hparts]. unfold Pathlib.with_suffix. simpl.
  destruct (String.eqb_spec (Pathlib.name p) "") as [E|E]; [discriminate|].
  intros H. injection H as <-. split; [exact Hroot|]. simpl.
  assert (Hname : Pathlib.contains_slash (Pathlib.name p) = false).
  { rewrite Forall_forall in Hparts.
    apply (Hparts (Pathlib.name p)). apply list_elem_of_In. apply name_in_parts. assumption. }
  unfold Pathlib.replace_last. apply Forall_app. split.
  - apply Forall_removelast. assumption.
  - constructor; [|constructor].
    destruct (Pathlib.suffix p =? "")%string.
    + split; [|apply keep_part_app_har].
      rewrite contains_slash_app, Hname. reflexivity.
    + split; [|apply keep_part_app_har].
      rewrite contains_slash_app, contains_slash_substring by assumption. reflexivity.
Qed.

End DefaultOutputFacts.

(** X13: the default output of one conversion is not converted again.
    Called with no output path on the path that [with_suffix] gave for some
    input, the driver finds the default output equal to its input and
    raises [AssertionError] with the world untouched. *)
Theorem default_output_is_not_reconverted (C : Collaborators)
    (input : string) (out : Path) (tshark : option Tshark)
    (sf cf : option string) (ow : bool) (kws : kwargs) (w : World) :
  Pathlib.with_suffix (Pathlib.of_string input) ".har" = Some out ->
  pcapng_to_har C (Pathlib.str out) None tshark sf cf ow kws w
  = (w, Raise (Exn AssertionError (Pathlib.str out))).
Proof.
  intros Hout.
  assert (Hwf : well_formed out)
    by (eapply with_suffix_well_formed; [apply of_string_well_formed | exact Hout]).
  destruct (with_suffix_har_shape _ _ Hout) as (_ & _ & Hsuf).
  rewrite pcapng_to_har_eq, base_conversion_eq. unfold output_path.
  rewrite (of_string_str out Hwf), (with_suffix_har_fixpoint out Hsuf).
  unfold checked_conversion. rewrite (proj2 (Path_eqb_eq _ _) eq_refl). reflexivity.
Qed.

Lemma default_output_is_not_reconverted_witness :
  pcapng_to_har (Fixture.collaborators Fixture.scenario0)
    "/data/captures/run.1.har" None None None None false [] Fixture.world0
  = (Fixture.world0, Raise (Exn AssertionError "/data/captures/run.1.har")).
Proof.
  apply (default_output_is_not_reconverted (Fixture.collaborators Fixture.scenario0)
           "/data//captures/./run.1.pcapng"
           (Pathlib.of_string "/data/captures/run.1.har")).
  reflexivity.
Defined.
